(** * Tokyo CinePath: showtime ingestion, enrichment and status derivation

    A shallow embedding of [cinema-scraper/main.go] and
    [cinema-scraper/models.go], and the properties that the specification
    states about them.

    Conventions of the embedding.
    - A Go [string] is a byte sequence: [String.string], one [ascii] per
      byte; Japanese text appears UTF-8 encoded.  [len] is [String.length].
    - [int] and [uint] are [Z]; no computation of the program comes near
      their bounds.  [float64] is a primitive float.
    - [time.Time] is an instant together with a fixed zone offset
      (module [GoTime]).
    - The database handle [db] is an explicit value of type [DB], threaded
      through every function that uses it; store operations do not fail.
      The columns [CreatedAt] and [UpdatedAt], which the ORM maintains by
      itself, are left out.
    - Answers of the outside world (TMDB, OMDb, Douban, the wall clock) are
      read from a [World]; a function that queries it also returns the list
      of [Event]s it caused.
    - The scraper's callbacks are folds over the elements the selectors
      match; a page is given by the texts and attributes they read.
    - Loop variables are per iteration (Go 1.22 and later). *)

From Stdlib Require Import ZArith String Ascii Lia Floats.PrimFloat.
From stdpp Require Import base option list gmap strings.

Open Scope string_scope.
Open Scope Z_scope.

(** ** Strings as Go sees them *)

Module GoStrings.

Definition byte (n : Z) : ascii := ascii_of_N (Z.to_N n).
Definition code (c : ascii) : Z := Z.of_N (N_of_ascii c).

(** [len(s)], as a [Z]. *)
Definition len (s : string) : Z := Z.of_nat (String.length s).

(** [s[n:]] and [s[:n]]. *)
Fixpoint drop (n : nat) (s : string) : string :=
  match n, s with
  | O, _ => s
  | S n', String _ s' => drop n' s'
  | S _, EmptyString => EmptyString
  end.

Fixpoint take (n : nat) (s : string) : string :=
  match n, s with
  | O, _ => EmptyString
  | S n', String c s' => String c (take n' s')
  | S _, EmptyString => EmptyString
  end.

(** [strings.HasPrefix(s, p)]. *)
Fixpoint HasPrefix (s p : string) {struct p} : bool :=
  match p, s with
  | EmptyString, _ => true
  | String a p', String b s' => Ascii.eqb a b && HasPrefix s' p'
  | String _ _, EmptyString => false
  end.

(** [strings.Contains(s, p)]. *)
Fixpoint Contains (s p : string) : bool :=
  HasPrefix s p ||
  match s with
  | EmptyString => false
  | String _ s' => Contains s' p
  end.

(** [strings.Join(parts, sep)]. *)
Fixpoint Join (parts : list string) (sep : string) : string :=
  match parts with
  | [] => EmptyString
  | [p] => p
  | p :: rest => p ++ sep ++ Join rest sep
  end.

(** The white space of [unicode.IsSpace], as UTF-8 byte sequences:
    U+0009..U+000D, U+0020, U+0085, U+00A0, U+1680, U+2000..U+200A,
    U+2028, U+2029, U+202F, U+205F, U+3000. *)
Definition space_runes : list string :=
  map (fun bs => string_of_list_ascii (map byte bs))
    ([ [9]; [10]; [11]; [12]; [13]; [32];
       [194; 133]; [194; 160]; [225; 154; 128] ]
     ++ map (fun k => [226; 128; 128 + k]) [0; 1; 2; 3; 4; 5; 6; 7; 8; 9; 10]
     ++ [ [226; 128; 168]; [226; 128; 169]; [226; 128; 175];
          [226; 129; 159]; [227; 128; 128] ]).

(** The length of the white-space rune that [s] starts with, if any. *)
Definition leading_space (s : string) : option nat :=
  String.length <$> List.find (HasPrefix s) space_runes.

(** [strings.TrimLeftFunc(s, unicode.IsSpace)]: a rune is one to three
    bytes here, so a counter of bytes still to skip keeps the recursion
    structural. *)
Fixpoint trim_left (skip : nat) (s : string) : string :=
  match skip, s with
  | S k, String _ s' => trim_left k s'
  | S _, EmptyString => EmptyString
  | O, EmptyString => EmptyString
  | O, String _ s' =>
      match leading_space s with
      | Some (S k) => trim_left k s'
      | _ => s
      end
  end.

Definition rev_string (s : string) : string :=
  string_of_list_ascii (rev (list_ascii_of_string s)).

(** The same from the right end, on the reversed text. *)
Definition trailing_space (r : string) : option nat :=
  String.length <$> List.find (fun sp => HasPrefix r (rev_string sp)) space_runes.

Fixpoint trim_left_rev (skip : nat) (r : string) : string :=
  match skip, r with
  | S k, String _ r' => trim_left_rev k r'
  | S _, EmptyString => EmptyString
  | O, EmptyString => EmptyString
  | O, String _ r' =>
      match trailing_space r with
      | Some (S k) => trim_left_rev k r'
      | _ => r
      end
  end.

(** [strings.TrimSpace(s)]. *)
Definition TrimSpace (s : string) : string :=
  rev_string (trim_left_rev 0 (rev_string (trim_left 0 s))).

End GoStrings.

(** ** [time.Time] *)

Module GoTime.

(** An instant, in nanoseconds since 0001-01-01T00:00:00Z (Go's zero
    time), and the offset of its location in seconds east of UTC.  The
    locations that occur are UTC ([time.Parse] without a zone) and the
    process's local zone ([time.Now]), taken as a fixed offset. *)
Record Time := mkTime { abs_ns : Z; zone : Z }.

Definition second_ns : Z := 1000000000.
Definition day_ns : Z := 86400 * second_ns.

Definition zero : Time := mkTime 0 0.

Definition IsZero (t : Time) : bool := abs_ns t =? 0.
Definition Before (t u : Time) : bool := abs_ns t <? abs_ns u.
Definition After (t u : Time) : bool := abs_ns u <? abs_ns t.
Definition Equal (t u : Time) : bool := abs_ns t =? abs_ns u.

(** [t.AddDate(0, 0, n)]: in a fixed-offset zone, [n] times 24 hours.
    [AddDate] keeps the wall clock, so in a zone with daylight saving time a
    day can last 23 or 25 hours; such zones are outside this model of the
    location (UTC and Tokyo have none). *)
Definition AddDays (n : Z) (t : Time) : Time :=
  mkTime (abs_ns t + n * day_ns) (zone t).

(** [t.Truncate(24 * time.Hour)]: rounds the absolute time since the zero
    time down; the zone plays no part. *)
Definition Truncate24h (t : Time) : Time :=
  mkTime (abs_ns t - abs_ns t mod day_ns) (zone t).

(** The calendar date of [t] in its own location, as the number of days
    since 0001-01-01.  It stands for [t.Format("2006-01-02")]: the layout
    is fixed-width with the most significant field first, so for the years
    0000 to 9999 Go's [<], [<=] and [>=] on two such strings are [<], [<=]
    and [>=] on the day numbers. *)
Definition local_day (t : Time) : Z :=
  (abs_ns t + zone t * second_ns) / day_ns.

(** Midnight UTC of day [d]. *)
Definition midnight_utc (d : Z) : Time := mkTime (d * day_ns) 0.

(** *** Calendar *)

Definition is_leap (year : Z) : bool :=
  (year mod 4 =? 0) && (negb (year mod 100 =? 0) || (year mod 400 =? 0)).

Definition daysIn (month year : Z) : Z :=
  if month =? 2 then (if is_leap year then 29 else 28)
  else if (month =? 4) || (month =? 6) || (month =? 9) || (month =? 11) then 30
  else 31.

Definition days_before_year (year : Z) : Z :=
  let y := year - 1 in
  365 * y + y / 4 - y / 100 + y / 400.

Definition days_before_month (month year : Z) : Z :=
  nth (Z.to_nat (month - 1))
      [0; 31; 59; 90; 120; 151; 181; 212; 243; 273; 304; 334] 0
  + (if is_leap year && (2 <? month) then 1 else 0).

(** Day number of a calendar date. *)
Definition civil_day (year month day : Z) : Z :=
  days_before_year year + days_before_month month year + (day - 1).

(** [time.Date(year, month, day, 0, 0, 0, 0, time.UTC)]. *)
Definition Date (year month day : Z) : Time :=
  midnight_utc (civil_day year month day).

(** [time.Date(year, month, day, hour, min, 0, 0, loc)] for a location
    [loc] that is [offset] seconds east of UTC. *)
Definition DateIn (offset year month day hour min : Z) : Time :=
  mkTime ((civil_day year month day * 86400 + hour * 3600 + min * 60 - offset)
          * second_ns) offset.

(** *** [time.Parse] for the two layouts of the program *)

Definition isDigit (c : ascii) : bool :=
  (48 <=? GoStrings.code c) && (GoStrings.code c <=? 57).

(** Exactly [n] decimal digits ([atoi] of a four-byte slice for the year,
    [getnum(value, true)] for month and day). *)
Fixpoint digits (n : nat) (acc : Z) (value : string) : option (Z * string) :=
  match n with
  | O => Some (acc, value)
  | S n' =>
      match value with
      | String c rest =>
          if isDigit c then digits n' (acc * 10 + (GoStrings.code c - 48)) rest
          else None
      | EmptyString => None
      end
  end.

(** A literal byte of the layout. *)
Definition literal (c : ascii) (value : string) : option string :=
  match value with
  | String c' rest => if Ascii.eqb c c' then Some rest else None
  | EmptyString => None
  end.

(** [time.Parse(layout, value)] where [layout] is ["2006-01-02"] when
    [dashed] and ["20060102"] otherwise; [None] is a non-nil error. *)
Definition Parse (dashed : bool) (value : string) : option Time :=
  '(year, value) ← digits 4 0 value;
  value ← (if dashed then literal "-" value else Some value);
  '(month, value) ← digits 2 0 value;
  if (month <=? 0) || (12 <? month) then None else
  value ← (if dashed then literal "-" value else Some value);
  '(day, value) ← digits 2 0 value;
  if negb (String.eqb value "") then None else
  if (day <? 1) || (daysIn month year <? day) then None else
  Some (Date year month day).

End GoTime.

(** ** The tables ([models.go], and [Cinema] of [main.go]) *)

Module Cinema.
Record t := mk {
  ID : Z;
  NameJP : string;
  Address : string;
  Latitude : float;
  Longitude : float;
  BuildingPhoto : string;
  Website : string
}.
End Cinema.

Module Movie.
Record t := mk {
  ID : Z;
  TMDBID : Z;
  IMDBID : string;
  TitleCN : string;
  TitleEN : string;
  TitleJP : string;
  Director : string;
  Year : string;
  Synopsis : string;
  Poster : string;
  Backdrop : string;
  Runtime : Z;
  Genre : string;
  CastJSON : string;
  TMDBRating : float;
  IMDBRating : float;
  DoubanRating : float;
  Status : string;
  ReleaseDate : GoTime.Time;
  CuratorNote : string
}.

(** The zero value [Movie{}]. *)
Definition empty : t :=
  mk 0 0 "" "" "" "" "" "" "" "" "" 0 "" "" 0%float 0%float 0%float ""
     GoTime.zero "".

(** Assignments [m.F = v]. *)
Definition set_ID (v : Z) (m : t) : t :=
  mk v (TMDBID m) (IMDBID m) (TitleCN m) (TitleEN m) (TitleJP m) (Director
     m) (Year m) (Synopsis m) (Poster m) (Backdrop m) (Runtime m) (Genre m)
     (CastJSON m) (TMDBRating m) (IMDBRating m) (DoubanRating m) (Status m)
     (ReleaseDate m) (CuratorNote m).
Definition set_TMDBID (v : Z) (m : t) : t :=
  mk (ID m) v (IMDBID m) (TitleCN m) (TitleEN m) (TitleJP m) (Director m)
     (Year m) (Synopsis m) (Poster m) (Backdrop m) (Runtime m) (Genre m)
     (CastJSON m) (TMDBRating m) (IMDBRating m) (DoubanRating m) (Status m)
     (ReleaseDate m) (CuratorNote m).
Definition set_IMDBID (v : string) (m : t) : t :=
  mk (ID m) (TMDBID m) v (TitleCN m) (TitleEN m) (TitleJP m) (Director m)
     (Year m) (Synopsis m) (Poster m) (Backdrop m) (Runtime m) (Genre m)
     (CastJSON m) (TMDBRating m) (IMDBRating m) (DoubanRating m) (Status m)
     (ReleaseDate m) (CuratorNote m).
Definition set_TitleCN (v : string) (m : t) : t :=
  mk (ID m) (TMDBID m) (IMDBID m) v (TitleEN m) (TitleJP m) (Director m)
     (Year m) (Synopsis m) (Poster m) (Backdrop m) (Runtime m) (Genre m)
     (CastJSON m) (TMDBRating m) (IMDBRating m) (DoubanRating m) (Status m)
     (ReleaseDate m) (CuratorNote m).
Definition set_TitleEN (v : string) (m : t) : t :=
  mk (ID m) (TMDBID m) (IMDBID m) (TitleCN m) v (TitleJP m) (Director m)
     (Year m) (Synopsis m) (Poster m) (Backdrop m) (Runtime m) (Genre m)
     (CastJSON m) (TMDBRating m) (IMDBRating m) (DoubanRating m) (Status m)
     (ReleaseDate m) (CuratorNote m).
Definition set_TitleJP (v : string) (m : t) : t :=
  mk (ID m) (TMDBID m) (IMDBID m) (TitleCN m) (TitleEN m) v (Director m)
     (Year m) (Synopsis m) (Poster m) (Backdrop m) (Runtime m) (Genre m)
     (CastJSON m) (TMDBRating m) (IMDBRating m) (DoubanRating m) (Status m)
     (ReleaseDate m) (CuratorNote m).
Definition set_Director (v : string) (m : t) : t :=
  mk (ID m) (TMDBID m) (IMDBID m) (TitleCN m) (TitleEN m) (TitleJP m) v
     (Year m) (Synopsis m) (Poster m) (Backdrop m) (Runtime m) (Genre m)
     (CastJSON m) (TMDBRating m) (IMDBRating m) (DoubanRating m) (Status m)
     (ReleaseDate m) (CuratorNote m).
Definition set_Year (v : string) (m : t) : t :=
  mk (ID m) (TMDBID m) (IMDBID m) (TitleCN m) (TitleEN m) (TitleJP m)
     (Director m) v (Synopsis m) (Poster m) (Backdrop m) (Runtime m) (Genre
     m) (CastJSON m) (TMDBRating m) (IMDBRating m) (DoubanRating m) (Status
     m) (ReleaseDate m) (CuratorNote m).
Definition set_Synopsis (v : string) (m : t) : t :=
  mk (ID m) (TMDBID m) (IMDBID m) (TitleCN m) (TitleEN m) (TitleJP m)
     (Director m) (Year m) v (Poster m) (Backdrop m) (Runtime m) (Genre m)
     (CastJSON m) (TMDBRating m) (IMDBRating m) (DoubanRating m) (Status m)
     (ReleaseDate m) (CuratorNote m).
Definition set_Poster (v : string) (m : t) : t :=
  mk (ID m) (TMDBID m) (IMDBID m) (TitleCN m) (TitleEN m) (TitleJP m)
     (Director m) (Year m) (Synopsis m) v (Backdrop m) (Runtime m) (Genre m)
     (CastJSON m) (TMDBRating m) (IMDBRating m) (DoubanRating m) (Status m)
     (ReleaseDate m) (CuratorNote m).
Definition set_Backdrop (v : string) (m : t) : t :=
  mk (ID m) (TMDBID m) (IMDBID m) (TitleCN m) (TitleEN m) (TitleJP m)
     (Director m) (Year m) (Synopsis m) (Poster m) v (Runtime m) (Genre m)
     (CastJSON m) (TMDBRating m) (IMDBRating m) (DoubanRating m) (Status m)
     (ReleaseDate m) (CuratorNote m).
Definition set_Runtime (v : Z) (m : t) : t :=
  mk (ID m) (TMDBID m) (IMDBID m) (TitleCN m) (TitleEN m) (TitleJP m)
     (Director m) (Year m) (Synopsis m) (Poster m) (Backdrop m) v (Genre m)
     (CastJSON m) (TMDBRating m) (IMDBRating m) (DoubanRating m) (Status m)
     (ReleaseDate m) (CuratorNote m).
Definition set_Genre (v : string) (m : t) : t :=
  mk (ID m) (TMDBID m) (IMDBID m) (TitleCN m) (TitleEN m) (TitleJP m)
     (Director m) (Year m) (Synopsis m) (Poster m) (Backdrop m) (Runtime m)
     v (CastJSON m) (TMDBRating m) (IMDBRating m) (DoubanRating m) (Status
     m) (ReleaseDate m) (CuratorNote m).
Definition set_CastJSON (v : string) (m : t) : t :=
  mk (ID m) (TMDBID m) (IMDBID m) (TitleCN m) (TitleEN m) (TitleJP m)
     (Director m) (Year m) (Synopsis m) (Poster m) (Backdrop m) (Runtime m)
     (Genre m) v (TMDBRating m) (IMDBRating m) (DoubanRating m) (Status m)
     (ReleaseDate m) (CuratorNote m).
Definition set_TMDBRating (v : float) (m : t) : t :=
  mk (ID m) (TMDBID m) (IMDBID m) (TitleCN m) (TitleEN m) (TitleJP m)
     (Director m) (Year m) (Synopsis m) (Poster m) (Backdrop m) (Runtime m)
     (Genre m) (CastJSON m) v (IMDBRating m) (DoubanRating m) (Status m)
     (ReleaseDate m) (CuratorNote m).
Definition set_IMDBRating (v : float) (m : t) : t :=
  mk (ID m) (TMDBID m) (IMDBID m) (TitleCN m) (TitleEN m) (TitleJP m)
     (Director m) (Year m) (Synopsis m) (Poster m) (Backdrop m) (Runtime m)
     (Genre m) (CastJSON m) (TMDBRating m) v (DoubanRating m) (Status m)
     (ReleaseDate m) (CuratorNote m).
Definition set_DoubanRating (v : float) (m : t) : t :=
  mk (ID m) (TMDBID m) (IMDBID m) (TitleCN m) (TitleEN m) (TitleJP m)
     (Director m) (Year m) (Synopsis m) (Poster m) (Backdrop m) (Runtime m)
     (Genre m) (CastJSON m) (TMDBRating m) (IMDBRating m) v (Status m)
     (ReleaseDate m) (CuratorNote m).
Definition set_Status (v : string) (m : t) : t :=
  mk (ID m) (TMDBID m) (IMDBID m) (TitleCN m) (TitleEN m) (TitleJP m)
     (Director m) (Year m) (Synopsis m) (Poster m) (Backdrop m) (Runtime m)
     (Genre m) (CastJSON m) (TMDBRating m) (IMDBRating m) (DoubanRating m) v
     (ReleaseDate m) (CuratorNote m).
Definition set_ReleaseDate (v : GoTime.Time) (m : t) : t :=
  mk (ID m) (TMDBID m) (IMDBID m) (TitleCN m) (TitleEN m) (TitleJP m)
     (Director m) (Year m) (Synopsis m) (Poster m) (Backdrop m) (Runtime m)
     (Genre m) (CastJSON m) (TMDBRating m) (IMDBRating m) (DoubanRating m)
     (Status m) v (CuratorNote m).
Definition set_CuratorNote (v : string) (m : t) : t :=
  mk (ID m) (TMDBID m) (IMDBID m) (TitleCN m) (TitleEN m) (TitleJP m)
     (Director m) (Year m) (Synopsis m) (Poster m) (Backdrop m) (Runtime m)
     (Genre m) (CastJSON m) (TMDBRating m) (IMDBRating m) (DoubanRating m)
     (Status m) (ReleaseDate m) v.
End Movie.

Module Schedule.
Record t := mk {
  ID : Z;
  MovieID : Z;
  CinemaID : Z;
  PlayDate : GoTime.Time;
  StartTime : string
}.
End Schedule.

#[global] Instance Time_eq_dec : EqDecision GoTime.Time.
Proof. solve_decision. Defined.

(** ** The store

    One list per table, rows in primary-key order (the order of insertion:
    a new row gets a key above every key of its table, and no row is ever
    deleted).  [First] returns the first matching row of that order. *)

Record DB := mkDB {
  cinemas : list Cinema.t;
  movies : list Movie.t;
  schedules : list Schedule.t
}.

Module Store.

(** The key the next inserted row gets. *)
Definition next_id (ids : list Z) : Z := 1 + foldr Z.max 0 ids.

(** [db.Where("name_jp = ?", nameJP).First(&cinema)]; [None] is
    [gorm.ErrRecordNotFound]. *)
Definition first_cinema (nameJP : string) (db : DB) : option Cinema.t :=
  List.find (fun c => bool_decide (Cinema.NameJP c = nameJP)) (cinemas db).

(** [db.Where(&Movie{TitleJP: titleJP}).First(&movie)], for a non-empty
    [titleJP]. *)
Definition first_movie (titleJP : string) (db : DB) : option Movie.t :=
  List.find (fun m => bool_decide (Movie.TitleJP m = titleJP)) (movies db).

(** [db.Create(&movie)]: the row is appended, and the caller's struct
    receives its key. *)
Definition create_movie (movie : Movie.t) (db : DB) : Movie.t * DB :=
  let movie := Movie.set_ID (next_id (Movie.ID <$> movies db)) movie in
  (movie, mkDB (cinemas db) (movies db ++ [movie]) (schedules db)).

(** A row inserted under a key of its own takes its place in the order of
    the keys: before the first row with a greater key. *)
Fixpoint insert_by_key (m : Movie.t) (rows : list Movie.t) : list Movie.t :=
  match rows with
  | [] => [m]
  | r :: rest =>
      if Movie.ID m <? Movie.ID r then m :: r :: rest
      else r :: insert_by_key m rest
  end.

(** [db.Save(m)]: without a key it creates the row; with one it rewrites
    every column of the row of that key, and inserts when there is none. *)
Definition save_movie (m : Movie.t) (db : DB) : Movie.t * DB :=
  if Movie.ID m =? 0 then create_movie m db
  else if existsb (fun r => Movie.ID r =? Movie.ID m) (movies db) then
    (m, mkDB (cinemas db)
             ((fun r => if Movie.ID r =? Movie.ID m then m else r) <$> movies db)
             (schedules db))
  else (m, mkDB (cinemas db) (insert_by_key m (movies db)) (schedules db)).

(** [db.Model(&movie).Update("status", newStatus)]: one column of the row
    with the movie's key; without a key the ORM refuses the update. *)
Definition update_status (movie : Movie.t) (newStatus : string) (db : DB) : DB :=
  if Movie.ID movie =? 0 then db
  else mkDB (cinemas db)
            ((fun r => if Movie.ID r =? Movie.ID movie
                       then Movie.set_Status newStatus r else r) <$> movies db)
            (schedules db).

(** [db.Where("movie_id = ?", id).Find(&schedules)]. *)
Definition schedules_of (id : Z) (db : DB) : list Schedule.t :=
  List.filter (fun s => Schedule.MovieID s =? id) (schedules db).

Definition same_slot (a b : Schedule.t) : bool :=
  (Schedule.MovieID a =? Schedule.MovieID b)
  && (Schedule.CinemaID a =? Schedule.CinemaID b)
  && bool_decide (Schedule.PlayDate a = Schedule.PlayDate b)
  && bool_decide (Schedule.StartTime a = Schedule.StartTime b).

(** [db.Where("movie_id = ? AND cinema_id = ? AND play_date = ? AND
    start_time = ?", ...).FirstOrCreate(&sched)]. *)
Definition first_or_create_schedule (sched : Schedule.t) (db : DB) : DB :=
  if existsb (same_slot sched) (schedules db) then db
  else mkDB (cinemas db) (movies db)
            (schedules db ++
             [Schedule.mk (next_id (Schedule.ID <$> schedules db))
                (Schedule.MovieID sched) (Schedule.CinemaID sched)
                (Schedule.PlayDate sched) (Schedule.StartTime sched)]).

End Store.

(** ** Status derivation *)

Module Status.
Import GoTime.

(** *** The incremental form: lines 312 to 359 of [syncSchedulesFromEiga]

    [playDatesMap] is a set of formatted dates; [keys] is the order in
    which [range] happens to visit it.  A key was produced by [Format]
    from a parsed date, so parsing it back cannot fail, and gives
    midnight UTC of that day. *)
Definition scan_dates (todayStr : Z) (keys : list Z) : option Time * bool :=
  fold_left
    (fun '(earliestDate, hasPastOrToday) dateStr =>
       let parsedDate := midnight_utc dateStr in
       let hasPastOrToday :=
         if dateStr <=? todayStr then true else hasPastOrToday in
       let earliestDate :=
         match earliestDate with
         | None => Some parsedDate
         | Some e => if Before parsedDate e then Some parsedDate else Some e
         end in
       (earliestDate, hasPastOrToday))
    keys (None, false).

Definition incremental_status (today : Time) (keys : list Z) : string :=
  let todayStr := local_day today in
  let tomorrow := AddDays 1 today in
  let tomorrowStr := local_day tomorrow in
  let sevenDaysLater := AddDays 7 today in
  let '(earliestDate, hasPastOrToday) := scan_dates todayStr keys in
  match earliestDate with
  | Some earliest =>
      if negb hasPastOrToday then
        if tomorrowStr <=? local_day earliest then
          if Before earliest sevenDaysLater || Equal earliest sevenDaysLater
          then "incoming" else "showing"
        else "showing"
      else "showing"
  | None => "showing"
  end.

(** The whole block: nothing happens for an empty set; otherwise the
    status is written when it differs from the one in memory. *)
Definition derive_incremental (today : Time) (playDatesMap : gset Z)
    (movie : Movie.t) (db : DB) : Movie.t * DB :=
  if 0 <? Z.of_nat (size playDatesMap) then
    let newStatus := incremental_status today (elements playDatesMap) in
    if bool_decide (Movie.Status movie = newStatus) then (movie, db)
    else (Movie.set_Status newStatus movie,
          Store.update_status movie newStatus db)
  else (movie, db).

(** *** The full-batch form: [updateMovieStatusFromSchedules]

    The loop variable [sched] is a fresh variable in every iteration (Go
    1.22 and later), so [&sched.PlayDate] keeps the date of the row it was
    taken from. *)
Definition scan_schedules (todayStr : Z) (schedules : list Schedule.t)
    : option Time * option Time * bool :=
  fold_left
    (fun '(earliestDate, latestDate, hasPastOrToday) sched =>
       let dateStr := local_day (Schedule.PlayDate sched) in
       let hasPastOrToday :=
         if dateStr <=? todayStr then true else hasPastOrToday in
       let earliestDate :=
         match earliestDate with
         | None => Some (Schedule.PlayDate sched)
         | Some e => if Before (Schedule.PlayDate sched) e
                     then Some (Schedule.PlayDate sched) else Some e
         end in
       let latestDate :=
         match latestDate with
         | None => Some (Schedule.PlayDate sched)
         | Some l => if After (Schedule.PlayDate sched) l
                     then Some (Schedule.PlayDate sched) else Some l
         end in
       (earliestDate, latestDate, hasPastOrToday))
    schedules (None, None, false).

(** The status one iteration of the loop over [movies] arrives at. *)
Definition batch_status (today : Time) (schedules : list Schedule.t) : string :=
  let todayStr := local_day today in
  if Z.of_nat (length schedules) =? 0 then "unplanned" else
  let '(earliestDate, latestDate, hasPastOrToday) :=
    scan_schedules todayStr schedules in
  if match latestDate with
     | Some latest => local_day latest <? todayStr
     | None => false
     end
  then "unplanned" else
  match earliestDate with
  | Some earliestDate =>
      if negb hasPastOrToday then
        let tomorrow := AddDays 1 today in
        let sevenDaysLater := AddDays 7 today in
        let earliest := Truncate24h earliestDate in
        if Before earliest tomorrow then "incoming"
        else if (Equal earliest tomorrow || After earliest tomorrow)
                && (Before earliest sevenDaysLater || Equal earliest sevenDaysLater)
        then "incoming"
        else if After earliest sevenDaysLater then "future"
        else "showing"
      else "showing"
  | None => "showing"
  end.

(** [updateMovieStatusFromSchedules], with [today] the value of
    [time.Now()].  [movies] is read once; each movie is compared with the
    status it had then. *)
Definition updateMovieStatusFromSchedules (today : Time) (db : DB) : DB :=
  fold_left
    (fun db movie =>
       let schedules := Store.schedules_of (Movie.ID movie) db in
       let newStatus := batch_status today schedules in
       if bool_decide (Movie.Status movie = newStatus) then db
       else Store.update_status movie newStatus db)
    (movies db) db.

End Status.

(** ** Text of the scraped pages *)

Module Scrape.
Import GoStrings.

(** [strings.IndexAny(s, chars)] for the runes listed in [runes], each
    given by its UTF-8 bytes.  Go walks [s] rune by rune; a byte outside
    0x80..0xBF always starts a rune, so for runes that begin with such a
    byte (as U+FF5E, U+FF08, U+FF09 and the space do) this is the first
    byte offset at which one of them occurs. *)
Fixpoint IndexAny (s : string) (runes : list string) : option nat :=
  match s with
  | EmptyString => None
  | String _ s' =>
      if existsb (HasPrefix s) runes then Some O
      else S <$> IndexAny s' runes
  end.

(** The start time of one [span] of a schedule cell, lines 278 to 288;
    [None] when the closure returns without writing a row. *)
Definition span_start_time (spText : string) : option string :=
  let text := TrimSpace spText in
  if bool_decide (text = "") then None else
  let text :=
    match IndexAny text ["～"; " "] with
    | Some idx => take idx text
    | None => text
    end in
  if (len text <? 4) || negb (Contains text ":") then None
  else Some text.

Definition line_feed : ascii := byte 10.

(** After a ["（"]: the number of bytes up to and including the nearest
    ["）"], when no line feed comes before it ([.] does not match one). *)
Fixpoint group_end (s : string) : option nat :=
  match s with
  | EmptyString => None
  | String c s' =>
      if HasPrefix s "）" then Some 3%nat
      else if Ascii.eqb c line_feed then None
      else S <$> group_end s'
  end.

(** [regexp.MustCompile(`（.*?）`).ReplaceAllString(s, "")]: every
    leftmost, shortest match is dropped; [skip] counts the bytes of the
    current match that are still to drop. *)
Fixpoint remove_groups (skip : nat) (s : string) : string :=
  match s with
  | EmptyString => EmptyString
  | String c s' =>
      match skip with
      | S k => remove_groups k s'
      | O =>
          if HasPrefix s "（" then
            match group_end (drop 3 s) with
            | Some n => remove_groups (2 + n) s'
            | None => String c (remove_groups 0 s')
            end
          else String c (remove_groups 0 s')
      end
  end.

(** [nameJP] of a detail page, lines 134 to 138 and 209 to 213; [None]
    when the handler returns at once for an empty title. *)
Definition nameJP (rawName : string) : option string :=
  if bool_decide (rawName = "") then None
  else Some (remove_groups 0 rawName).

End Scrape.

(** What one detail page holds, as the selectors of the scraper see it. *)
Module Page.
(** [td[data-date]]: its attribute and the text of its [span]s. *)
Record Cell := mkCell { data_date : string; spans : list string }.
(** [section[id^=m]]: the text of [h2 a] and the cells of the week. *)
Record MovieSection := mkSection { title : string; cells : list Cell }.
(** [main]: the text of [h1.page-title] and the movie sections. *)
Record t := mk { page_title : string; sections : list MovieSection }.
End Page.

(** ** The outside world *)

Module Tmdb.
Record CastMember := mkCast { cast_Name : string; Character : string; ProfilePath : string }.
Record CrewMember := mkCrew { crew_Name : string; Job : string }.
(** The decoded body of the detail request ([data]). *)
Record Detail := mkDetail {
  ImdbID : string;
  Title : string;
  Overview : string;
  PosterPath : string;
  BackdropPath : string;
  ReleaseDate : string;
  Runtime : Z;
  VoteAverage : float;
  Genres : list string;
  Cast : list CastMember;
  Crew : list CrewMember
}.
(** [castOut]. *)
Record castOut := mkOut { Name : string; Role : string; Img : string }.
End Tmdb.

Record World := mkWorld {
  (** [time.Now()] *)
  now : GoTime.Time;
  (** the key [searchTmdbID] gets for a title, 0 for every failure *)
  tmdb_search : string -> Z;
  (** the decoded detail of a key in a language, [None] when the request or
      the decoding fails *)
  tmdb_detail : Z -> string -> option Tmdb.Detail;
  (** the rating OMDb yields for an IMDb id, 0 for every failure *)
  omdb_rating : string -> float;
  (** the rating the Douban search yields for a title and a year *)
  douban_rating : string -> string -> float
}.

Inductive Event :=
| TmdbSearch (title : string)
| TmdbDetail (tmdbID : Z) (lang : string)
| OmdbLookup (imdbID : string)
| DoubanSearch (title year : string)
| StoreSave (m : Movie.t).

Definition ENABLE_DOUBAN_RATING : bool := false.

(** ** Enrichment and ingestion *)

Section Pipeline.
Import GoStrings GoTime.

(** [json.Marshal] of a slice of [castOut]; for a value of this type it
    returns no error. *)
Variable json_Marshal : list Tmdb.castOut -> string.

Definition searchTmdbID (w : World) (title : string) : Z := tmdb_search w title.

Definition fetchImdbRating (w : World) (imdbID : string) : float :=
  if bool_decide (imdbID = "") then 0%float else omdb_rating w imdbID.

Definition fetchDoubanRating (w : World) (title year : string) : float :=
  douban_rating w title year.

(** *** One language of the loop, field by field (lines 504 to 598) *)

Definition fill_rating (data : Tmdb.Detail) (m : Movie.t) : Movie.t :=
  if (0 <? Tmdb.VoteAverage data)%float && (Movie.TMDBRating m =? 0)%float
  then Movie.set_TMDBRating (Tmdb.VoteAverage data) m else m.

Definition fill_synopsis (data : Tmdb.Detail) (m : Movie.t) : Movie.t :=
  if bool_decide (Movie.Synopsis m = "")
     && negb (bool_decide (TrimSpace (Tmdb.Overview data) = ""))
  then Movie.set_Synopsis (Tmdb.Overview data) m else m.

Definition fill_poster (data : Tmdb.Detail) (m : Movie.t) : Movie.t :=
  if negb (bool_decide (Tmdb.PosterPath data = ""))
     && bool_decide (Movie.Poster m = "")
  then Movie.set_Poster ("https://image.tmdb.org/t/p/w500" ++ Tmdb.PosterPath data) m
  else m.

Definition fill_backdrop (data : Tmdb.Detail) (m : Movie.t) : Movie.t :=
  if negb (bool_decide (Tmdb.BackdropPath data = ""))
     && bool_decide (Movie.Backdrop m = "")
  then Movie.set_Backdrop
         ("https://image.tmdb.org/t/p/original" ++ Tmdb.BackdropPath data) m
  else m.

Definition fill_year (data : Tmdb.Detail) (m : Movie.t) : Movie.t :=
  if bool_decide (Movie.Year m = "") && (4 <=? len (Tmdb.ReleaseDate data))
  then Movie.set_Year (take 4 (Tmdb.ReleaseDate data)) m else m.

Definition fill_release_date (data : Tmdb.Detail) (m : Movie.t) : Movie.t :=
  if IsZero (Movie.ReleaseDate m) then
    match Parse true (Tmdb.ReleaseDate data) with
    | Some t => Movie.set_ReleaseDate t m
    | None => m
    end
  else m.

Definition fill_release (data : Tmdb.Detail) (m : Movie.t) : Movie.t :=
  if negb (bool_decide (Tmdb.ReleaseDate data = ""))
  then fill_release_date data (fill_year data m) else m.

Definition fill_runtime (data : Tmdb.Detail) (m : Movie.t) : Movie.t :=
  if (0 <? Tmdb.Runtime data) && (Movie.Runtime m =? 0)
  then Movie.set_Runtime (Tmdb.Runtime data) m else m.

Definition fill_genre (data : Tmdb.Detail) (m : Movie.t) : Movie.t :=
  if (0 <? Z.of_nat (length (Tmdb.Genres data))) && bool_decide (Movie.Genre m = "")
  then
    let parts :=
      List.filter (fun name => negb (bool_decide (TrimSpace name = "")))
                  (Tmdb.Genres data) in
    Movie.set_Genre (Join parts ", ") m
  else m.

Definition fill_director (data : Tmdb.Detail) (m : Movie.t) : Movie.t :=
  if bool_decide (Movie.Director m = "") then
    match List.find (fun crew => bool_decide (Tmdb.Job crew = "Director"))
                    (Tmdb.Crew data) with
    | Some crew => Movie.set_Director (Tmdb.crew_Name crew) m
    | None => m
    end
  else m.

Definition cast_out (c : Tmdb.CastMember) : Tmdb.castOut :=
  Tmdb.mkOut (Tmdb.cast_Name c) (Tmdb.Character c)
    (if negb (bool_decide (Tmdb.ProfilePath c = ""))
     then "https://image.tmdb.org/t/p/w185" ++ Tmdb.ProfilePath c else "").

Definition fill_cast (lang : string) (data : Tmdb.Detail) (m : Movie.t) : Movie.t :=
  if (bool_decide (lang = "zh-CN") || bool_decide (lang = "en-US"))
     && bool_decide (Movie.CastJSON m = "")
     && (0 <? Z.of_nat (length (Tmdb.Cast data)))
  then
    let limit := Nat.min (length (Tmdb.Cast data)) 8 in
    Movie.set_CastJSON (json_Marshal (cast_out <$> firstn limit (Tmdb.Cast data))) m
  else m.

(** The [switch lang]: the title of the language, and the IMDb id the
    Chinese or the English answer carries. *)
Definition fill_title (lang : string) (data : Tmdb.Detail) (m : Movie.t) : Movie.t :=
  if bool_decide (lang = "zh-CN") then
    if negb (bool_decide (Tmdb.Title data = ""))
    then Movie.set_TitleCN (Tmdb.Title data) m else m
  else if bool_decide (lang = "ja-JP") then
    if negb (bool_decide (Tmdb.Title data = "")) && bool_decide (Movie.TitleJP m = "")
    then Movie.set_TitleJP (Tmdb.Title data) m else m
  else if bool_decide (lang = "en-US") then
    if negb (bool_decide (Tmdb.Title data = ""))
    then Movie.set_TitleEN (Tmdb.Title data) m else m
  else m.

Definition capture_imdb (lang : string) (data : Tmdb.Detail) (imdbID : string) : string :=
  if (bool_decide (lang = "zh-CN") || bool_decide (lang = "en-US"))
     && bool_decide (imdbID = "")
  then Tmdb.ImdbID data else imdbID.

Definition apply_detail (lang : string) (data : Tmdb.Detail) (m : Movie.t) : Movie.t :=
  fill_title lang data
    (fill_cast lang data
       (fill_director data
          (fill_genre data
             (fill_runtime data
                (fill_release data
                   (fill_backdrop data
                      (fill_poster data
                         (fill_synopsis data
                            (fill_rating data m))))))))).

Definition langs : list string := ["zh-CN"; "ja-JP"; "en-US"].

(** The body of [for _, lang := range langs]; a failed request or decoding
    is the [continue]. *)
Definition detail_step (w : World) (tmdbID : Z)
    (st : Movie.t * string) (lang : string) : Movie.t * string :=
  match tmdb_detail w tmdbID lang with
  | None => st
  | Some data => (apply_detail lang data (fst st), capture_imdb lang data (snd st))
  end.

(** Step 3: the IMDb id and rating. *)
Definition fill_imdb (w : World) (imdbID : string) (m : Movie.t) : Movie.t :=
  if negb (bool_decide (imdbID = "")) then
    Movie.set_IMDBRating (fetchImdbRating w imdbID) (Movie.set_IMDBID imdbID m)
  else m.

(** Step 4: January 1 of [Year] when there is still no release date. *)
Definition release_fallback (m : Movie.t) : Movie.t :=
  if IsZero (Movie.ReleaseDate m) && negb (bool_decide (Movie.Year m = "")) then
    match Parse true (Movie.Year m ++ "-01-01") with
    | Some t => Movie.set_ReleaseDate t m
    | None => m
    end
  else m.

(** Step 5: Douban, behind its switch. *)
Definition douban_wanted (m : Movie.t) : bool :=
  ENABLE_DOUBAN_RATING
  && negb (bool_decide (Movie.TitleEN m = ""))
  && negb (bool_decide (Movie.Year m = "")).

Definition fill_douban (w : World) (m : Movie.t) : Movie.t :=
  if douban_wanted m
  then Movie.set_DoubanRating (fetchDoubanRating w (Movie.TitleEN m) (Movie.Year m)) m
  else m.

(** The record is complete: nothing is asked again. *)
Definition complete (m : Movie.t) : bool :=
  negb (bool_decide (Movie.TitleCN m = ""))
  && negb (bool_decide (Movie.TitleEN m = ""))
  && (0 <? Movie.TMDBRating m)%float
  && negb (IsZero (Movie.ReleaseDate m)).

(** [enrichMovieRatings(m)]: the record as the caller sees it afterwards,
    the store, and what was asked of the outside world and of the store,
    in order. *)
Definition enrichMovieRatings (w : World) (m : Movie.t) (db : DB)
    : Movie.t * DB * list Event :=
  if complete m then (m, db, []) else
  let cleanTitle := TrimSpace (Movie.TitleJP m) in
  if bool_decide (cleanTitle = "") then (m, db, []) else
  let tmdbID := searchTmdbID w cleanTitle in
  if tmdbID =? 0 then (m, db, [TmdbSearch cleanTitle]) else
  let m := if Movie.TMDBID m =? 0 then Movie.set_TMDBID tmdbID m else m in
  let '(m, imdbID) := fold_left (detail_step w tmdbID) langs (m, "") in
  let m := fill_imdb w imdbID m in
  let m := release_fallback m in
  let asked_douban := douban_wanted m in
  let m := fill_douban w m in
  let '(saved, db) := Store.save_movie m db in
  (saved, db,
   ([TmdbSearch cleanTitle] ++ (TmdbDetail tmdbID <$> langs)
    ++ (if negb (bool_decide (imdbID = "")) then [OmdbLookup imdbID] else [])
    ++ (if asked_douban then [DoubanSearch (Movie.TitleEN m) (Movie.Year m)] else [])
    ++ [StoreSave m])%list).

(** *** [syncSchedulesFromEiga] *)

(** One [td[data-date]] of a section (lines 262 to 304). *)
Definition process_cell (movie : Movie.t) (cinema : Cinema.t)
    (st : gset Z * DB) (td : Page.Cell) : gset Z * DB :=
  let dateRaw := TrimSpace (Page.data_date td) in
  if negb (len dateRaw =? 8) then st else
  match Parse false dateRaw with
  | None => st
  | Some playDate =>
      let dateStr := local_day playDate in
      let playDatesMap := {[dateStr]} ∪ fst st in
      (playDatesMap,
       fold_left
         (fun db spText =>
            match Scrape.span_start_time spText with
            | None => db
            | Some text =>
                Store.first_or_create_schedule
                  (Schedule.mk 0 (Movie.ID movie) (Cinema.ID cinema) playDate text) db
            end)
         (Page.spans td) (snd st))
  end.

(** The movie of a section: the first row with the title, or a new one. *)
Definition ensure_movie (titleJP : string) (db : DB) : Movie.t * DB :=
  match Store.first_movie titleJP db with
  | Some movie => (movie, db)
  | None =>
      Store.create_movie
        (Movie.set_Status "showing" (Movie.set_TitleJP titleJP Movie.empty)) db
  end.

(** One [section[id^=m]] (lines 229 to 360). *)
Definition process_section (w : World) (cinema : Cinema.t)
    (sec : Page.MovieSection) (db : DB) : DB :=
  let titleJP := TrimSpace (Page.title sec) in
  if bool_decide (titleJP = "") then db else
  let '(movie, db) := ensure_movie titleJP db in
  let '(movie, db, _) := enrichMovieRatings w movie db in
  let '(playDatesMap, db) :=
    fold_left (process_cell movie cinema) (Page.cells sec) (∅, db) in
  snd (Status.derive_incremental (now w) playDatesMap movie db).

(** One detail page (lines 208 to 361).  The state is the store and the
    number of sections seen so far; section number [n] of the run meets
    the world [env n]. *)
Definition process_page (env : nat -> World) (st : nat * DB) (page : Page.t)
    : nat * DB :=
  match Scrape.nameJP (Page.page_title page) with
  | None => st
  | Some nameJP =>
      match Store.first_cinema nameJP (snd st) with
      | None => st
      | Some cinema =>
          fold_left
            (fun st sec => (S (fst st), process_section (env (fst st)) cinema sec (snd st)))
            (Page.sections page) st
      end
  end.

(** The run over the detail pages the listing links to. *)
Definition syncSchedulesFromEiga (env : nat -> World) (pages : list Page.t)
    (db : DB) : DB :=
  snd (fold_left (process_page env) pages (O, db)).

End Pipeline.

From Stdlib Require Uint63.
From stdpp Require pretty.

(** * The rest of the scraper and the API

    ** Addresses ([cleanAddressForGeo], [extractDistrict]) *)

Module Address.
Import GoStrings GoTime.

(** [strings.Index(s, substr)]: the first byte offset at which [substr]
    occurs; [None] is -1. *)
Fixpoint Index (s substr : string) : option nat :=
  if HasPrefix s substr then Some O
  else match s with
       | EmptyString => None
       | String _ s' => S <$> Index s' substr
       end.

(** *** The house-number pattern

    [(.*?\d+丁目\d+-\d+)|(.*?\d+-\d+-\d+)|(.*?\d+-\d+)], matched the way
    Go's [regexp] does: leftmost, and among the matches that start there
    the one a backtracking search finds first.

    The number of bytes of the longest run of ASCII digits [s] starts
    with.  Each [\d+] but the last is followed by a byte that is no digit,
    so it can only stand for the whole run; the last one is greedy. *)
Fixpoint digit_run (s : string) : nat :=
  match s with
  | String c s' => if isDigit c then S (digit_run s') else O
  | EmptyString => O
  end.

(** A piece of the pattern, matched at the head of [s]: the number of
    bytes it takes. *)
Definition piece := string -> option nat.

Definition some_digits : piece :=
  fun s => if Nat.eqb (digit_run s) 0 then None else Some (digit_run s).

Definition exactly (p : string) : piece :=
  fun s => if HasPrefix s p then Some (String.length p) else None.

Definition followed_by (a b : piece) : piece :=
  fun s => n ← a s; m ← b (drop n s); Some (n + m)%nat.

(** The three alternatives without their [.*?]. *)
Definition chome_number : piece :=
  followed_by some_digits
    (followed_by (exactly "丁目")
       (followed_by some_digits (followed_by (exactly "-") some_digits))).

Definition triple_number : piece :=
  followed_by some_digits
    (followed_by (exactly "-")
       (followed_by some_digits (followed_by (exactly "-") some_digits))).

Definition double_number : piece :=
  followed_by some_digits (followed_by (exactly "-") some_digits).

(** [.*?] and then [body]: the lazy star gives up one character at a time
    and never a line feed.  [body] starts with an ASCII digit, so it can
    match at the first byte of a character only, and walking byte by byte
    finds the same place. *)
Fixpoint lazily (body : piece) (s : string) : option nat :=
  match body s with
  | Some n => Some n
  | None =>
      match s with
      | EmptyString => None
      | String c s' =>
          if Ascii.eqb c Scrape.line_feed then None else S <$> lazily body s'
      end
  end.

(** The alternatives, in order, for a match that starts at the head. *)
Definition match_here (s : string) : option nat :=
  match lazily chome_number s with
  | Some n => Some n
  | None =>
      match lazily triple_number s with
      | Some n => Some n
      | None => lazily double_number s
      end
  end.

(** [re.FindString(addr)]; [None] is the empty string of no match.  A
    match that starts inside a line would start at the beginning of the
    line as well, so trying every byte offset in turn is the leftmost
    search. *)
Fixpoint FindString (s : string) : option string :=
  match match_here s with
  | Some n => Some (take n s)
  | None =>
      match s with
      | EmptyString => None
      | String _ s' => FindString s'
      end
  end.

(** [cleanAddressForGeo(addr)]. *)
Definition cleanAddressForGeo (addr : string) : string :=
  match FindString addr with
  | Some found => if negb (bool_decide (found = "")) then found else addr
  | None => addr
  end.

(** *** The district of an address *)

Definition prefecture_marks : list string := ["都"; "道"; "府"; "県"].

(** The loop [for i, r := range address] of [extractDistrict]: [i] is the
    byte offset of the character, [start] the value so far.  The four
    characters begin with a byte that begins a character wherever it
    stands, so looking at every byte offset sees the same occurrences. *)
Fixpoint last_prefecture (i : nat) (s : string) (start : nat) : nat :=
  match s with
  | EmptyString => start
  | String _ s' =>
      last_prefecture (S i) s'
        (if existsb (HasPrefix s) prefecture_marks
         then (i + String.length "都")%nat else start)
  end.

(** [extractDistrict(address)] of [api.go]. *)
Definition extractDistrict (address : string) : string :=
  if bool_decide (address = "") then "" else
  match Index address "区" with
  | None => ""
  | Some idx =>
      let start := last_prefecture 0 address 0 in
      let start := if (idx <=? start)%nat then O else start in
      TrimSpace (take (idx + String.length "区" - start) (drop start address))
  end.

End Address.

(** ** Cinemas ([syncCinemasBetter]) *)

Module Geo.
Import GoStrings.

(** What the geocoder and the clock give during one page: the answer of
    [callOSM] to the first and to the second request ([None] is a non-nil
    error), and [time.Now().UnixNano()]. *)
Record World := mkWorld {
  callOSM : nat -> string -> option (float * float);
  UnixNano : Z
}.

Inductive Event := OsmQuery (query : string).

(** [float64(n)] for an [int64] of small size. *)
Definition float64_of_int (n : Z) : float :=
  if n <? 0 then (- of_uint63 (Uint63.of_Z (- n)))%float
  else of_uint63 (Uint63.of_Z n).

(** [address[:strings.Index(address, "区")+3]], or the empty string. *)
Definition district_prefix (address : string) : string :=
  if Contains address "区" then
    match Address.Index address "区" with
    | Some idx => take (idx + 3) address
    | None => ""
    end
  else "".

(** [getCoordsFromOSMWithRetry(address, name)], and the requests made. *)
#[warnings="-inexact-float"] Definition getCoordsFromOSMWithRetry
    (w : World) (address name : string) : float * float * list Event :=
  match callOSM w 0 address with
  | Some (lat, lng) => (lat, lng, [OsmQuery address])
  | None =>
      let district := district_prefix address in
      let second := district ++ " " ++ name in
      match callOSM w 1 second with
      | Some (lat, lng) => (lat, lng, [OsmQuery address; OsmQuery second])
      | None =>
          let randomOffset :=
            (float64_of_int (Z.rem (UnixNano w) 1000) / 100000)%float in
          ((35.6895 + randomOffset)%float, (139.6917 + randomOffset)%float,
           [OsmQuery address; OsmQuery second])
      end
  end.

End Geo.

Module CinemaPage.
(** [main] of a detail page as the cinema crawl reads it: the text of
    [h1.page-title], the [src] of every [img] in document order, the
    [href] of the first [a.icon.official] (empty when there is none), what
    [e.Request.AbsoluteURL] makes of a link, and the text of
    [.location dd]. *)
Record t := mk {
  page_title : string;
  imgs : list string;
  official_href : string;
  AbsoluteURL : string -> string;
  location : string
}.
End CinemaPage.

Module CinemaSync.
Import GoStrings.

(** The loop over the images: the first [src] of a building photo. *)
Definition realImg (srcs : list string) : string :=
  fold_left
    (fun realImg src =>
       if Contains src "/theater/" && negb (Contains src "shared")
          && bool_decide (realImg = "")
       then src else realImg)
    srcs "".

Definition website (page : CinemaPage.t) : string :=
  let website := TrimSpace (CinemaPage.official_href page) in
  if negb (bool_decide (website = "")) && negb (HasPrefix website "http")
  then CinemaPage.AbsoluteURL page website else website.

(** A [float64] field holds the zero value for the ORM when it is equal to
    zero, as either zero is ([reflect.Value.IsZero] compares with [==]). *)
Definition is_zero_float (x : float) : bool := (x =? 0)%float.

(** [Updates] with the fields of [cinema] that [Assign(cinema)] keeps: the
    ORM leaves out those that hold the zero value of their type.  The key
    of [cinema] is zero at that point. *)
Definition assign (cinema row : Cinema.t) : Cinema.t :=
  Cinema.mk (Cinema.ID row)
    (if bool_decide (Cinema.NameJP cinema = "")
     then Cinema.NameJP row else Cinema.NameJP cinema)
    (if bool_decide (Cinema.Address cinema = "")
     then Cinema.Address row else Cinema.Address cinema)
    (if is_zero_float (Cinema.Latitude cinema)
     then Cinema.Latitude row else Cinema.Latitude cinema)
    (if is_zero_float (Cinema.Longitude cinema)
     then Cinema.Longitude row else Cinema.Longitude cinema)
    (if bool_decide (Cinema.BuildingPhoto cinema = "")
     then Cinema.BuildingPhoto row else Cinema.BuildingPhoto cinema)
    (if bool_decide (Cinema.Website cinema = "")
     then Cinema.Website row else Cinema.Website cinema).

(** The row [Where(Cinema{NameJP: nameJP})] and [First] find: a condition
    built from a struct leaves out a field with the zero value, so an
    empty name asks for the first row of the table. *)
Definition first_by_name (nameJP : string) (db : DB) : option Cinema.t :=
  if bool_decide (nameJP = "") then head (cinemas db)
  else Store.first_cinema nameJP db.

(** [db.Where(Cinema{NameJP: nameJP}).Assign(cinema).FirstOrCreate(&cinema)]:
    the row found is updated through its key (without a key the ORM
    refuses the update), and without a row [cinema] is inserted with a new
    key. *)
Definition first_or_create (cinema : Cinema.t) (db : DB) : DB :=
  match first_by_name (Cinema.NameJP cinema) db with
  | Some found =>
      if Cinema.ID found =? 0 then db else
      mkDB ((fun row => if Cinema.ID row =? Cinema.ID found
                        then assign cinema row else row) <$> cinemas db)
           (movies db) (schedules db)
  | None =>
      mkDB (cinemas db ++
            [Cinema.mk (Store.next_id (Cinema.ID <$> cinemas db))
               (Cinema.NameJP cinema) (Cinema.Address cinema)
               (Cinema.Latitude cinema) (Cinema.Longitude cinema)
               (Cinema.BuildingPhoto cinema) (Cinema.Website cinema)])
           (movies db) (schedules db)
  end.

(** The handler of [main] (lines 133 to 181): the store, and the requests
    to the geocoder. *)
Definition process_page (w : Geo.World) (page : CinemaPage.t) (db : DB)
    : DB * list Geo.Event :=
  match Scrape.nameJP (CinemaPage.page_title page) with
  | None => (db, [])
  | Some nameJP =>
      let realImg := realImg (CinemaPage.imgs page) in
      let website := website page in
      let address := TrimSpace (CinemaPage.location page) in
      let cleanAddr := Address.cleanAddressForGeo address in
      let '(lat, lng, ev) := Geo.getCoordsFromOSMWithRetry w cleanAddr nameJP in
      (first_or_create (Cinema.mk 0 nameJP address lat lng realImg website) db, ev)
  end.

(** [syncCinemasBetter]: the detail pages the listing links to, in the
    order they are visited; page number [n] meets the world [env n]. *)
Definition syncCinemasBetter (env : nat -> Geo.World) (pages : list CinemaPage.t)
    (db : DB) : DB :=
  snd (fold_left
         (fun st page => (S (fst st), fst (process_page (env (fst st)) page (snd st))))
         pages (O, db)).

End CinemaSync.

(** ** Douban ratings ([fetchDoubanRating], [backfillDoubanRatings]) *)

Module Douban.
Import GoStrings.

(** One [.result] of the search page: the text of [.title a], of
    [.subject-cast] and of [.rating_nums]. *)
Record Result := mkResult { resTitle : string; resMeta : string; rStr : string }.

Section Fetch.
(** The value of [strconv.ParseFloat(s, 64)]; the error is dropped. *)
Variable ParseFloat : string -> float.

(** The handler of [.result], on the rating found so far. *)
Definition on_result (title year : string) (rating : float) (e : Result) : float :=
  if negb (rating =? 0)%float then rating
  else if Contains (resMeta e) year || Contains (resTitle e) title
       then ParseFloat (rStr e) else rating.

(** [fetchDoubanRating(title, year)] on the results of the search page in
    document order; [None] is a failed [Visit]. *)
Definition fetchDoubanRating (page : option (list Result)) (title year : string)
    : float :=
  match page with
  | None => 0%float
  | Some results => fold_left (on_result title year) results 0%float
  end.

(** The rows [douban_rating = 0 AND title_en <> '' AND year <> ''] selects. *)
Definition wanted (m : Movie.t) : bool :=
  (Movie.DoubanRating m =? 0)%float
  && negb (bool_decide (Movie.TitleEN m = ""))
  && negb (bool_decide (Movie.Year m = "")).

(** [backfillDoubanRatings]; request number [n] gets the page [search n]
    for its title. *)
Definition backfillDoubanRatings (search : nat -> string -> option (list Result))
    (db : DB) : DB :=
  let movies := List.filter wanted (movies db) in
  if Z.of_nat (length movies) =? 0 then db else
  snd (fold_left
         (fun st m =>
            let score :=
              fetchDoubanRating (search (fst st) (Movie.TitleEN m))
                (Movie.TitleEN m) (Movie.Year m) in
            if (score <=? 0)%float then (S (fst st), snd st)
            else (S (fst st),
                  snd (Store.save_movie (Movie.set_DoubanRating score m) (snd st))))
         movies (O, db)).

End Fetch.
End Douban.

(** ** Seed rows ([models.go]) *)

Module Seed.
Import GoTime.

(** [db.Create(&rows)] for a slice: the rows are inserted one after the
    other. *)
Definition create_movies (rows : list Movie.t) (db : DB) : DB :=
  fold_left (fun db row => snd (Store.create_movie row db)) rows db.

Definition create_schedule (row : Schedule.t) (db : DB) : DB :=
  mkDB (cinemas db) (movies db)
       (schedules db ++
        [Schedule.mk (Store.next_id (Schedule.ID <$> schedules db))
           (Schedule.MovieID row) (Schedule.CinemaID row)
           (Schedule.PlayDate row) (Schedule.StartTime row)]).

Definition create_schedules (rows : list Schedule.t) (db : DB) : DB :=
  fold_left (fun db row => create_schedule row db) rows db.

(** [t, _ := time.Parse("2006-01-02", value)]: the zero time on an error. *)
Definition parse_or_zero (value : string) : Time :=
  default zero (Parse true value).

#[warnings="-inexact-float"] Definition seed_movies : list Movie.t :=
  let nowShowingDate := parse_or_zero "2026-01-21" in
  let incomingDate := parse_or_zero "2026-01-24" in
  [ Movie.mk 0 0 "" "狩猎" "THE HUNT" "" "Thomas Vinterberg" "2012"
      "一个关于谎言如何像病毒一样扩散，撕裂一个小镇的温情表象。"
      "" "" 0 "" "" 8.1%float 8.3%float 9.1%float "showing" nowShowingDate
      "本周聚焦独立影院中的人本主义，讲述那些被主流忽视的声音。";
    Movie.mk 0 0 "" "蜘蛛侠：纵横宇宙" "ACROSS THE SPIDER-VERSE" "" "Kemp Powers" "2023"
      "迈尔斯回归，一场跨越多元宇宙的奇幻冒险即将开启。"
      "" "" 0 "" "" 8.4%float 8.6%float 8.5%float "incoming" incomingDate
      "多元宇宙中的超级英雄成长记录。" ].

(** [seedInitialMovies]. *)
Definition seedInitialMovies (db : DB) : DB :=
  let count := Z.of_nat (length (movies db)) in
  if 0 <? count then db else create_movies seed_movies db.

(** [seedInitialSchedules]; [Limit(2).Find] gives the first two rows of
    the table. *)
Definition seedInitialSchedules (db : DB) : DB :=
  let cinemaCount := Z.of_nat (length (cinemas db)) in
  let movieCount := Z.of_nat (length (movies db)) in
  if (cinemaCount =? 0) || (movieCount =? 0) then db else
  let existing := Z.of_nat (length (schedules db)) in
  if 0 <? existing then db else
  let cinemas := firstn 2 (cinemas db) in
  let movies := movies db in
  match cinemas, movies with
  | cinema0 :: cinemas', movie0 :: movies' =>
      let today := parse_or_zero "2026-01-23" in
      let schedules :=
        [ Schedule.mk 0 (Movie.ID movie0) (Cinema.ID cinema0) today "10:40";
          Schedule.mk 0 (Movie.ID movie0) (Cinema.ID cinema0) today "15:40";
          Schedule.mk 0 (Movie.ID movie0) (Cinema.ID cinema0) today "18:20" ] in
      let schedules :=
        match movies', cinemas' with
        | movie1 :: _, cinema1 :: _ =>
            (schedules ++
             [ Schedule.mk 0 (Movie.ID movie1) (Cinema.ID cinema1) today "14:00";
               Schedule.mk 0 (Movie.ID movie1) (Cinema.ID cinema1) today "19:00" ])%list
        | _, _ => schedules
        end in
      create_schedules schedules db
  | _, _ => db
  end.

(** The start of [main]: both seeds, in this order. *)
Definition seed (db : DB) : DB := seedInitialSchedules (seedInitialMovies db).

End Seed.

(** ** The views of the API ([api.go]) *)

Module Api.
Import GoStrings GoTime.

Record CinemaItem := mkCinemaItem {
  ci_ID : Z;
  ci_Name : string;
  ci_NameEN : string;
  ci_District : string;
  ci_Lat : float;
  ci_Lng : float;
  ci_Tags : list string;
  ci_Website : string;
  ci_Desc : string;
  ci_BuildingPhoto : string
}.

Record DailyMovie := mkDailyMovie {
  dm_ID : Z;
  dm_Title : string;
  dm_Times : list string;
  dm_Rating : string
}.

Record MovieItem := mkMovieItem {
  mi_ID : Z;
  mi_TitleCN : string;
  mi_TitleEN : string;
  mi_Director : string;
  mi_Year : string;
  mi_TMDBRating : float;
  mi_IMDBRating : float;
  mi_DoubanRating : float;
  mi_Status : string;
  mi_ReleaseDate : string;
  mi_EarliestScheduleDate : string;
  mi_CinemaCount : Z;
  mi_PrimaryCinemaName : string;
  mi_Genre : string;
  mi_Runtime : Z;
  mi_Poster : string;
  mi_CuratorNote : string
}.

(** [mapCinemaToItem(cn)]. *)
Definition mapCinemaToItem (cn : Cinema.t) : CinemaItem :=
  mkCinemaItem (Cinema.ID cn) (Cinema.NameJP cn) ""
    (Address.extractDistrict (Cinema.Address cn))
    (Cinema.Latitude cn) (Cinema.Longitude cn) []
    (Cinema.Website cn) "" (Cinema.BuildingPhoto cn).

Section Views.
(** [t.Format("2006-01-02")], SQLite's [date(play_date)] of a stored
    time, and [fmt.Sprintf("%.1f", rating)]. *)
Variable Format : Time -> string.
Variable sql_date : Time -> string.
Variable format_rating : float -> string.

(** [mapMovieToItem(m)]. *)
Definition mapMovieToItem (m : Movie.t) : MovieItem :=
  let releaseDateStr :=
    if negb (IsZero (Movie.ReleaseDate m)) then Format (Movie.ReleaseDate m) else "" in
  let titleCN :=
    if bool_decide (Movie.TitleCN m = "") then
      if negb (bool_decide (Movie.TitleEN m = "")) then Movie.TitleEN m
      else Movie.TitleJP m
    else Movie.TitleCN m in
  let titleEN :=
    if bool_decide (Movie.TitleEN m = "") && negb (bool_decide (Movie.TitleJP m = ""))
    then Movie.TitleJP m else Movie.TitleEN m in
  mkMovieItem (Movie.ID m) titleCN titleEN (Movie.Director m) (Movie.Year m)
    (Movie.TMDBRating m) (Movie.IMDBRating m) (Movie.DoubanRating m)
    (Movie.Status m) releaseDateStr "" 0 "" (Movie.Genre m) (Movie.Runtime m)
    (Movie.Poster m) (Movie.CuratorNote m).

(** The title of a daily entry: CN, EN, JP, and then ["Movie #ID"]. *)
Definition daily_title (mv : Movie.t) : string :=
  let title := TrimSpace (Movie.TitleCN mv) in
  let title := if bool_decide (title = "") then TrimSpace (Movie.TitleEN mv) else title in
  let title := if bool_decide (title = "") then TrimSpace (Movie.TitleJP mv) else title in
  if bool_decide (title = "") then "Movie #" ++ pretty.pretty (Z.to_N (Movie.ID mv)) else title.

(** The rating of a daily entry: Douban, IMDb, and then TMDB. *)
Definition daily_rating (mv : Movie.t) : float :=
  let rating := Movie.DoubanRating mv in
  let rating := if (rating =? 0)%float then Movie.IMDBRating mv else rating in
  if (rating =? 0)%float then Movie.TMDBRating mv else rating.

(** The body of the loop over the schedules. *)
Definition add_time (movieMap : gmap Z Movie.t) (dailyMap : gmap Z DailyMovie)
    (s : Schedule.t) : gmap Z DailyMovie :=
  match movieMap !! Schedule.MovieID s with
  | None => dailyMap
  | Some mv =>
      let dailyMap :=
        match dailyMap !! Movie.ID mv with
        | Some _ => dailyMap
        | None =>
            <[Movie.ID mv :=
                mkDailyMovie (Movie.ID mv) (daily_title mv) []
                  (format_rating (daily_rating mv))]> dailyMap
        end in
      match dailyMap !! Movie.ID mv with
      | Some dm =>
          <[Movie.ID mv :=
              mkDailyMovie (dm_ID dm) (dm_Title dm)
                (dm_Times dm ++ [Schedule.StartTime s]) (dm_Rating dm)]> dailyMap
      | None => dailyMap
      end
  end.

(** [buildDailyMoviesForCinema(cinemaID, dateStr)].  The result lists the
    values of a Go map, in an order the language leaves open; here it is
    the order of the keys. *)
Definition buildDailyMoviesForCinema (cinemaID : Z) (dateStr : string) (db : DB)
    : list DailyMovie :=
  let schedules :=
    List.filter
      (fun s => (Schedule.CinemaID s =? cinemaID)
                && bool_decide (sql_date (Schedule.PlayDate s) = dateStr))
      (schedules db) in
  if Z.of_nat (length schedules) =? 0 then [] else
  let movieIDs : gset Z := list_to_set (Schedule.MovieID <$> schedules) in
  if Z.of_nat (size movieIDs) =? 0 then [] else
  let movies := List.filter (fun m => bool_decide (Movie.ID m ∈ movieIDs)) (movies db) in
  let movieMap : gmap Z Movie.t :=
    fold_left (fun movieMap m => <[Movie.ID m := m]> movieMap) movies ∅ in
  let dailyMap := fold_left (add_time movieMap) schedules ∅ in
  snd <$> map_to_list dailyMap.

End Views.
End Api.

(** ** The commands ([main]) *)

Module Main.

(** What a run meets outside the program: the pages of the site, the
    answers of the services and the clock. *)
Record Outside := mkOutside {
  json_Marshal : list Tmdb.castOut -> string;
  ParseFloat : string -> float;
  cinema_pages : list CinemaPage.t;
  geocoder : nat -> Geo.World;
  schedule_pages : list Page.t;
  worlds : nat -> World;
  douban_search : nat -> string -> option (list Douban.Result);
  clock : GoTime.Time
}.

(** [main] on [os.Args]: the seeds, then the command named by the first
    argument.  Without one, and for any other word, the API server starts;
    its handlers only read. *)
Definition main (args : list string) (o : Outside) (db : DB) : DB :=
  let db := Seed.seed db in
  match args with
  | _ :: command :: _ =>
      if bool_decide (command = "crawl-cinemas") then
        CinemaSync.syncCinemasBetter (geocoder o) (cinema_pages o) db
      else if bool_decide (command = "crawl-schedules") then
        syncSchedulesFromEiga (json_Marshal o) (worlds o) (schedule_pages o) db
      else if bool_decide (command = "fill-douban") then
        Douban.backfillDoubanRatings (ParseFloat o) (douban_search o) db
      else if bool_decide (command = "update-status") then
        Status.updateMovieStatusFromSchedules (clock o) db
      else db
  | _ => db
  end.

End Main.

(** ** Vocabulary of the statements and data of the examples *)

Section Vocabulary.
Import GoStrings GoTime Scrape.

(** *** Status derivation *)

(** The smallest of [e] and the elements of [keys]. *)
Definition least (e : Z) (keys : list Z) : Z := fold_left Z.min keys e.

Definition greatest (e : Z) (keys : list Z) : Z := fold_left Z.max keys e.

(** The calendar date of a row. *)
Definition play_day (s : Schedule.t) : Z := local_day (Schedule.PlayDate s).

(** The row holds midnight UTC of its date, as [time.Parse] of the
    ingestion produces it. *)
Definition parsed_row (s : Schedule.t) : Prop :=
  Schedule.PlayDate s = midnight_utc (play_day s).

(** The rules of the specification for the full-batch form, on a reference
    date [T] and the dates [S]. *)
Definition spec_deriveStatus (T : Z) (S : list Z) : string :=
  match S with
  | [] => "unplanned"
  | d :: rest =>
      if greatest d rest <? T then "unplanned"
      else if existsb (fun k => k <=? T) S then "showing"
      else if least d rest <=? T + 7 then "incoming"
      else "future"
  end.

(** *** Enrichment *)

(** What every step of the language loop leaves alone, relative to the
    record [m0] the loop started from. *)
Definition loop_inv (m0 m : Movie.t) : Prop :=
  Movie.ID m = Movie.ID m0
  /\ Movie.Status m = Movie.Status m0
  /\ Movie.CuratorNote m = Movie.CuratorNote m0
  /\ Movie.DoubanRating m = Movie.DoubanRating m0
  /\ Movie.IMDBID m = Movie.IMDBID m0
  /\ Movie.IMDBRating m = Movie.IMDBRating m0
  /\ Movie.TMDBID m = Movie.TMDBID m0
  /\ (Movie.TitleJP m0 <> "" -> Movie.TitleJP m = Movie.TitleJP m0)
  /\ ((Movie.TMDBRating m0 =? 0)%float = false ->
      Movie.TMDBRating m = Movie.TMDBRating m0).

(** Calls one after the other on the same record, each with the answers
    the world gives at its time. *)
Definition enrich_all (json_Marshal : list Tmdb.castOut -> string)
    (ws : list World) (m : Movie.t) (db : DB) : Movie.t * DB :=
  fold_left
    (fun st w =>
       let '(m', db', _) := enrichMovieRatings json_Marshal w (fst st) (snd st) in
       (m', db'))
    ws (m, db).

(** The call goes as far as the detail requests: the record is not
    complete, its title is not blank and the search finds the film. *)
Definition reaches_details (w : World) (m : Movie.t) : bool :=
  negb (complete m)
  && negb (bool_decide (GoStrings.TrimSpace (Movie.TitleJP m) = ""))
  && negb (searchTmdbID w (GoStrings.TrimSpace (Movie.TitleJP m)) =? 0).

(** The IMDb id the answer of one language offers to the loop: the Chinese
    and the English answers are read for it, the Japanese one is not. *)
Definition offered_imdb (w : World) (tmdbID : Z) (lang : string) : option string :=
  if bool_decide (lang = "zh-CN") || bool_decide (lang = "en-US") then
    match tmdb_detail w tmdbID lang with
    | Some data =>
        if bool_decide (Tmdb.ImdbID data = "") then None else Some (Tmdb.ImdbID data)
    | None => None
    end
  else None.

(** The IMDb id a call captures for the film found under the title of [m]:
    the first one offered in the order of the languages, the empty string
    when none is. *)
Definition captured_imdb (w : World) (m : Movie.t) : string :=
  default ""
    (head (omap (offered_imdb w (searchTmdbID w (GoStrings.TrimSpace (Movie.TitleJP m))))
                langs)).

(** The last three steps, after the language loop. *)
Definition finish (w : World) (imdbID : string) (m : Movie.t) : Movie.t :=
  fill_douban w (release_fallback (fill_imdb w imdbID m)).

(** The three ways a call ends, with what is known of the record: untouched, film not found, or written to
    the store.  The empty list among the events of the last case is the
    place of the Douban query, which is switched off. *)
Inductive enrich_outcome (w : World) (m : Movie.t) (db : DB)
    : Movie.t * DB * list Event -> Prop :=
| outcome_untouched :
    complete m = true \/ TrimSpace (Movie.TitleJP m) = "" ->
    enrich_outcome w m db (m, db, [])
| outcome_not_found :
    complete m = false -> Movie.TitleJP m <> "" ->
    enrich_outcome w m db (m, db, [TmdbSearch (TrimSpace (Movie.TitleJP m))])
| outcome_saved tmdbID m1 imdbID :
    complete m = false -> Movie.TitleJP m <> "" -> tmdbID <> 0 ->
    loop_inv (if Movie.TMDBID m =? 0 then Movie.set_TMDBID tmdbID m else m) m1 ->
    enrich_outcome w m db
      (Store.save_movie (finish w imdbID m1) db,
       ([TmdbSearch (TrimSpace (Movie.TitleJP m))] ++ (TmdbDetail tmdbID <$> langs)
        ++ (if negb (bool_decide (imdbID = "")) then [OmdbLookup imdbID] else [])
        ++ [] ++ [StoreSave (finish w imdbID m1)])%list).

(** The call wrote the record to the store. *)
Definition persisted (ev : list Event) : bool :=
  existsb (fun e => match e with StoreSave _ => true | _ => false end) ev.

(** The call asked OMDb for a rating. *)
Definition asked_omdb (ev : list Event) : bool :=
  existsb (fun e => match e with OmdbLookup _ => true | _ => false end) ev.

Inductive RatingField := Rating_TMDB | Rating_IMDB | Rating_Douban.

Definition rating (f : RatingField) (m : Movie.t) : float :=
  match f with
  | Rating_TMDB => Movie.TMDBRating m
  | Rating_IMDB => Movie.IMDBRating m
  | Rating_Douban => Movie.DoubanRating m
  end.

Inductive ExternalID := External_TMDB | External_IMDB.

Definition id_is_set (f : ExternalID) (m : Movie.t) : Prop :=
  match f with
  | External_TMDB => Movie.TMDBID m <> 0
  | External_IMDB => Movie.IMDBID m <> ""
  end.

(** The TMDB key keeps its value; the IMDb id stays set. *)
Definition id_survives (f : ExternalID) (m m' : Movie.t) : Prop :=
  match f with
  | External_TMDB => Movie.TMDBID m' = Movie.TMDBID m
  | External_IMDB => Movie.IMDBID m' <> ""
  end.

(** *** The release date *)

(** The year a string of exactly four decimal digits denotes. *)
Definition four_digit_year (s : string) : option Z :=
  match digits 4 0 s with
  | Some (year, EmptyString) => Some year
  | _ => None
  end.

(** The record as it reaches step 4, in a call that goes as far as the
    detail requests: after the language loop and the IMDb step. *)
Definition before_fallback (json_Marshal : list Tmdb.castOut -> string)
    (w : World) (m : Movie.t) : Movie.t :=
  let tmdbID := searchTmdbID w (TrimSpace (Movie.TitleJP m)) in
  let st := fold_left (detail_step json_Marshal w tmdbID) langs
              (if Movie.TMDBID m =? 0 then Movie.set_TMDBID tmdbID m else m, "") in
  fill_imdb w (snd st) (fst st).

(** No answer to the detail requests of the film of [m] carries a release
    date that parses. *)
Definition dateless (w : World) (m : Movie.t) : Prop :=
  forall lang data,
    tmdb_detail w (searchTmdbID w (TrimSpace (Movie.TitleJP m))) lang = Some data ->
    Parse true (Tmdb.ReleaseDate data) = None.

(** *** Scraped text *)

(** The separators of a time span: the fullwidth tilde and the space. *)
Definition separators : list string := ["～"; " "].

(** [start] is the text before the first separator of [text]: no separator
    lies in it, and what follows it is nothing or begins with one. *)
Definition before_first_separator (text start : string) : Prop :=
  exists rest,
    text = start ++ rest
    /\ (forall sep, sep ∈ separators -> Contains start sep = false)
    /\ (rest = "" \/ exists sep, sep ∈ separators /\ HasPrefix rest sep = true).

(** The normalization as the specification words it, stripping a trailing
    annotation: a name that ends in a closing parenthesis loses its last
    parenthesized part, any other name is kept. *)
Definition strip_trailing_annotation (raw : string) : string :=
  let r := rev_string raw in
  if HasPrefix r (rev_string "）") then
    match IndexAny r [rev_string "（"] with
    | Some i => rev_string (drop (i + 3) r)
    | None => raw
    end
  else raw.

(** The characters of a UTF-8 text: its bytes other than the continuation
    bytes 0x80 to 0xBF. *)
Fixpoint characters (s : string) : Z :=
  match s with
  | EmptyString => 0
  | String c s' =>
      (if (128 <=? code c) && (code c <? 192) then 0 else 1) + characters s'
  end.

(** The time-slot rule as the specification words it: the cell text is cut
    before its first fullwidth tilde or space, and the cut is kept when it
    has at least 4 characters and contains a colon. *)
Definition spec_span_start_time (spText : string) : option string :=
  let start := match IndexAny spText separators with
               | Some idx => take idx spText
               | None => spText
               end in
  if (4 <=? characters start) && Contains start ":" then Some start else None.

(** No closing parenthesis stands in [tail] before its first line feed: an
    opening parenthesis in front of [tail] opens no group. *)
Definition unclosed (tail : string) : Prop :=
  exists line rest,
    tail = (line ++ rest)%string
    /\ Contains line "）" = false
    /\ Contains line (String line_feed "") = false
    /\ (rest = "" \/ HasPrefix rest (String line_feed "") = true).

(** [tail] begins with the rest of a group: an annotation without closing
    parenthesis or line feed, and the closing parenthesis. *)
Definition closed (tail : string) : Prop :=
  exists ann rest,
    tail = (ann ++ "）" ++ rest)%string
    /\ Contains ann "）" = false
    /\ Contains ann (String line_feed "") = false.

(** *** Ingestion *)

(** The primary key of [movies]: the keys are distinct and none is zero. *)
Definition wf_store (db : DB) : Prop :=
  NoDup (Movie.ID <$> movies db) /\ Forall (fun m => 0 < Movie.ID m) (movies db).

(** Key and native title of every movie row, in row order. *)
Definition title_keys (db : DB) : list (Z * string) :=
  (fun m => (Movie.ID m, Movie.TitleJP m)) <$> movies db.

(** Key and status of every movie row, in row order. *)
Definition statuses (db : DB) : list (Z * string) :=
  (fun m => (Movie.ID m, Movie.Status m)) <$> movies db.

(** The key of the row [First] finds for a title. *)
Definition first_movie_id (titleJP : string) (db : DB) : option Z :=
  Movie.ID <$> Store.first_movie titleJP db.

(** A row for the slot of [sched] is stored. *)
Definition has_slot (db : DB) (sched : Schedule.t) : Prop :=
  existsb (Store.same_slot sched) (schedules db) = true.

(** The rows one cell asks for, for a movie and a cinema. *)
Definition cell_slots (movieID cinemaID : Z) (td : Page.Cell) : list Schedule.t :=
  let dateRaw := TrimSpace (Page.data_date td) in
  if negb (len dateRaw =? 8) then [] else
  match Parse false dateRaw with
  | None => []
  | Some playDate =>
      (fun text => Schedule.mk 0 movieID cinemaID playDate text)
        <$> omap Scrape.span_start_time (Page.spans td)
  end.

Definition section_slots (movieID cinemaID : Z) (sec : Page.MovieSection)
    : list Schedule.t :=
  Page.cells sec ≫= cell_slots movieID cinemaID.

Definition upsert_all (slots : list Schedule.t) (db : DB) : DB :=
  fold_left (fun db s => Store.first_or_create_schedule s db) slots db.

(** The dates one section collects in [playDatesMap]. *)
Definition cell_date (td : Page.Cell) : gset Z :=
  let dateRaw := TrimSpace (Page.data_date td) in
  if negb (len dateRaw =? 8) then ∅ else
  match Parse false dateRaw with
  | None => ∅
  | Some playDate => {[ local_day playDate ]}
  end.

Definition section_dates (sec : Page.MovieSection) : gset Z :=
  ⋃ (cell_date <$> Page.cells sec).

(** Everything the section asks for is stored already. *)
Definition section_covered (cinema : Cinema.t) (sec : Page.MovieSection) (db : DB) : Prop :=
  TrimSpace (Page.title sec) = ""
  \/ exists id,
       first_movie_id (TrimSpace (Page.title sec)) db = Some id
       /\ Forall (has_slot db) (section_slots id (Cinema.ID cinema) sec).

Definition page_covered (page : Page.t) (db : DB) : Prop :=
  forall nameJP cinema,
    Scrape.nameJP (Page.page_title page) = Some nameJP ->
    Store.first_cinema nameJP db = Some cinema ->
    Forall (fun sec => section_covered cinema sec db) (Page.sections page).

(** [db'] holds the rows of [db], unchanged in key, title and slot, and
    possibly more after them. *)
Definition extends (db db' : DB) : Prop :=
  cinemas db' = cinemas db
  /\ title_keys db `prefix_of` title_keys db'
  /\ schedules db `prefix_of` schedules db'.

(** *** Concrete runs *)

(** An encoder for the examples. *)
Definition example_json : list Tmdb.castOut -> string := fun _ => "[]".

(** A world in which TMDB knows one film under the key 42, answers only in
    Chinese, and OMDb has no rating. *)
Definition example_detail : Tmdb.Detail :=
  Tmdb.mkDetail "tt0000002" "狩猎" "" "" "" "TBA 2027" 0 8%float [] [] [].

Definition example_world : World :=
  mkWorld (DateIn (9 * 3600) 2026 1 1 5 0)
    (fun _ => 42)
    (fun _ lang => if bool_decide (lang = "zh-CN") then Some example_detail else None)
    (fun _ => 0%float)
    (fun _ _ => 0%float).

(** A world in which TMDB finds nothing. *)
Definition silent_world : World :=
  mkWorld (DateIn (9 * 3600) 2026 1 1 5 0)
    (fun _ => 0) (fun _ _ => None) (fun _ => 0%float) (fun _ _ => 0%float).

(** A record with ratings and ids, but no English title yet. *)
Definition rated_movie : Movie.t :=
  Movie.mk 1 7 "tt0000001" "" "" "偽りなき者" "" "" "" "" "" 0 "" ""
    7.5%float 8.5%float 9%float "showing" zero "".

(** A complete record, after the first seed movie of [seedInitialMovies]. *)
Definition complete_movie : Movie.t :=
  Movie.mk 1 0 "" "狩猎" "THE HUNT" "" "Thomas Vinterberg" "2012"
    "一个关于谎言如何像病毒一样扩散，撕裂一个小镇的温情表象。" "" "" 0 "" ""
    8%float 8.5%float 9%float "showing" (Date 2026 1 21)
    "本周聚焦独立影院中的人本主义，讲述那些被主流忽视的声音。".

Definition empty_store : DB := mkDB [] [] [].

Definition one_cinema_store : DB :=
  mkDB [Cinema.mk 1 "新宿ピカデリー" "東京都新宿区新宿3-15-15" 0%float 0%float "" ""] [] [].

Definition example_page : Page.t :=
  Page.mk "新宿ピカデリー（新宿区）"
    [Page.mkSection "偽りなき者"
       [Page.mkCell "20260127" ["18:05～20:00"; "11:00"];
        Page.mkCell "20260128" ["11:00"; ""]]].

Definition dateless_section : Page.MovieSection :=
  Page.mkSection "偽りなき者" [Page.mkCell "2026-01" ["18:05"]].

(** 05:00 on 2026-01-01 in Tokyo, in UTC, and 20:00 in Los Angeles. *)
Definition tokyo_morning : Time := DateIn (9 * 3600) 2026 1 1 5 0.
Definition utc_morning : Time := DateIn 0 2026 1 1 5 0.
Definition pacific_evening : Time := DateIn (- 8 * 3600) 2026 1 1 20 0.

Definition status_store (d : Time) : DB :=
  mkDB [] [Movie.set_Status "incoming" (Movie.set_ID 1 Movie.empty)]
       [Schedule.mk 1 1 1 d "10:00"].

(** A world in which TMDB knows the film and gives no IMDb id for it. *)
Definition anonymous_world : World :=
  mkWorld (DateIn (9 * 3600) 2026 1 1 5 0)
    (fun _ => 42)
    (fun _ lang =>
       if bool_decide (lang = "en-US")
       then Some (Tmdb.mkDetail "" "THE HUNT" "" "" "" "" 0 8%float [] [] [])
       else None)
    (fun _ => 0%float)
    (fun _ _ => 0%float).

(** A record that has its year but no date, and a world that knows the film
    without a date. *)
Definition dated_detail : Tmdb.Detail :=
  Tmdb.mkDetail "" "狩猎" "" "" "" "" 0 8%float [] [] [].

Definition dateless_world : World :=
  mkWorld (DateIn (9 * 3600) 2026 1 1 5 0)
    (fun _ => 42)
    (fun _ lang => if bool_decide (lang = "zh-CN") then Some dated_detail else None)
    (fun _ => 0%float)
    (fun _ _ => 0%float).

Definition year_only_movie : Movie.t := Movie.set_Year "2012" rated_movie.

(** A world in which TMDB knows the year of the film and no more. *)
Definition year_world : World :=
  mkWorld (DateIn (9 * 3600) 2026 1 1 5 0)
    (fun _ => 42)
    (fun _ lang =>
       if bool_decide (lang = "zh-CN")
       then Some (Tmdb.mkDetail "" "狩猎" "" "" "" "2012" 0 8%float [] [] [])
       else None)
    (fun _ => 0%float)
    (fun _ _ => 0%float).

(** *** The full-batch pass on the store *)

(** The status the full-batch pass computes for a movie from the schedule
    rows of the store. *)
Definition batch_status_of (today : Time) (db : DB) (m : Movie.t) : string :=
  Status.batch_status today (Store.schedules_of (Movie.ID m) db).

(** *** The rows a run writes *)

(** The fields of a schedule row the ingestion writes: midnight UTC of the
    day, a start time of at least four bytes with a colon, and the keys of
    a stored movie and a stored cinema. *)
Definition ingested_row (db : DB) (s : Schedule.t) : Prop :=
  parsed_row s
  /\ 4 <= len (Schedule.StartTime s)
  /\ Contains (Schedule.StartTime s) ":" = true
  /\ Schedule.MovieID s ∈ Movie.ID <$> movies db
  /\ Schedule.CinemaID s ∈ Cinema.ID <$> cinemas db.

(** The native titles of the movie rows that have one. *)
Definition native_titles (db : DB) : list string :=
  filter (fun t => t <> "") (Movie.TitleJP <$> movies db).

(** *** Enrichment, field by field *)

(** The descriptive fields that are written only while they are empty:
    each one that has a value in [m0] has the same value in [m]. *)
Definition kept (m0 m : Movie.t) : Prop :=
  (Movie.Synopsis m0 <> "" -> Movie.Synopsis m = Movie.Synopsis m0)
  /\ (Movie.Poster m0 <> "" -> Movie.Poster m = Movie.Poster m0)
  /\ (Movie.Backdrop m0 <> "" -> Movie.Backdrop m = Movie.Backdrop m0)
  /\ (Movie.Year m0 <> "" -> Movie.Year m = Movie.Year m0)
  /\ (Movie.Genre m0 <> "" -> Movie.Genre m = Movie.Genre m0)
  /\ (Movie.Director m0 <> "" -> Movie.Director m = Movie.Director m0)
  /\ (Movie.CastJSON m0 <> "" -> Movie.CastJSON m = Movie.CastJSON m0)
  /\ (Movie.Runtime m0 <> 0 -> Movie.Runtime m = Movie.Runtime m0)
  /\ (IsZero (Movie.ReleaseDate m0) = false ->
      Movie.ReleaseDate m = Movie.ReleaseDate m0).

(** The overview a language offers for the synopsis: the answer has to
    arrive and its overview must not be blank. *)
Definition offered_overview (w : World) (tmdbID : Z) (lang : string) : option string :=
  match tmdb_detail w tmdbID lang with
  | Some data =>
      if bool_decide (TrimSpace (Tmdb.Overview data) = "") then None
      else Some (Tmdb.Overview data)
  | None => None
  end.

(** The cast a language offers: only the Chinese and the English answer
    count, and the list must not be empty. *)
Definition offered_cast (w : World) (tmdbID : Z) (lang : string)
    : option (list Tmdb.CastMember) :=
  if bool_decide (lang = "zh-CN") || bool_decide (lang = "en-US") then
    match tmdb_detail w tmdbID lang with
    | Some data => if bool_decide (Tmdb.Cast data = []) then None else Some (Tmdb.Cast data)
    | None => None
    end
  else None.

(** The cast field after the language loop: the old one, or, when that
    was empty, the encoding of the first eight members a language offered. *)
Definition cast_from (json_Marshal : list Tmdb.castOut -> string)
    (w : World) (tmdbID : Z) (old new : string) : Prop :=
  new = old
  \/ (old = ""
      /\ exists lang cast,
           offered_cast w tmdbID lang = Some cast
           /\ new = json_Marshal (cast_out <$> firstn 8 cast)).

(** *** Addresses *)

(** Every byte of [s] is an ASCII digit. *)
Definition all_digits (s : string) : bool :=
  forallb isDigit (list_ascii_of_string s).

(** [s] starts with an ASCII digit. *)
Definition starts_with_digit (s : string) : bool :=
  match s with
  | String c _ => isDigit c
  | EmptyString => false
  end.

(** A match of [p] ends where a run of digits ends. *)
Definition ends_with_number (p : Address.piece) : Prop :=
  forall s n, p s = Some n ->
    exists before number,
      take n s = before ++ number
      /\ number <> ""
      /\ all_digits number = true
      /\ starts_with_digit (drop n s) = false.

(** A match of [p] holds a hyphen. *)
Definition needs_hyphen (p : Address.piece) : Prop :=
  forall s n, p s = Some n -> Contains s "-" = true.

(** *** The cinema crawl *)

(** Key and name of every cinema row, in row order. *)
Definition cinema_keys (db : DB) : list (Z * string) :=
  (fun c => (Cinema.ID c, Cinema.NameJP c)) <$> cinemas db.

(** The crawl finds a row for the name: any row for the empty name. *)
Definition name_known (nameJP : string) (db : DB) : Prop :=
  if bool_decide (nameJP = "") then cinemas db <> []
  else nameJP ∈ (cinema_keys db).*2.

(** The crawl finds a row for the page. *)
Definition cinema_known (page : CinemaPage.t) (db : DB) : Prop :=
  match Scrape.nameJP (CinemaPage.page_title page) with
  | Some nameJP => name_known nameJP db
  | None => True
  end.


(** *** Douban ratings *)

(** The test of the handler: the year occurs in the cast line or the
    title in the title of the result. *)
Definition result_matches (title year : string) (e : Douban.Result) : bool :=
  Contains (Douban.resMeta e) year || Contains (Douban.resTitle e) title.

(** What the backfill may do to a movie row: nothing, or write a score
    that is not [<= 0] into the Douban rating of a row it selects. *)
Definition backfilled (m m' : Movie.t) : Prop :=
  m' = m
  \/ (Douban.wanted m = true
      /\ exists score, (score <=? 0)%float = false
                       /\ m' = Movie.set_DoubanRating score m).

(** *** Seed rows *)

(** The schedule row points to a stored movie and a stored cinema. *)
Definition refers (db : DB) (s : Schedule.t) : Prop :=
  Schedule.MovieID s ∈ Movie.ID <$> movies db
  /\ Schedule.CinemaID s ∈ Cinema.ID <$> cinemas db.

(** A row of the demonstration programme: the day and one of the five
    start times. *)
Definition seeded_row (s : Schedule.t) : Prop :=
  Schedule.PlayDate s = Date 2026 1 23
  /\ Schedule.StartTime s ∈ ["10:40"; "15:40"; "18:20"; "14:00"; "19:00"].

(** *** The views of the API *)

(** The schedule rows of a cinema on a date, as the query selects them. *)
Definition rows_on (sql_date : Time -> string) (cinemaID : Z) (dateStr : string)
    (db : DB) : list Schedule.t :=
  List.filter
    (fun s => (Schedule.CinemaID s =? cinemaID)
              && bool_decide (sql_date (Schedule.PlayDate s) = dateStr))
    (schedules db).

(** The start times of the rows of one movie, in row order. *)
Definition times_of (movieID : Z) (rows : list Schedule.t) : list string :=
  Schedule.StartTime <$> List.filter (fun s => Schedule.MovieID s =? movieID) rows.

(** The daily entry of a movie for the rows of the day. *)
Definition daily_entry (format_rating : float -> string) (mv : Movie.t)
    (rows : list Schedule.t) : Api.DailyMovie :=
  Api.mkDailyMovie (Movie.ID mv) (Api.daily_title mv) (times_of (Movie.ID mv) rows)
    (format_rating (Api.daily_rating mv)).

(** What the map of the daily entries holds after the rows [done]. *)
Definition grouped (format_rating : float -> string) (movieMap : gmap Z Movie.t)
    (done : list Schedule.t) (dailyMap : gmap Z Api.DailyMovie) : Prop :=
  forall k,
    dailyMap !! k
    = match movieMap !! k with
      | Some mv =>
          match times_of k done with
          | [] => None
          | _ => Some (daily_entry format_rating mv done)
          end
      | None => None
      end.

(** *** The commands *)

(** The store is consistent: movie keys distinct and positive, cinema keys
    distinct, and every schedule row as the ingestion writes it, for a
    stored movie and a stored cinema. *)
Definition store_ok (db : DB) : Prop :=
  wf_store db
  /\ NoDup (Cinema.ID <$> cinemas db)
  /\ Forall (ingested_row db) (schedules db).

(** *** More concrete runs *)

(** A record that waits for its Douban rating. *)
Definition unrated_movie : Movie.t :=
  Movie.mk 2 0 "" "" "THE HUNT" "偽りなき者" "" "2012" "" "" "" 0 "" ""
    7.5%float 8.5%float 0%float "showing" zero "".

(** A store with two movies, a cinema and a row for each movie. *)
Definition listed_store : DB :=
  mkDB [Cinema.mk 1 "新宿ピカデリー" "東京都新宿区新宿3-15-15" 0%float 0%float "" ""]
       [rated_movie; unrated_movie]
       [Schedule.mk 1 1 1 (Date 2026 1 8) "10:00";
        Schedule.mk 2 2 1 (Date 2026 1 1) "11:00"].

(** A world in which TMDB answers with a blank overview in Chinese and
    with a synopsis in Japanese. *)
Definition overview_world : World :=
  mkWorld (DateIn 0 2026 1 1 5 0)
    (fun _ => 42)
    (fun _ lang =>
       if bool_decide (lang = "zh-CN")
       then Some (Tmdb.mkDetail "" "狩猎" "  " "" "" "" 0 8%float [] [] [])
       else if bool_decide (lang = "ja-JP")
       then Some (Tmdb.mkDetail "" "偽りなき者" "あらすじ" "" "" "" 0 8%float [] [] [])
       else None)
    (fun _ => 0%float)
    (fun _ _ => 0%float).

(** The detail page of a cinema, and a geocoder that finds nothing. *)
Definition cinema_page : CinemaPage.t :=
  CinemaPage.mk "新宿ピカデリー（新宿区）"
    ["/shared/logo.png"; "/images/theater/3018/photo.jpg"; "/images/theater/3018/b.jpg"]
    "/theater/13/130201/3018/official/"
    (fun link => "https://eiga.com" ++ link)
    "東京都新宿区新宿3-15-15 新宿ピカデリー内".

Definition lost_geocoder : nat -> Geo.World :=
  fun _ => Geo.mkWorld (fun _ _ => None) 0.

(** A search page of Douban with two results, the first for the film. *)
Definition hunt_results : nat -> string -> option (list Douban.Result) :=
  fun _ _ => Some [Douban.mkResult "狩猎 Jagten" "丹麦 / 2012" "9.1";
                   Douban.mkResult "THE HUNT" "2020" "6.0"].

Definition example_ParseFloat : string -> float :=
  fun s => if bool_decide (s = "9.1") then 9%float else 6%float.

(** What a run of the examples meets. *)
Definition example_outside : Main.Outside :=
  Main.mkOutside example_json example_ParseFloat [cinema_page] lost_geocoder
    [example_page] (fun _ => example_world) hunt_results utc_morning.

(** The store as every command finds it: the seed rows are in. *)
Definition seeded_store : DB := Seed.seed one_cinema_store.

End Vocabulary.

(** * Properties *)

(** ** Status derivation *)

Section StatusFacts.
Import GoTime Status.

Lemma day_ns_pos : 0 < day_ns.
Proof. reflexivity. Qed.

Lemma local_day_midnight d : local_day (midnight_utc d) = d.
Proof.
  unfold local_day, midnight_utc; simpl.
  rewrite Z.add_0_r. apply Z.div_mul. discriminate.
Qed.

Lemma Before_midnight d e : Before (midnight_utc d) (midnight_utc e) = (d <? e).
Proof.
  unfold Before, midnight_utc, day_ns, second_ns; simpl.
  destruct (Z.ltb_spec d e); [apply Z.ltb_lt | apply Z.ltb_ge]; lia.
Qed.

Lemma After_midnight d e : After (midnight_utc d) (midnight_utc e) = (e <? d).
Proof. apply Before_midnight. Qed.

Lemma Truncate_midnight d : Truncate24h (midnight_utc d) = midnight_utc d.
Proof.
  unfold Truncate24h, midnight_utc; simpl.
  rewrite Z.mod_mul by discriminate. f_equal. lia.
Qed.

Lemma local_day_AddDays n t : local_day (AddDays n t) = local_day t + n.
Proof.
  unfold local_day, AddDays; simpl.
  replace (abs_ns t + n * day_ns + zone t * second_ns)
    with (abs_ns t + zone t * second_ns + n * day_ns) by lia.
  apply Z.div_add. discriminate.
Qed.

(** With the clock in UTC, midnight of day [e] is no later than [n] days
    from now exactly when [e] is at most [n] days after today. *)
Lemma midnight_le_AddDays_utc today e n :
  zone today = 0 ->
  (Before (midnight_utc e) (AddDays n today) || Equal (midnight_utc e) (AddDays n today))
  = (e <=? local_day today + n).
Proof.
  intros Hz. unfold Before, Equal, AddDays, midnight_utc, local_day; simpl.
  rewrite Hz, Z.add_0_r. unfold day_ns, second_ns.
  pose proof (Z.div_mod (abs_ns today) (86400 * 1000000000) ltac:(discriminate)) as Hdm.
  pose proof (Z.mod_pos_bound (abs_ns today) (86400 * 1000000000) ltac:(reflexivity)) as Hb.
  destruct (Z.leb_spec e (abs_ns today / (86400 * 1000000000) + n)).
  - destruct (Z.ltb_spec (e * (86400 * 1000000000)) (abs_ns today + n * (86400 * 1000000000)));
      [reflexivity|]. simpl. apply Z.eqb_eq. lia.
  - apply orb_false_intro; [apply Z.ltb_ge | apply Z.eqb_neq]; lia.
Qed.

Lemma least_le_init keys : forall e, least e keys <= e.
Proof.
  induction keys as [|d keys IH]; intros e; simpl; [lia|].
  specialize (IH (Z.min e d)). unfold least in *. lia.
Qed.

Lemma least_le keys : forall e d, d ∈ keys -> least e keys <= d.
Proof.
  induction keys as [|k keys IH]; intros e d Hd; [by apply elem_of_nil in Hd|].
  apply elem_of_cons in Hd as [->|Hd]; simpl.
  - pose proof (least_le_init keys (Z.min e k)). unfold least in *. lia.
  - by apply IH.
Qed.

Lemma least_elem keys : forall e, least e keys = e \/ least e keys ∈ keys.
Proof.
  induction keys as [|k keys IH]; intros e; simpl; [by left|].
  destruct (IH (Z.min e k)) as [H|H]; unfold least in *.
  - rewrite H. destruct (Z.min_spec e k) as [[_ ->]|[_ ->]]; [by left|right; left].
  - right. by right.
Qed.

Lemma scan_dates_from todayStr keys : forall e h,
  fold_left
    (fun '(earliestDate, hasPastOrToday) dateStr =>
       let parsedDate := midnight_utc dateStr in
       let hasPastOrToday :=
         if dateStr <=? todayStr then true else hasPastOrToday in
       let earliestDate :=
         match earliestDate with
         | None => Some parsedDate
         | Some e => if Before parsedDate e then Some parsedDate else Some e
         end in
       (earliestDate, hasPastOrToday))
    keys (Some (midnight_utc e), h)
  = (Some (midnight_utc (least e keys)),
     h || existsb (fun d => d <=? todayStr) keys).
Proof.
  induction keys as [|d keys IH]; intros e h; simpl.
  - by rewrite orb_false_r.
  - rewrite Before_midnight.
    destruct (Z.ltb_spec d e).
    + rewrite IH. rewrite Z.min_r by lia.
      destruct (d <=? todayStr), h; reflexivity.
    + rewrite IH. rewrite Z.min_l by lia.
      destruct (d <=? todayStr), h; reflexivity.
Qed.

Lemma scan_dates_cons todayStr d keys :
  scan_dates todayStr (d :: keys)
  = (Some (midnight_utc (least d keys)),
     existsb (fun k => k <=? todayStr) (d :: keys)).
Proof.
  unfold scan_dates. simpl. rewrite scan_dates_from.
  by destruct (d <=? todayStr).
Qed.

(** The incremental form yields nothing but the two states. *)
Lemma incremental_status_two today keys :
  incremental_status today keys = "showing"
  \/ incremental_status today keys = "incoming".
Proof.
  unfold incremental_status.
  destruct (scan_dates _ keys) as [[e|] h]; [|by left].
  destruct (negb h); [|by left].
  destruct (_ <=? _); [|by left].
  destruct (_ || _); [by right|by left].
Qed.

(** A date of today or earlier makes it [showing], whatever the clock. *)
Lemma incremental_status_past today keys d :
  d ∈ keys -> d <= local_day today ->
  incremental_status today keys = "showing".
Proof.
  intros Hd Hle. unfold incremental_status.
  destruct keys as [|k keys]; [by apply elem_of_nil in Hd|].
  rewrite scan_dates_cons.
  assert (existsb (fun k => k <=? local_day today) (k :: keys) = true) as ->.
  { apply existsb_exists. exists d. split; [by apply list_elem_of_In|].
    by apply Z.leb_le. }
  reflexivity.
Qed.

Lemma all_future_existsb todayStr (keys : list Z) :
  (forall d, d ∈ keys -> todayStr < d) ->
  existsb (fun k => k <=? todayStr) keys = false.
Proof.
  intros H. apply not_true_is_false. intros [d [Hd Hle]]%existsb_exists.
  apply list_elem_of_In, H in Hd. apply Z.leb_le in Hle. lia.
Qed.

(** With the process clock in UTC, the incremental form is what the
    comments of the block say. *)
Lemma incremental_status_utc today keys e :
  zone today = 0 ->
  e ∈ keys -> (forall d, d ∈ keys -> e <= d) ->
  local_day today < e ->
  incremental_status today keys
  = if e <=? local_day today + 7 then "incoming" else "showing".
Proof.
  intros Hz He Hmin Hfut. unfold incremental_status.
  destruct keys as [|k keys]; [by apply elem_of_nil in He|].
  rewrite scan_dates_cons.
  rewrite all_future_existsb by (intros d Hd; specialize (Hmin d Hd); lia).
  assert (least k keys = e) as ->.
  { assert (least k keys ∈ k :: keys) as Hin.
    { destruct (least_elem keys k) as [->|H]; [left|by right]. }
    assert (least k keys <= e).
    { apply elem_of_cons in He as [->|He];
        [apply least_le_init | by apply least_le]. }
    specialize (Hmin _ Hin). lia. }
  simpl negb. cbv iota.
  rewrite local_day_AddDays, local_day_midnight.
  rewrite midnight_le_AddDays_utc by done.
  destruct (Z.leb_spec (local_day today + 1) e); [done|lia].
Qed.

Lemma scan_schedules_from todayStr rows : forall e l h,
  Forall parsed_row rows ->
  fold_left
    (fun '(earliestDate, latestDate, hasPastOrToday) sched =>
       let dateStr := local_day (Schedule.PlayDate sched) in
       let hasPastOrToday :=
         if dateStr <=? todayStr then true else hasPastOrToday in
       let earliestDate :=
         match earliestDate with
         | None => Some (Schedule.PlayDate sched)
         | Some e => if Before (Schedule.PlayDate sched) e
                     then Some (Schedule.PlayDate sched) else Some e
         end in
       let latestDate :=
         match latestDate with
         | None => Some (Schedule.PlayDate sched)
         | Some l => if After (Schedule.PlayDate sched) l
                     then Some (Schedule.PlayDate sched) else Some l
         end in
       (earliestDate, latestDate, hasPastOrToday))
    rows (Some (midnight_utc e), Some (midnight_utc l), h)
  = (Some (midnight_utc (least e (play_day <$> rows))),
     Some (midnight_utc (greatest l (play_day <$> rows))),
     h || existsb (fun d => d <=? todayStr) (play_day <$> rows)).
Proof.
  induction rows as [|s rows IH]; intros e l h Hrows; simpl.
  - by rewrite orb_false_r.
  - apply Forall_cons in Hrows as [Hs Hrows].
    fold (play_day s). rewrite Hs, Before_midnight, After_midnight.
    assert ((if play_day s <? e then Some (midnight_utc (play_day s))
             else Some (midnight_utc e))
            = Some (midnight_utc (Z.min e (play_day s)))) as ->.
    { destruct (Z.ltb_spec (play_day s) e);
        [rewrite Z.min_r by lia | rewrite Z.min_l by lia]; done. }
    assert ((if l <? play_day s then Some (midnight_utc (play_day s))
             else Some (midnight_utc l))
            = Some (midnight_utc (Z.max l (play_day s)))) as ->.
    { destruct (Z.ltb_spec l (play_day s));
        [rewrite Z.max_r by lia | rewrite Z.max_l by lia]; done. }
    rewrite IH by done.
    by destruct (play_day s <=? todayStr), h.
Qed.

Lemma scan_schedules_cons todayStr s rows :
  Forall parsed_row (s :: rows) ->
  scan_schedules todayStr (s :: rows)
  = (Some (midnight_utc (least (play_day s) (play_day <$> rows))),
     Some (midnight_utc (greatest (play_day s) (play_day <$> rows))),
     existsb (fun d => d <=? todayStr) (play_day <$> s :: rows)).
Proof.
  intros Hrows. unfold scan_schedules. simpl.
  apply Forall_cons in Hrows as [Hs Hrows].
  fold (play_day s). unfold parsed_row in Hs. rewrite Hs.
  rewrite scan_schedules_from by done.
  by destruct (play_day s <=? todayStr).
Qed.

Lemma After_total t u : After t u = negb (Before t u || Equal t u).
Proof.
  unfold After, Before, Equal.
  destruct (Z.ltb_spec (abs_ns u) (abs_ns t)), (Z.ltb_spec (abs_ns t) (abs_ns u)),
    (Z.eqb_spec (abs_ns t) (abs_ns u)); simpl; try reflexivity; lia.
Qed.

Lemma Before_AddDays_mono t u : Before t (AddDays 1 u) = true ->
  Before t (AddDays 7 u) || Equal t (AddDays 7 u) = true.
Proof.
  unfold Before, Equal, AddDays, day_ns, second_ns; simpl. intros H%Z.ltb_lt.
  apply orb_true_intro. left. apply Z.ltb_lt. lia.
Qed.

(** With the process clock in UTC and rows as the ingestion writes them,
    the full-batch form is the rule set of the specification. *)
Lemma batch_status_utc today rows :
  zone today = 0 ->
  Forall parsed_row rows ->
  batch_status today rows
  = spec_deriveStatus (local_day today) (play_day <$> rows).
Proof.
  intros Hz Hrows. unfold batch_status.
  destruct rows as [|s rows]; [reflexivity|].
  change (Z.of_nat (length (s :: rows)) =? 0) with false. cbv iota.
  rewrite scan_schedules_cons by done.
  rewrite local_day_midnight.
  change (play_day <$> s :: rows) with (play_day s :: (play_day <$> rows)).
  cbv beta iota delta [spec_deriveStatus].
  destruct (greatest _ _ <? _); [reflexivity|].
  destruct (existsb _ _); [reflexivity|].
  simpl negb. cbv iota. rewrite Truncate_midnight.
  set (e := least _ _).
  rewrite !After_total.
  pose proof (Before_AddDays_mono (midnight_utc e) today) as Hmono.
  rewrite (midnight_le_AddDays_utc today e 7 Hz) in *.
  destruct (Before (midnight_utc e) (AddDays 1 today)).
  - by rewrite Hmono.
  - simpl. destruct (e <=? local_day today + 7), (Equal _ _); reflexivity.
Qed.

End StatusFacts.

(** ** Enrichment *)

Section EnrichFacts.
Import GoStrings GoTime.
Variable json_Marshal : list Tmdb.castOut -> string.

Lemma loop_inv_refl m : loop_inv m m.
Proof. unfold loop_inv; tauto. Qed.

Ltac field_step :=
  intros (?&?&?&?&?&?&?&?&?); repeat case_match; try assumption;
  unfold loop_inv; simpl; repeat split; auto.

Lemma fill_rating_inv m0 data m :
  loop_inv m0 m -> loop_inv m0 (fill_rating data m).
Proof.
  unfold fill_rating. intros Hinv.
  destruct (_ && _) eqn:E; [|done].
  apply andb_true_iff in E as [_ E].
  destruct Hinv as (?&?&?&?&?&?&?&?&Hr).
  unfold loop_inv; simpl; repeat split; auto.
  intros Hnz. specialize (Hr Hnz). rewrite Hr, Hnz in E. discriminate.
Qed.

Lemma fill_synopsis_inv m0 data m :
  loop_inv m0 m -> loop_inv m0 (fill_synopsis data m).
Proof. unfold fill_synopsis. field_step. Qed.

Lemma fill_poster_inv m0 data m :
  loop_inv m0 m -> loop_inv m0 (fill_poster data m).
Proof. unfold fill_poster. field_step. Qed.

Lemma fill_backdrop_inv m0 data m :
  loop_inv m0 m -> loop_inv m0 (fill_backdrop data m).
Proof. unfold fill_backdrop. field_step. Qed.

Lemma fill_year_inv m0 data m :
  loop_inv m0 m -> loop_inv m0 (fill_year data m).
Proof. unfold fill_year. field_step. Qed.

Lemma fill_release_date_inv m0 data m :
  loop_inv m0 m -> loop_inv m0 (fill_release_date data m).
Proof. unfold fill_release_date. field_step. Qed.

Lemma fill_release_inv m0 data m :
  loop_inv m0 m -> loop_inv m0 (fill_release data m).
Proof.
  unfold fill_release. intros H. case_match; [|done].
  by apply fill_release_date_inv, fill_year_inv.
Qed.

Lemma fill_runtime_inv m0 data m :
  loop_inv m0 m -> loop_inv m0 (fill_runtime data m).
Proof. unfold fill_runtime. field_step. Qed.

Lemma fill_genre_inv m0 data m :
  loop_inv m0 m -> loop_inv m0 (fill_genre data m).
Proof. unfold fill_genre. field_step. Qed.

Lemma fill_director_inv m0 data m :
  loop_inv m0 m -> loop_inv m0 (fill_director data m).
Proof. unfold fill_director. field_step. Qed.

Lemma fill_cast_inv m0 lang data m :
  loop_inv m0 m -> loop_inv m0 (fill_cast json_Marshal lang data m).
Proof. unfold fill_cast. field_step. Qed.

Lemma fill_title_inv m0 lang data m :
  loop_inv m0 m -> loop_inv m0 (fill_title lang data m).
Proof.
  unfold fill_title. intros Hinv.
  repeat case_match; try assumption;
    destruct Hinv as (?&?&?&?&?&?&?&Ht&?);
    unfold loop_inv; simpl; repeat split; auto.
  intros Hne. specialize (Ht Hne).
  match goal with
  | E : _ && _ = true |- _ =>
      apply andb_true_iff in E as [_ E]; apply bool_decide_eq_true in E; congruence
  end.
Qed.

Lemma apply_detail_inv m0 lang data m :
  loop_inv m0 m -> loop_inv m0 (apply_detail json_Marshal lang data m).
Proof.
  intros H. unfold apply_detail.
  apply fill_title_inv, fill_cast_inv, fill_director_inv, fill_genre_inv,
    fill_runtime_inv, fill_release_inv, fill_backdrop_inv, fill_poster_inv,
    fill_synopsis_inv, fill_rating_inv, H.
Qed.

Lemma detail_loop_inv w tmdbID m0 ls : forall st,
  loop_inv m0 (fst st) ->
  loop_inv m0 (fst (fold_left (detail_step json_Marshal w tmdbID) ls st)).
Proof.
  induction ls as [|lang ls IH]; intros st H; simpl; [done|].
  apply IH. unfold detail_step. destruct (tmdb_detail _ _ _); [|done].
  simpl. by apply apply_detail_inv.
Qed.

Lemma fill_douban_id w m : fill_douban w m = m.
Proof. reflexivity. Qed.

Lemma TrimSpace_empty : TrimSpace "" = "".
Proof. reflexivity. Qed.

(** The call that reaches the store, written out. *)
Lemma enrich_saved w m db :
  complete m = false ->
  TrimSpace (Movie.TitleJP m) <> "" ->
  searchTmdbID w (TrimSpace (Movie.TitleJP m)) <> 0 ->
  let tmdbID := searchTmdbID w (TrimSpace (Movie.TitleJP m)) in
  let m0 := if Movie.TMDBID m =? 0 then Movie.set_TMDBID tmdbID m else m in
  let st := fold_left (detail_step json_Marshal w tmdbID) langs (m0, "") in
  enrichMovieRatings json_Marshal w m db
  = (Store.save_movie (finish w (snd st) (fst st)) db,
     ([TmdbSearch (TrimSpace (Movie.TitleJP m))] ++ (TmdbDetail tmdbID <$> langs)
      ++ (if negb (bool_decide (snd st = "")) then [OmdbLookup (snd st)] else [])
      ++ [StoreSave (finish w (snd st) (fst st))])%list).
Proof.
  intros Hc Ht Hs. unfold enrichMovieRatings.
  rewrite Hc, bool_decide_eq_false_2 by done.
  rewrite (proj2 (Z.eqb_neq _ _) Hs).
  cbv zeta. destruct (fold_left _ langs _) as [m1 imdbID]. cbn [fst snd].
  unfold finish. rewrite !fill_douban_id.
  change (douban_wanted _) with false. cbv iota.
  by destruct (Store.save_movie _ db).
Qed.

(** The three ways a call ends. *)
Lemma enrich_ways w m db :
  (enrichMovieRatings json_Marshal w m db = (m, db, [])
   /\ (complete m = true \/ TrimSpace (Movie.TitleJP m) = ""))
  \/ (enrichMovieRatings json_Marshal w m db
      = (m, db, [TmdbSearch (TrimSpace (Movie.TitleJP m))])
      /\ complete m = false /\ TrimSpace (Movie.TitleJP m) <> ""
      /\ searchTmdbID w (TrimSpace (Movie.TitleJP m)) = 0)
  \/ (complete m = false /\ TrimSpace (Movie.TitleJP m) <> ""
      /\ searchTmdbID w (TrimSpace (Movie.TitleJP m)) <> 0).
Proof.
  unfold enrichMovieRatings.
  destruct (complete m) eqn:Hc; [left; split; [done|by left]|].
  case_bool_decide as Ht; [left; split; [done|by right]|].
  destruct (Z.eqb_spec (searchTmdbID w (TrimSpace (Movie.TitleJP m))) 0) as [E|E].
  - right. left. done.
  - right. right. done.
Qed.

Lemma enrich_cases w m db :
  enrich_outcome w m db (enrichMovieRatings json_Marshal w m db).
Proof.
  unfold enrichMovieRatings.
  destruct (complete m) eqn:Hc; [by constructor; left|].
  case_bool_decide as Ht; [by constructor; right|].
  assert (Movie.TitleJP m <> "") as Hne.
  { intros E. apply Ht. by rewrite E. }
  destruct (searchTmdbID w _ =? 0) eqn:Hs; [by constructor|].
  apply Z.eqb_neq in Hs.
  set (m0 := if Movie.TMDBID m =? 0 then _ else m).
  pose proof (detail_loop_inv w (searchTmdbID w (TrimSpace (Movie.TitleJP m)))
                m0 langs (m0, "") (loop_inv_refl m0)) as Hinv.
  destruct (fold_left _ langs (m0, "")) as [m1 imdbID]. simpl in Hinv.
  pose proof (outcome_saved w m db _ m1 imdbID Hc Hne Hs Hinv) as Hout.
  unfold finish in Hout. rewrite !fill_douban_id in *.
  destruct (Store.save_movie _ db) as [saved db'].
  exact Hout.
Qed.

Lemma set_ID_same m : Movie.set_ID (Movie.ID m) m = m.
Proof. by destruct m. Qed.

Lemma save_movie_fst m db :
  exists k, fst (Store.save_movie m db) = Movie.set_ID k m
            /\ (Movie.ID m <> 0 -> k = Movie.ID m).
Proof.
  unfold Store.save_movie.
  destruct (Z.eqb_spec (Movie.ID m) 0) as [E|E].
  - eexists. split; [reflexivity|done].
  - exists (Movie.ID m). rewrite set_ID_same. by case_match.
Qed.

(** What one call does to the fields the claims speak of. *)
Lemma enrich_fields w m db m' db' ev :
  enrichMovieRatings json_Marshal w m db = (m', db', ev) ->
  ((Movie.TMDBRating m =? 0)%float = false -> Movie.TMDBRating m' = Movie.TMDBRating m)
  /\ Movie.DoubanRating m' = Movie.DoubanRating m
  /\ (Movie.TMDBID m <> 0 -> Movie.TMDBID m' = Movie.TMDBID m)
  /\ (Movie.IMDBID m <> "" -> Movie.IMDBID m' <> "")
  /\ (asked_omdb ev = false ->
      Movie.IMDBRating m' = Movie.IMDBRating m /\ Movie.IMDBID m' = Movie.IMDBID m)
  /\ Movie.Status m' = Movie.Status m
  /\ Movie.TitleJP m' = Movie.TitleJP m
  /\ Movie.CuratorNote m' = Movie.CuratorNote m
  /\ (Movie.ID m <> 0 -> Movie.ID m' = Movie.ID m).
Proof.
  intros E. pose proof (enrich_cases w m db) as Hout. rewrite E in Hout.
  inversion Hout as [ | | tmdbID m1 imdbID Hc Hne Hid Hinv Hsave]; subst;
    try (repeat split; auto; fail).
  destruct (save_movie_fst (finish w imdbID m1) db) as (k & Hk & Hkid).
  destruct (Store.save_movie _ db) as [saved db0]. simpl in Hk.
  simplify_eq/=.
  destruct Hinv as (Hi & Hs & Hn & Hd & Hii & Hir & Hti & Htj & Hr).
  assert (Movie.TMDBID m <> 0 -> Movie.TMDBID m1 = Movie.TMDBID m) as Htid.
  { intros Hz. rewrite Hti. by destruct (Z.eqb_spec (Movie.TMDBID m) 0). }
  assert (forall (A : Type) (f : Movie.t -> A),
             (forall v, f (Movie.set_TMDBID v m) = f m) ->
             f (if Movie.TMDBID m =? 0 then Movie.set_TMDBID tmdbID m else m) = f m)
    as Hpre.
  { intros A f Hf. by destruct (Movie.TMDBID m =? 0). }
  rewrite (Hpre _ Movie.ID) in Hi by done.
  rewrite (Hpre _ Movie.Status) in Hs by done.
  rewrite (Hpre _ Movie.CuratorNote) in Hn by done.
  rewrite (Hpre _ Movie.DoubanRating) in Hd by done.
  rewrite (Hpre _ Movie.IMDBID) in Hii by done.
  rewrite (Hpre _ Movie.IMDBRating) in Hir by done.
  rewrite (Hpre _ Movie.TitleJP) in Htj by done.
  rewrite (Hpre _ Movie.TMDBRating) in Hr by done.
  unfold finish, fill_douban, release_fallback, fill_imdb.
  change (douban_wanted _) with false. cbv iota.
  split; [|split; [|split; [|split; [|split; [intros Hask; split|]]]]];
    [| | | | | |repeat split].
  - intros Hnz. rewrite <- (Hr Hnz). by repeat case_match.
  - rewrite <- Hd. by repeat case_match.
  - intros Hz. rewrite <- (Htid Hz). by repeat case_match.
  - intros Hset. rewrite <- Hii in Hset.
    case_bool_decide as Hcap; simpl; repeat case_match; simpl; done.
  - rewrite <- Hir. unfold asked_omdb in Hask. rewrite !existsb_app in Hask.
    case_bool_decide; simpl in *;
      [by repeat case_match | done].
  - rewrite <- Hii. unfold asked_omdb in Hask. rewrite !existsb_app in Hask.
    case_bool_decide; simpl in *;
      [by repeat case_match | done].
  - rewrite <- Hs. by repeat case_match.
  - rewrite <- (Htj Hne). by repeat case_match.
  - rewrite <- Hn. by repeat case_match.
  - intros Hz. rewrite <- Hi in Hz |- *.
    assert (Movie.ID (finish w imdbID m1) = Movie.ID m1) as Hfid.
    { unfold finish, fill_douban, release_fallback, fill_imdb.
      by repeat case_match. }
    unfold finish, fill_douban, release_fallback, fill_imdb in Hkid, Hfid.
    change (douban_wanted _) with false in Hkid, Hfid. cbv iota in Hkid, Hfid.
    simpl. rewrite Hkid; [done|]. by rewrite Hfid.
Qed.


Lemma reaches_details_true w m :
  reaches_details w m = true ->
  complete m = false
  /\ TrimSpace (Movie.TitleJP m) <> ""
  /\ searchTmdbID w (TrimSpace (Movie.TitleJP m)) <> 0.
Proof.
  unfold reaches_details. intros H.
  apply andb_true_iff in H as [H Hs]. apply andb_true_iff in H as [Hc Ht].
  apply negb_true_iff in Hc, Ht, Hs.
  apply bool_decide_eq_false in Ht. by apply Z.eqb_neq in Hs.
Qed.

(** Only the call that reaches the detail requests writes to the store. *)
Lemma persisted_reaches w m db :
  persisted (snd (enrichMovieRatings json_Marshal w m db)) = reaches_details w m.
Proof.
  unfold reaches_details.
  destruct (enrich_ways w m db) as [[-> [Hc|Ht]]|[[-> (Hc & Ht & Hs)]|(Hc & Ht & Hs)]];
    cbn [snd].
  - by rewrite Hc.
  - by rewrite (bool_decide_eq_true_2 _ Ht), andb_false_r.
  - by rewrite Hs, andb_false_r.
  - rewrite Hc, (bool_decide_eq_false_2 _ Ht), (proj2 (Z.eqb_neq _ _) Hs).
    rewrite (enrich_saved w m db Hc Ht Hs). cbn [snd].
    unfold persisted. rewrite !existsb_app. cbn [existsb].
    by rewrite !orb_true_r.
Qed.

(** The id the language loop ends with: the one it started with, or the
    first one offered. *)
Lemma detail_loop_imdb w tmdbID ls : forall st,
  snd (fold_left (detail_step json_Marshal w tmdbID) ls st)
  = if bool_decide (snd st = "")
    then default "" (head (omap (offered_imdb w tmdbID) ls))
    else snd st.
Proof.
  induction ls as [|lang ls IH]; intros [m0 id0]; cbn [fold_left snd].
  - by case_bool_decide.
  - rewrite IH. cbn [omap list_omap].
    unfold detail_step, offered_imdb, capture_imdb. cbn [fst snd].
    destruct (tmdb_detail w tmdbID lang) as [data|]; cbn [snd].
    + destruct (bool_decide (lang = "zh-CN") || bool_decide (lang = "en-US"));
        cbn [andb]; [|done].
      destruct (decide (id0 = "")) as [->|Hid].
      * rewrite (bool_decide_eq_true_2 ("" = "")) by done.
        by case_bool_decide.
      * by rewrite !(bool_decide_eq_false_2 (id0 = "")).
    + by destruct (_ || _).
Qed.

Lemma save_movie_IMDB m db :
  Movie.IMDBID (fst (Store.save_movie m db)) = Movie.IMDBID m
  /\ Movie.IMDBRating (fst (Store.save_movie m db)) = Movie.IMDBRating m.
Proof.
  destruct (save_movie_fst m db) as (k & -> & _). by destruct m.
Qed.

(** What one call does to the IMDb id and rating. *)
Lemma enrich_imdb w m db :
  let m' := fst (fst (enrichMovieRatings json_Marshal w m db)) in
  (reaches_details w m = true -> captured_imdb w m <> "" ->
   Movie.IMDBID m' = captured_imdb w m
   /\ Movie.IMDBRating m' = fetchImdbRating w (captured_imdb w m))
  /\ (reaches_details w m = false \/ captured_imdb w m = "" ->
      Movie.IMDBID m' = Movie.IMDBID m
      /\ Movie.IMDBRating m' = Movie.IMDBRating m).
Proof.
  cbv zeta. unfold reaches_details.
  destruct (enrich_ways w m db) as [[-> [Hc|Ht]]|[[-> (Hc & Ht & Hs)]|(Hc & Ht & Hs)]];
    cbn [fst].
  - rewrite Hc. split; [done|done].
  - rewrite (bool_decide_eq_true_2 _ Ht), andb_false_r. split; [done|done].
  - rewrite Hs. rewrite andb_false_r. split; [done|done].
  - rewrite Hc, (bool_decide_eq_false_2 _ Ht), (proj2 (Z.eqb_neq _ _) Hs).
    cbn [negb andb].
    rewrite (enrich_saved w m db Hc Ht Hs). cbn [fst].
    destruct (save_movie_IMDB
                (finish w
                   (snd (fold_left
                           (detail_step json_Marshal w
                              (searchTmdbID w (TrimSpace (Movie.TitleJP m))))
                           langs
                           (if Movie.TMDBID m =? 0
                            then Movie.set_TMDBID
                                   (searchTmdbID w (TrimSpace (Movie.TitleJP m))) m
                            else m, "")))
                   (fst (fold_left
                           (detail_step json_Marshal w
                              (searchTmdbID w (TrimSpace (Movie.TitleJP m))))
                           langs
                           (if Movie.TMDBID m =? 0
                            then Movie.set_TMDBID
                                   (searchTmdbID w (TrimSpace (Movie.TitleJP m))) m
                            else m, ""))))
                db) as [-> ->].
    rewrite detail_loop_imdb. cbn [snd].
    rewrite (bool_decide_eq_true_2 ("" = "")) by done.
    fold (captured_imdb w m).
    pose proof (detail_loop_inv w (searchTmdbID w (TrimSpace (Movie.TitleJP m)))
                  _ langs
                  (if Movie.TMDBID m =? 0
                   then Movie.set_TMDBID
                          (searchTmdbID w (TrimSpace (Movie.TitleJP m))) m
                   else m, "") (loop_inv_refl _)) as Hinv.
    cbn [fst] in Hinv.
    destruct Hinv as (_ & _ & _ & _ & Hii & Hir & _).
    assert (forall (A : Type) (f : Movie.t -> A) v,
               (f (Movie.set_TMDBID v m) = f m) ->
               f (if Movie.TMDBID m =? 0 then Movie.set_TMDBID v m else m) = f m)
      as Hpre.
    { intros A f v Hf. by destruct (Movie.TMDBID m =? 0). }
    rewrite (Hpre _ Movie.IMDBID) in Hii by done.
    rewrite (Hpre _ Movie.IMDBRating) in Hir by done.
    unfold finish, fill_douban, release_fallback, fill_imdb.
    change (douban_wanted _) with false. cbv iota.
    split.
    + intros _ Hcap. rewrite (bool_decide_eq_false_2 _ Hcap). cbn [negb].
      by repeat case_match.
    + intros [?|Hcap]; [done|]. rewrite Hcap.
      rewrite (bool_decide_eq_true_2 ("" = "")) by done. cbn [negb].
      rewrite <- Hii, <- Hir. by repeat case_match.
Qed.

(** The id a call captures depends on the record through its title
    only, which no call changes. *)
Lemma captured_imdb_title w m m' :
  Movie.TitleJP m' = Movie.TitleJP m -> captured_imdb w m' = captured_imdb w m.
Proof. unfold captured_imdb. by intros ->. Qed.

(** Calls that capture no id leave the IMDb id and rating as they are. *)
Lemma enrich_all_imdb ws : forall m db,
  Forall (fun w => captured_imdb w m = "") ws ->
  Movie.IMDBID (fst (enrich_all json_Marshal ws m db)) = Movie.IMDBID m
  /\ Movie.IMDBRating (fst (enrich_all json_Marshal ws m db)) = Movie.IMDBRating m.
Proof.
  unfold enrich_all.
  induction ws as [|w ws IH]; intros m db Hws; cbn [fold_left fst snd]; [done|].
  apply Forall_cons in Hws as [Hw Hws].
  pose proof (enrich_imdb w m db) as [_ Hsame]. cbv zeta in Hsame.
  destruct (Hsame (or_intror Hw)) as [Hi Hr].
  destruct (enrichMovieRatings json_Marshal w m db) as [[m' db'] ev] eqn:E.
  cbn [fst] in Hi, Hr.
  apply enrich_fields in E as (_ & _ & _ & _ & _ & _ & Ht & _).
  rewrite <- Hi, <- Hr. apply IH.
  eapply Forall_impl; [exact Hws|]. intros w' Hw'. cbv beta in Hw' |- *.
  by rewrite (captured_imdb_title w' m m' Ht).
Qed.

Lemma ratings_kept f ws : forall m db,
  f <> Rating_IMDB ->
  (rating f m =? 0)%float = false ->
  rating f (fst (enrich_all json_Marshal ws m db)) = rating f m.
Proof.
  unfold enrich_all.
  induction ws as [|w ws IH]; intros m db Hf Hnz; simpl; [done|].
  destruct (enrichMovieRatings json_Marshal w m db) as [[m' db'] ev] eqn:E.
  apply enrich_fields in E as (Ht & Hd & _).
  assert (rating f m' = rating f m) as Hstep.
  { destruct f; simpl in *; [by apply Ht | done | done]. }
  rewrite <- Hstep. apply IH; [done|]. by rewrite Hstep.
Qed.

Lemma ids_kept f ws : forall m db,
  id_is_set f m -> id_survives f m (fst (enrich_all json_Marshal ws m db)).
Proof.
  unfold enrich_all.
  induction ws as [|w ws IH]; intros m db Hset; simpl.
  - by destruct f.
  - destruct (enrichMovieRatings json_Marshal w m db) as [[m' db'] ev] eqn:E.
    apply enrich_fields in E as (_ & _ & Ht & Hi & _).
    destruct f; simpl in *.
    + rewrite <- (Ht Hset). apply (IH m' db'). simpl. by rewrite (Ht Hset).
    + apply (IH m' db'). simpl. by apply Hi.
Qed.

(** C2, as amended.  First-writer-wins holds for [TMDBRating] and for
    [DoubanRating] (Douban being switched off): once such a field is
    non-zero, no sequence of later calls of [enrichMovieRatings] changes
    it, whatever the outside world answers.  [IMDBRating] is not
    protected, and what happens to it is decided by the IMDb id the call
    captures: a call that reaches the detail requests and captures an id
    sets [IMDBRating] to what the OMDb lookup of that id returns, whatever
    the field held; a call that captures none, and any sequence of such
    calls, leaves [IMDBRating] as it is. *)
Theorem ratings_first_writer_wins :
  (forall f ws m db,
      f <> Rating_IMDB ->
      (rating f m =? 0)%float = false ->
      rating f (fst (enrich_all json_Marshal ws m db)) = rating f m)
  /\ (forall w m db,
         reaches_details w m = true -> captured_imdb w m <> "" ->
         Movie.IMDBRating (fst (fst (enrichMovieRatings json_Marshal w m db)))
         = fetchImdbRating w (captured_imdb w m))
  /\ (forall w m db,
         reaches_details w m = false \/ captured_imdb w m = "" ->
         Movie.IMDBRating (fst (fst (enrichMovieRatings json_Marshal w m db)))
         = Movie.IMDBRating m)
  /\ (forall ws m db,
         Forall (fun w => captured_imdb w m = "") ws ->
         Movie.IMDBRating (fst (enrich_all json_Marshal ws m db))
         = Movie.IMDBRating m).
Proof.
  split_and!.
  - intros f ws m db. apply ratings_kept.
  - intros w m db Hr Hc. by destruct (proj1 (enrich_imdb w m db) Hr Hc).
  - intros w m db H. by destruct (proj2 (enrich_imdb w m db) H).
  - intros ws m db H. by destruct (enrich_all_imdb ws m db H).
Qed.

(** C9, as amended.  Once [TMDBID] is non-zero no sequence of later calls
    changes it.  [IMDBID], once non-empty, stays non-empty, but is not
    kept: a call that reaches the detail requests and captures an IMDb id
    from the Chinese or the English answer makes that id the [IMDBID] of
    the record, whatever it was; a call that captures none, and any
    sequence of such calls, leaves [IMDBID] as it is. *)
Theorem external_ids_survive :
  (forall f ws m db,
      id_is_set f m -> id_survives f m (fst (enrich_all json_Marshal ws m db)))
  /\ (forall w m db,
         reaches_details w m = true -> captured_imdb w m <> "" ->
         Movie.IMDBID (fst (fst (enrichMovieRatings json_Marshal w m db)))
         = captured_imdb w m)
  /\ (forall w m db,
         reaches_details w m = false \/ captured_imdb w m = "" ->
         Movie.IMDBID (fst (fst (enrichMovieRatings json_Marshal w m db)))
         = Movie.IMDBID m)
  /\ (forall ws m db,
         Forall (fun w => captured_imdb w m = "") ws ->
         Movie.IMDBID (fst (enrich_all json_Marshal ws m db)) = Movie.IMDBID m).
Proof.
  split_and!.
  - intros f ws m db. apply ids_kept.
  - intros w m db Hr Hc. by destruct (proj1 (enrich_imdb w m db) Hr Hc).
  - intros w m db H. by destruct (proj2 (enrich_imdb w m db) H).
  - intros ws m db H. by destruct (enrich_all_imdb ws m db H).
Qed.

(** C4.  A record with a Chinese and an English title, a positive TMDB
    rating and a non-zero release date makes [enrichMovieRatings] return at
    once: the record and the store are unchanged, and nothing was asked of
    the outside world or written. *)
Theorem enrich_complete_record_untouched w m db :
  Movie.TitleCN m <> "" ->
  Movie.TitleEN m <> "" ->
  (0 <? Movie.TMDBRating m)%float = true ->
  IsZero (Movie.ReleaseDate m) = false ->
  enrichMovieRatings json_Marshal w m db = (m, db, []).
Proof.
  intros Hcn Hen Hr Hd. unfold enrichMovieRatings, complete.
  rewrite !bool_decide_eq_false_2 by done. by rewrite Hr, Hd.
Qed.

End EnrichFacts.

(** ** The release date *)

Section ReleaseFacts.
Import GoStrings GoTime.
Variable json_Marshal : list Tmdb.castOut -> string.

Lemma digits_app n : forall acc s y r t,
  digits n acc s = Some (y, r) -> digits n acc (s ++ t) = Some (y, r ++ t).
Proof.
  induction n as [|n IH]; intros acc s y r t H; simpl in *.
  - by simplify_eq.
  - destruct s as [|c s]; [done|]. simpl.
    destruct (isDigit c); [|done]. by apply IH.
Qed.

Lemma Parse_january_first s year :
  four_digit_year s = Some year ->
  Parse true (s ++ "-01-01") = Some (Date year 1 1).
Proof.
  unfold four_digit_year. intros H.
  destruct (digits 4 0 s) as [[y r]|] eqn:E; [|done].
  destruct r; [|done]. simplify_eq.
  unfold Parse. rewrite (digits_app _ _ _ _ _ "-01-01" E). reflexivity.
Qed.

Lemma digits_range n : forall acc s y r,
  0 <= acc -> digits n acc s = Some (y, r) -> 0 <= y.
Proof.
  induction n as [|n IH]; intros acc s y r Hacc H; simpl in *.
  - by simplify_eq.
  - destruct s as [|c s]; [done|].
    destruct (isDigit c) eqn:Hd; [|done].
    apply IH in H; [done|].
    unfold isDigit in Hd. apply andb_true_iff in Hd as [Hd _]. apply Z.leb_le in Hd. lia.
Qed.

Lemma Date_january_first_not_zero year :
  0 <= year -> year <> 1 -> IsZero (Date year 1 1) = false.
Proof.
  intros H0 H1. unfold IsZero, Date, midnight_utc, civil_day, days_before_year,
    days_before_month, day_ns, second_ns. simpl abs_ns.
  apply Z.eqb_neq.
  replace (nth (Z.to_nat (1 - 1)) [0; 31; 59; 90; 120; 151; 181; 212; 243; 273; 304; 334] 0) with 0 by reflexivity.
  rewrite andb_false_r.
  assert (365 * (year - 1) + (year - 1) / 4 - (year - 1) / 100 + (year - 1) / 400 <> 0);
    [|lia].
  Z.div_mod_to_equations. lia.
Qed.

Lemma release_fallback_sets m year :
  IsZero (Movie.ReleaseDate m) = true ->
  four_digit_year (Movie.Year m) = Some year ->
  release_fallback m = Movie.set_ReleaseDate (Date year 1 1) m.
Proof.
  intros Hz Hy. unfold release_fallback. rewrite Hz.
  rewrite (Parse_january_first _ _ Hy).
  case_bool_decide as E; [|done]. by rewrite E in Hy.
Qed.

Lemma release_fallback_year m : Movie.Year (release_fallback m) = Movie.Year m.
Proof. unfold release_fallback. by repeat case_match. Qed.

Ltac field_kept :=
  intros;
  unfold fill_rating, fill_synopsis, fill_poster, fill_backdrop, fill_release,
    fill_release_date, fill_year, fill_runtime, fill_genre, fill_director,
    fill_cast, fill_title, fill_imdb;
  repeat case_match; simplify_eq; try reflexivity; try congruence.

(** The record the caller sees is the one step 4 leaves, under the key
    the store gives it. *)
Lemma enrich_after_fallback w m db :
  reaches_details w m = true ->
  exists k,
    fst (fst (enrichMovieRatings json_Marshal w m db))
    = Movie.set_ID k (release_fallback (before_fallback json_Marshal w m)).
Proof.
  intros Hr. apply reaches_details_true in Hr as (Hc & Ht & Hs).
  rewrite (enrich_saved json_Marshal w m db Hc Ht Hs). cbn [fst].
  unfold finish. rewrite fill_douban_id.
  destruct (save_movie_fst
              (release_fallback (before_fallback json_Marshal w m)) db)
    as (k & Hk & _).
  exists k. exact Hk.
Qed.

Lemma apply_detail_Year lang data m :
  Movie.Year m <> "" ->
  Movie.Year (apply_detail json_Marshal lang data m) = Movie.Year m.
Proof.
  intros Hy. unfold apply_detail.
  assert (forall x, Movie.Year (fill_title lang data x) = Movie.Year x) as -> by field_kept.
  assert (forall x, Movie.Year (fill_cast json_Marshal lang data x) = Movie.Year x) as -> by field_kept.
  assert (forall x, Movie.Year (fill_director data x) = Movie.Year x) as -> by field_kept.
  assert (forall x, Movie.Year (fill_genre data x) = Movie.Year x) as -> by field_kept.
  assert (forall x, Movie.Year (fill_runtime data x) = Movie.Year x) as -> by field_kept.
  assert (forall x, Movie.Year (fill_backdrop data x) = Movie.Year x) as Hb by field_kept.
  assert (forall x, Movie.Year (fill_poster data x) = Movie.Year x) as Hp by field_kept.
  assert (forall x, Movie.Year (fill_synopsis data x) = Movie.Year x) as Hs by field_kept.
  assert (forall x, Movie.Year (fill_rating data x) = Movie.Year x) as Hr by field_kept.
  assert (forall x, Movie.Year x <> "" -> Movie.Year (fill_release data x) = Movie.Year x)
    as Hrel.
  { intros x Hx. unfold fill_release, fill_release_date, fill_year.
    rewrite (bool_decide_eq_false_2 _ Hx). cbn [andb].
    by repeat case_match. }
  rewrite Hrel; rewrite Hb, Hp, Hs, Hr; done.
Qed.

Lemma apply_detail_ReleaseDate lang data m :
  Parse true (Tmdb.ReleaseDate data) = None ->
  Movie.ReleaseDate (apply_detail json_Marshal lang data m) = Movie.ReleaseDate m.
Proof.
  intros Hp. unfold apply_detail.
  assert (forall x, Movie.ReleaseDate (fill_title lang data x) = Movie.ReleaseDate x) as -> by field_kept.
  assert (forall x, Movie.ReleaseDate (fill_cast json_Marshal lang data x) = Movie.ReleaseDate x) as -> by field_kept.
  assert (forall x, Movie.ReleaseDate (fill_director data x) = Movie.ReleaseDate x) as -> by field_kept.
  assert (forall x, Movie.ReleaseDate (fill_genre data x) = Movie.ReleaseDate x) as -> by field_kept.
  assert (forall x, Movie.ReleaseDate (fill_runtime data x) = Movie.ReleaseDate x) as -> by field_kept.
  assert (forall x, Movie.ReleaseDate (fill_release data x) = Movie.ReleaseDate x) as ->.
  { intros x. unfold fill_release, fill_release_date, fill_year. rewrite Hp.
    by repeat case_match. }
  assert (forall x, Movie.ReleaseDate (fill_backdrop data x) = Movie.ReleaseDate x) as -> by field_kept.
  assert (forall x, Movie.ReleaseDate (fill_poster data x) = Movie.ReleaseDate x) as -> by field_kept.
  assert (forall x, Movie.ReleaseDate (fill_synopsis data x) = Movie.ReleaseDate x) as -> by field_kept.
  field_kept.
Qed.

(** A year the record has, and a date no answer replaces, pass the
    language loop. *)
Lemma detail_loop_release w tmdbID ls : forall st,
  Movie.Year (fst st) <> "" ->
  (forall lang data, tmdb_detail w tmdbID lang = Some data ->
                     Parse true (Tmdb.ReleaseDate data) = None) ->
  Movie.Year (fst (fold_left (detail_step json_Marshal w tmdbID) ls st))
  = Movie.Year (fst st)
  /\ Movie.ReleaseDate (fst (fold_left (detail_step json_Marshal w tmdbID) ls st))
     = Movie.ReleaseDate (fst st).
Proof.
  induction ls as [|lang ls IH]; intros st Hy Hd; cbn [fold_left]; [done|].
  unfold detail_step at 2 4.
  destruct (tmdb_detail w tmdbID lang) as [data|] eqn:E; [|by apply IH].
  destruct (IH (apply_detail json_Marshal lang data (fst st),
                capture_imdb lang data (snd st))) as [-> ->]; cbn [fst].
  - by rewrite apply_detail_Year.
  - done.
  - by rewrite apply_detail_Year, (apply_detail_ReleaseDate _ _ _ (Hd _ _ E)).
Qed.

Lemma before_fallback_dateless w m :
  Movie.Year m <> "" -> dateless w m ->
  Movie.Year (before_fallback json_Marshal w m) = Movie.Year m
  /\ Movie.ReleaseDate (before_fallback json_Marshal w m) = Movie.ReleaseDate m.
Proof.
  intros Hy Hd. unfold before_fallback. cbv zeta.
  assert (forall x, Movie.Year (fill_imdb w
                      (snd (fold_left
                              (detail_step json_Marshal w
                                 (searchTmdbID w (TrimSpace (Movie.TitleJP m))))
                              langs
                              (if Movie.TMDBID m =? 0
                               then Movie.set_TMDBID
                                      (searchTmdbID w (TrimSpace (Movie.TitleJP m))) m
                               else m, ""))) x) = Movie.Year x) as -> by field_kept.
  assert (forall x, Movie.ReleaseDate (fill_imdb w
                      (snd (fold_left
                              (detail_step json_Marshal w
                                 (searchTmdbID w (TrimSpace (Movie.TitleJP m))))
                              langs
                              (if Movie.TMDBID m =? 0
                               then Movie.set_TMDBID
                                      (searchTmdbID w (TrimSpace (Movie.TitleJP m))) m
                               else m, ""))) x) = Movie.ReleaseDate x) as -> by field_kept.
  destruct (detail_loop_release w (searchTmdbID w (TrimSpace (Movie.TitleJP m))) langs
              (if Movie.TMDBID m =? 0
               then Movie.set_TMDBID (searchTmdbID w (TrimSpace (Movie.TitleJP m))) m
               else m, "")) as [-> ->]; cbn [fst].
  - by destruct (Movie.TMDBID m =? 0).
  - exact Hd.
  - by destruct (Movie.TMDBID m =? 0).
Qed.

Lemma four_digit_year_range s year : four_digit_year s = Some year -> 0 <= year.
Proof.
  unfold four_digit_year. intros Hy.
  destruct (digits 4 0 s) as [[y r]|] eqn:Hd; [|done].
  destruct r; [|done]. simplify_eq. by eapply digits_range.
Qed.

(** C5, as amended.  Step 4 turns a zero [ReleaseDate] next to a [Year] of
    exactly four digits into January 1 of that year and keeps [Year].
    The calls that reach the write are those that reach the detail
    requests.  In such a call, when the record comes to step 4 with a
    zero [ReleaseDate] and a four-digit [Year], the record the call
    returns has January 1 of that year as its [ReleaseDate], and the same
    [Year]; a date that is set when step 4 is reached is returned as it
    is.  In particular a record that enters the call with a four-digit
    [Year] and no date, when no answer carries a date that parses, comes
    back with January 1 of its year.  Hence after a call that reaches the
    write, a four-digit [Year] other than 0001 implies a non-zero
    [ReleaseDate]. *)
Theorem release_date_fallback :
  (forall m year,
      IsZero (Movie.ReleaseDate m) = true ->
      four_digit_year (Movie.Year m) = Some year ->
      Movie.ReleaseDate (release_fallback m) = Date year 1 1
      /\ Movie.Year (release_fallback m) = Movie.Year m)
  /\ (forall w m db,
         persisted (snd (enrichMovieRatings json_Marshal w m db))
         = reaches_details w m)
  /\ (forall w m db year,
         reaches_details w m = true ->
         IsZero (Movie.ReleaseDate (before_fallback json_Marshal w m)) = true ->
         four_digit_year (Movie.Year (before_fallback json_Marshal w m)) = Some year ->
         Movie.ReleaseDate (fst (fst (enrichMovieRatings json_Marshal w m db)))
         = Date year 1 1
         /\ Movie.Year (fst (fst (enrichMovieRatings json_Marshal w m db)))
            = Movie.Year (before_fallback json_Marshal w m))
  /\ (forall w m db,
         reaches_details w m = true ->
         IsZero (Movie.ReleaseDate (before_fallback json_Marshal w m)) = false ->
         Movie.ReleaseDate (fst (fst (enrichMovieRatings json_Marshal w m db)))
         = Movie.ReleaseDate (before_fallback json_Marshal w m))
  /\ (forall w m db year,
         reaches_details w m = true ->
         IsZero (Movie.ReleaseDate m) = true ->
         four_digit_year (Movie.Year m) = Some year ->
         dateless w m ->
         Movie.ReleaseDate (fst (fst (enrichMovieRatings json_Marshal w m db)))
         = Date year 1 1
         /\ Movie.Year (fst (fst (enrichMovieRatings json_Marshal w m db)))
            = Movie.Year m)
  /\ (forall w m db m' db' ev year,
        enrichMovieRatings json_Marshal w m db = (m', db', ev) ->
        persisted ev = true ->
        four_digit_year (Movie.Year m') = Some year ->
        year <> 1 ->
        IsZero (Movie.ReleaseDate m') = false).
Proof.
  assert (forall w m db year,
             reaches_details w m = true ->
             IsZero (Movie.ReleaseDate (before_fallback json_Marshal w m)) = true ->
             four_digit_year (Movie.Year (before_fallback json_Marshal w m)) = Some year ->
             Movie.ReleaseDate (fst (fst (enrichMovieRatings json_Marshal w m db)))
             = Date year 1 1
             /\ Movie.Year (fst (fst (enrichMovieRatings json_Marshal w m db)))
                = Movie.Year (before_fallback json_Marshal w m)) as Hrun.
  { intros w m db year Hr Hz Hy.
    destruct (enrich_after_fallback w m db Hr) as [k ->].
    rewrite (release_fallback_sets _ year Hz Hy).
    by destruct (before_fallback json_Marshal w m). }
  split_and!.
  - intros m year Hz Hy. rewrite (release_fallback_sets m year Hz Hy). done.
  - intros w m db. apply persisted_reaches.
  - exact Hrun.
  - intros w m db Hr Hz.
    destruct (enrich_after_fallback w m db Hr) as [k ->].
    unfold release_fallback. rewrite Hz. cbn [andb].
    by destruct (before_fallback json_Marshal w m).
  - intros w m db year Hr Hz Hy Hd.
    assert (Movie.Year m <> "") as Hne by (by intros E; rewrite E in Hy).
    destruct (before_fallback_dateless w m Hne Hd) as [Ey Ed].
    rewrite <- Ey. apply Hrun; [done| |]; by rewrite ?Ey, ?Ed.
  - intros w m db m' db' ev year E Hp Hy Hne.
    pose proof (persisted_reaches json_Marshal w m db) as Hr.
    rewrite E in Hr. cbn [snd] in Hr. rewrite Hp in Hr. symmetry in Hr.
    destruct (enrich_after_fallback w m db Hr) as [k Hk].
    rewrite E in Hk. cbn [fst] in Hk. subst m'.
    assert (forall x, Movie.Year (Movie.set_ID k x) = Movie.Year x) as HY
        by (by intros []).
    assert (forall x, Movie.ReleaseDate (Movie.set_ID k x) = Movie.ReleaseDate x) as HD
        by (by intros []).
    rewrite HY, release_fallback_year in Hy. rewrite HD.
    destruct (IsZero (Movie.ReleaseDate (before_fallback json_Marshal w m))) eqn:Hz.
    + rewrite (release_fallback_sets _ year Hz Hy).
      assert (forall d x, Movie.ReleaseDate (Movie.set_ReleaseDate d x) = d) as ->
          by (by intros ? []).
      apply Date_january_first_not_zero; [|done].
      by eapply four_digit_year_range.
    + unfold release_fallback. by rewrite Hz.
Qed.


End ReleaseFacts.

(** ** Scraped text *)

Section TextFacts.
Import GoStrings Scrape.

Lemma append_cons c (s t : string) : (String c s ++ t = String c (s ++ t))%string.
Proof. reflexivity. Qed.

Lemma append_empty_l (s : string) : ("" ++ s)%string = s.
Proof. reflexivity. Qed.

Lemma append_empty_r s : (s ++ "")%string = s.
Proof. induction s as [|c s IH]; [done|]. by rewrite append_cons, IH. Qed.

Lemma append_assoc (s t u : string) : ((s ++ t) ++ u = s ++ (t ++ u))%string.
Proof. induction s as [|c s IH]; [done|]. by rewrite !append_cons, IH. Qed.

Lemma HasPrefix_length p : forall s,
  HasPrefix s p = true -> (String.length p <= String.length s)%nat.
Proof.
  induction p as [|a p IH]; intros s H; [simpl; lia|].
  destruct s as [|b s]; [done|]. cbn [HasPrefix] in H.
  apply andb_true_iff in H as [_ H]. apply IH in H. simpl. lia.
Qed.

Lemma HasPrefix_split p : forall s,
  HasPrefix s p = true -> s = (p ++ drop (String.length p) s)%string.
Proof.
  induction p as [|a p IH]; intros [|b s] H; try done.
  cbn [HasPrefix] in H. apply andb_true_iff in H as [Hab H].
  apply Ascii.eqb_eq in Hab as ->.
  rewrite append_cons. cbn [String.length drop]. f_equal. by apply IH.
Qed.

Lemma HasPrefix_app p : forall x y,
  HasPrefix x p = true -> HasPrefix (x ++ y) p = true.
Proof.
  induction p as [|a p IH]; intros [|b x] y H; try done.
  rewrite append_cons. cbn [HasPrefix] in *.
  apply andb_true_iff in H as [-> H]. by rewrite (IH _ _ H).
Qed.

Lemma HasPrefix_take n : forall s p,
  HasPrefix (take n s) p = true -> HasPrefix s p = true.
Proof.
  induction n as [|n IH]; intros s p H.
  - destruct p; [by destruct s|]. by destruct s.
  - destruct s as [|c s]; [done|]. destruct p as [|a p]; [done|].
    simpl in *. apply andb_true_iff in H as [-> H]. simpl. by apply IH.
Qed.

Lemma take_drop n : forall s, s = take n s ++ drop n s.
Proof.
  induction n as [|n IH]; intros s; [done|].
  destruct s as [|c s]; [done|].
  change (String c s = String c (take n s ++ drop n s)%string).
  f_equal. apply IH.
Qed.

Lemma Contains_take n : forall s p,
  Contains (take n s) p = true -> Contains s p = true.
Proof.
  induction n as [|n IH]; intros s p H.
  - destruct p; [by destruct s|done].
  - destruct s as [|c s]; [done|]. simpl in H.
    apply orb_true_iff in H as [H|H].
    + apply (HasPrefix_take (S n) (String c s)) in H. simpl in *. by rewrite H.
    + apply IH in H. simpl. rewrite H. apply orb_true_r.
Qed.

Lemma separator_cases (P : string -> Prop) :
  P "～" -> P " " -> forall sep, sep ∈ separators -> P sep.
Proof.
  intros H1 H2 sep Hsep.
  repeat (apply elem_of_cons in Hsep as [->|Hsep]; [done|]).
  by apply elem_of_nil in Hsep.
Qed.

Lemma existsb_separators_false s :
  existsb (HasPrefix s) separators = false ->
  forall sep, sep ∈ separators -> HasPrefix s sep = false.
Proof.
  intros E sep Hsep. apply not_true_is_false. intros Hp.
  assert (existsb (HasPrefix s) separators = true); [|congruence].
  apply existsb_exists. exists sep. split; [by apply list_elem_of_In|done].
Qed.

Lemma IndexAny_None text :
  IndexAny text separators = None ->
  forall sep, sep ∈ separators -> Contains text sep = false.
Proof.
  induction text as [|c text IH]; intros H.
  - by apply separator_cases.
  - cbn [IndexAny] in H.
    destruct (existsb (HasPrefix (String c text)) separators) eqn:E; [done|].
    destruct (IndexAny text separators); [done|].
    intros sep Hsep. cbn [Contains].
    by rewrite (existsb_separators_false _ E sep Hsep), (IH eq_refl sep Hsep).
Qed.

Lemma IndexAny_Some text : forall idx,
  IndexAny text separators = Some idx ->
  (forall sep, sep ∈ separators -> Contains (take idx text) sep = false)
  /\ existsb (HasPrefix (drop idx text)) separators = true.
Proof.
  induction text as [|c text IH]; intros idx H; [done|].
  cbn [IndexAny] in H.
  destruct (existsb (HasPrefix (String c text)) separators) eqn:E.
  - simplify_eq. split; [|done]. by apply separator_cases.
  - destruct (IndexAny text separators) as [i|]; [|done].
    simpl in H. injection H as <-.
    destruct (IH i eq_refl) as [Hfree Hsep]. split; [|exact Hsep].
    intros sep Hin. cbn [take Contains]. rewrite (Hfree sep Hin), orb_false_r.
    apply not_true_is_false. intros Hp.
    apply (HasPrefix_take (S i) (String c text)) in Hp.
    by rewrite (existsb_separators_false _ E sep Hin) in Hp.
Qed.

Lemma cut_before_first_separator text :
  before_first_separator text
    (match IndexAny text separators with
     | Some idx => take idx text
     | None => text
     end).
Proof.
  destruct (IndexAny text separators) as [idx|] eqn:E.
  - apply IndexAny_Some in E as [Hfree Hsep].
    exists (drop idx text). split; [apply take_drop|]. split; [done|].
    right. apply existsb_exists in Hsep as (sep & Hin & Hp).
    exists sep. split; [by apply list_elem_of_In|done].
  - exists "". split; [by rewrite append_empty_r|].
    split; [by apply IndexAny_None|by left].
Qed.

(** C6, as amended.  For every span text, trimmed of white space, the
    start time is the text before the first fullwidth tilde or space, and
    the entry is kept exactly when that start has at least 4 bytes and
    contains a colon; the examples of the specification come out as
    stated. *)
Theorem span_start_time_spec :
  (forall spText, exists start,
      before_first_separator (TrimSpace spText) start
      /\ span_start_time spText
         = if (4 <=? len start) && Contains start ":" then Some start else None)
  /\ span_start_time "18:05～20:00" = Some "18:05"
  /\ span_start_time "11:00" = Some "11:00"
  /\ span_start_time "" = None
  /\ (forall spText,
        Contains (TrimSpace spText) ":" = false -> span_start_time spText = None).
Proof.
  assert (forall spText,
    span_start_time spText
    = let start := match IndexAny (TrimSpace spText) separators with
                   | Some idx => take idx (TrimSpace spText)
                   | None => TrimSpace spText
                   end in
      if (4 <=? len start) && Contains start ":" then Some start else None) as Hcode.
  { intros spText. unfold span_start_time. fold separators.
    case_bool_decide as E.
    - rewrite E. reflexivity.
    - cbv zeta. rewrite Z.leb_antisym.
      by destruct (len _ <? 4), (Contains _ ":"). }
  split; [|split; [|split; [|split]]]; try reflexivity.
  - intros spText. eexists. split; [apply cut_before_first_separator|].
    apply Hcode.
  - intros spText Hno. rewrite Hcode. cbv zeta.
    destruct (IndexAny (TrimSpace spText) separators) as [idx|].
    + destruct (Contains (take idx _) ":") eqn:E.
      * apply Contains_take in E. congruence.
      * by rewrite andb_false_r.
    + by rewrite Hno, andb_false_r.
Qed.


(** C6 as stated fails twice.  The cut is made in the trimmed text: a
    cell text that begins with a space has nothing before its first
    space, and its start time is kept all the same.  And the length is
    counted in bytes: a start of three characters, two of them fullwidth
    digits, is kept. *)
Lemma span_start_time_trims_and_counts_bytes :
  before_first_separator " 18:05" ""
  /\ span_start_time " 18:05" = Some "18:05"
  /\ before_first_separator "９:５" "９:５"
  /\ characters "９:５" = 3
  /\ span_start_time "９:５" = Some "９:５"
  /\ ~ (forall spText, span_start_time spText = spec_span_start_time spText).
Proof.
  split_and!; try reflexivity.
  - exists " 18:05". split_and!; [done| |].
    + by apply separator_cases.
    + right. exists " ". split; [|done]. apply list_elem_of_In. simpl. tauto.
  - exists "". split_and!; [done| |by left].
    by apply separator_cases.
  - intros H. specialize (H "９:５"). vm_compute in H. discriminate.
Qed.

(** A three-byte rune whose first byte differs from the other two cannot
    begin inside a text and run into a following copy of itself. *)
Lemma HasPrefix_before_copy a b c (x tail : string) :
  a <> b -> a <> c -> x <> "" ->
  let p := String a (String b (String c "")) in
  HasPrefix (x ++ p ++ tail) p = true -> HasPrefix x p = true.
Proof.
  intros Hab Hac Hx p.
  destruct x as [|x1 [|x2 [|x3 x]]]; [done| | |]; subst p;
    rewrite ?append_cons, ?append_empty_l; cbn [HasPrefix].
  - rewrite (proj2 (Ascii.eqb_neq b a)) by done. by rewrite andb_false_r.
  - rewrite (proj2 (Ascii.eqb_neq c a)) by done. by rewrite !andb_false_r.
  - done.
Qed.

Lemma open_paren_bytes : "（" = String (byte 239) (String (byte 188) (String (byte 136) "")).
Proof. reflexivity. Qed.

Lemma close_paren_bytes : "）" = String (byte 239) (String (byte 188) (String (byte 137) "")).
Proof. reflexivity. Qed.

Lemma remove_groups_skip x : forall y,
  remove_groups (String.length x) (x ++ y) = remove_groups 0 y.
Proof.
  induction x as [|c x IH]; intros y; [done|].
  rewrite append_cons. cbn [String.length remove_groups]. apply IH.
Qed.

Lemma group_end_found ann rest :
  Contains ann "）" = false ->
  Contains ann (String line_feed "") = false ->
  group_end (ann ++ "）" ++ rest) = Some (String.length ann + 3)%nat.
Proof.
  induction ann as [|c ann IH]; intros Hclose Hlf; [done|].
  cbn [Contains] in Hclose, Hlf.
  apply orb_false_iff in Hclose as [Hc1 Hc2], Hlf as [Hl1 Hl2].
  assert (HasPrefix (String c ann ++ "）" ++ rest) "）" = false) as Hp.
  { apply not_true_is_false. intros Hp.
    rewrite close_paren_bytes in Hp, Hc1.
    apply HasPrefix_before_copy in Hp; [congruence|done..]. }
  specialize (IH Hc2 Hl2).
  set (t := ("）" ++ rest)%string) in *.
  rewrite append_cons in *. cbn [group_end].
  cbn [HasPrefix] in Hl1. rewrite andb_true_r in Hl1.
  rewrite Hp, Ascii.eqb_sym, Hl1. by rewrite IH.
Qed.

Lemma remove_groups_prefix base tail :
  Contains base "（" = false ->
  remove_groups 0 (base ++ "（" ++ tail) = (base ++ remove_groups 0 ("（" ++ tail))%string.
Proof.
  induction base as [|c base IH]; intros Hopen; [done|].
  cbn [Contains] in Hopen. apply orb_false_iff in Hopen as [Ho1 Ho2].
  assert (HasPrefix (String c base ++ "（" ++ tail) "（" = false) as Hp.
  { apply not_true_is_false. intros Hp.
    rewrite open_paren_bytes in Hp, Ho1.
    apply HasPrefix_before_copy in Hp; [congruence|done..]. }
  specialize (IH Ho2).
  set (t := ("（" ++ tail)%string) in *.
  rewrite !append_cons in *. cbn [remove_groups].
  by rewrite Hp, IH.
Qed.

Lemma remove_groups_none s :
  Contains s "（" = false -> remove_groups 0 s = s.
Proof.
  induction s as [|c s IH]; intros Hopen; [done|].
  cbn [Contains] in Hopen. apply orb_false_iff in Hopen as [Ho1 Ho2].
  cbn [remove_groups]. by rewrite Ho1, IH.
Qed.

Lemma remove_groups_open x :
  remove_groups 0 ("（" ++ x)
  = match group_end x with
    | Some n => remove_groups (2 + n) (String (byte 188) (String (byte 136) x))
    | None => String (byte 239) (remove_groups 0 (String (byte 188) (String (byte 136) x)))
    end.
Proof. reflexivity. Qed.

Lemma length_append (s t : string) :
  String.length (s ++ t) = (String.length s + String.length t)%nat.
Proof.
  induction s as [|c s IH]; [done|]. rewrite append_cons. simpl. by rewrite IH.
Qed.

Lemma remove_groups_group ann rest :
  Contains ann "）" = false ->
  Contains ann (String line_feed "") = false ->
  remove_groups 0 ("（" ++ ann ++ "）" ++ rest) = remove_groups 0 rest.
Proof.
  intros Hclose Hlf.
  rewrite remove_groups_open, (group_end_found ann rest Hclose Hlf).
  rewrite <- (remove_groups_skip (String (byte 188) (String (byte 136) (ann ++ "）"))) rest).
  rewrite !append_cons, append_assoc. f_equal.
  cbn [String.length]. rewrite length_append. simpl. lia.
Qed.

Lemma remove_groups_kept_bytes x :
  remove_groups 0 (String (byte 188) (String (byte 136) x))
  = String (byte 188) (String (byte 136) (remove_groups 0 x)).
Proof. reflexivity. Qed.

(** A closing parenthesis does not run over a line feed. *)
Lemma HasPrefix_close_line x r :
  HasPrefix (x ++ String line_feed r) "）" = HasPrefix x "）".
Proof.
  rewrite close_paren_bytes.
  destruct x as [|x1 [|x2 [|x3 x]]]; rewrite ?append_cons, ?append_empty_l;
    cbn [HasPrefix]; reflexivity.
Qed.

Lemma group_end_unclosed tail : unclosed tail -> group_end tail = None.
Proof.
  intros (line & rest & -> & Hclose & Hlf & Hrest).
  induction line as [|c line IH].
  - rewrite append_empty_l. destruct Hrest as [->|Hp]; [done|].
    destruct rest as [|r rest]; [done|].
    cbn [HasPrefix] in Hp. rewrite andb_true_r in Hp.
    apply Ascii.eqb_eq in Hp as <-. reflexivity.
  - cbn [Contains] in Hclose, Hlf.
    apply orb_false_iff in Hclose as [Hc1 Hc2], Hlf as [Hl1 Hl2].
    specialize (IH Hc2 Hl2).
    assert (HasPrefix (String c line ++ rest) "）" = false) as Hp.
    { destruct Hrest as [->|Hr]; [by rewrite append_empty_r|].
      destruct rest as [|r rest]; [done|].
      cbn [HasPrefix] in Hr. rewrite andb_true_r in Hr.
      apply Ascii.eqb_eq in Hr as <-. by rewrite HasPrefix_close_line. }
    rewrite append_cons in *. cbn [group_end].
    cbn [HasPrefix] in Hl1. rewrite andb_true_r in Hl1.
    by rewrite Hp, Ascii.eqb_sym, Hl1, IH.
Qed.

Lemma group_end_cases tail :
  match group_end tail with
  | Some _ => closed tail
  | None => unclosed tail
  end.
Proof.
  induction tail as [|c tail IH].
  - exists "", "". by split_and!; [| | |left].
  - cbn [group_end].
    destruct (HasPrefix (String c tail) "）") eqn:Hp.
    { exists "", (drop 3 (String c tail)).
      split_and!; [|done|done]. apply (HasPrefix_split "）" _ Hp). }
    destruct (Ascii.eqb c line_feed) eqn:Hc.
    { apply Ascii.eqb_eq in Hc as ->.
      exists "", (String line_feed tail). split_and!; [done..|]. by right. }
    assert (forall x, HasPrefix (String c x) (String line_feed "") = false) as Hnl.
    { intros x. cbn [HasPrefix]. by rewrite Ascii.eqb_sym, Hc. }
    assert (forall x y, HasPrefix (String c (x ++ y)) "）" = false ->
                        HasPrefix (String c x) "）" = false) as Hnp.
    { intros x y H. apply not_true_is_false. intros Hx.
      apply (HasPrefix_app _ _ y) in Hx. rewrite append_cons in Hx. congruence. }
    destruct (group_end tail) as [n|]; cbn [fmap option_fmap option_map].
    + destruct IH as (ann & rest & -> & Hclose & Hlf).
      exists (String c ann), rest. split_and!; [done| |].
      * cbn [Contains]. by rewrite (Hnp _ _ Hp), Hclose.
      * cbn [Contains]. by rewrite Hnl, Hlf.
    + destruct IH as (line & rest & -> & Hclose & Hlf & Hrest).
      exists (String c line), rest. split_and!; [done| | |done].
      * cbn [Contains]. by rewrite (Hnp _ _ Hp), Hclose.
      * cbn [Contains]. by rewrite Hnl, Hlf.
Qed.

(** The first opening parenthesis of a text that has one. *)
Lemma first_open s :
  Contains s "（" = true ->
  exists base tail, s = (base ++ "（" ++ tail)%string /\ Contains base "（" = false.
Proof.
  induction s as [|c s IH]; intros H; [done|].
  destruct (HasPrefix (String c s) "（") eqn:Hp.
  - exists "", (drop 3 (String c s)). split; [|done].
    apply (HasPrefix_split "（" _ Hp).
  - cbn [Contains] in H. rewrite Hp in H. cbn [orb] in H.
    destruct (IH H) as (base & tail & -> & Hb).
    exists (String c base), tail. split; [done|].
    cbn [Contains]. rewrite Hb, orb_false_r.
    apply not_true_is_false. intros Hx.
    apply (HasPrefix_app _ _ ("（" ++ tail)) in Hx. rewrite append_cons in Hx.
    congruence.
Qed.

Lemma remove_groups_unclosed base tail :
  Contains base "（" = false ->
  unclosed tail ->
  remove_groups 0 (base ++ "（" ++ tail) = (base ++ "（" ++ remove_groups 0 tail)%string.
Proof.
  intros Hb Hu.
  rewrite (remove_groups_prefix _ _ Hb), remove_groups_open,
    (group_end_unclosed _ Hu), remove_groups_kept_bytes.
  reflexivity.
Qed.

(** C7, as amended.  The normalized name is the raw name without any of
    its fullwidth-parenthesized groups, for every raw name.  A name
    without an opening parenthesis is kept.  Otherwise look at the first
    opening parenthesis and at what follows it: when a closing
    parenthesis follows with no line feed before it, the text from the
    opening parenthesis to the nearest closing one is dropped, wherever
    the group stands, a trailing one included; when none does, the
    opening parenthesis is kept; either way the same is done to the text
    after it.  No other case exists. *)
Theorem nameJP_removes_every_group :
  (forall rawName, rawName <> "" -> nameJP rawName = Some (remove_groups 0 rawName))
  /\ (forall base ann rest,
        Contains base "（" = false ->
        Contains ann "）" = false ->
        Contains ann (String line_feed "") = false ->
        remove_groups 0 (base ++ "（" ++ ann ++ "）" ++ rest)
        = (base ++ remove_groups 0 rest)%string)
  /\ (forall s, Contains s "（" = false -> remove_groups 0 s = s)
  /\ (forall base tail,
        Contains base "（" = false ->
        unclosed tail ->
        remove_groups 0 (base ++ "（" ++ tail)
        = (base ++ "（" ++ remove_groups 0 tail)%string)
  /\ (forall s,
        Contains s "（" = false
        \/ exists base tail,
             s = (base ++ "（" ++ tail)%string
             /\ Contains base "（" = false
             /\ (closed tail \/ unclosed tail))
  /\ nameJP "新宿ピカデリー（新宿区）" = Some "新宿ピカデリー".
Proof.
  split_and!.
  - intros rawName Hne. unfold nameJP. by rewrite bool_decide_eq_false_2.
  - intros base ann rest Hb Hc Hl.
    by rewrite remove_groups_prefix, remove_groups_group.
  - apply remove_groups_none.
  - apply remove_groups_unclosed.
  - intros s. destruct (Contains s "（") eqn:E; [right|by left].
    destruct (first_open s E) as (base & tail & -> & Hb).
    exists base, tail. split_and!; [done..|].
    pose proof (group_end_cases tail) as H.
    destruct (group_end tail); [by left|by right].
  - reflexivity.
Qed.

(** C7 as stated fails: a parenthesized group inside the name is removed
    although the name has no trailing annotation. *)
Lemma nameJP_inner_group :
  let rawName := "シネマ（旧館）本館" in
  strip_trailing_annotation rawName = rawName
  /\ nameJP rawName = Some "シネマ本館"
  /\ nameJP rawName <> Some (strip_trailing_annotation rawName).
Proof.
  split; [reflexivity|]. split; [reflexivity|].
  intros H. apply (f_equal (fun o => bool_decide (o = Some "シネマ本館"))) in H.
  vm_compute in H. discriminate.
Qed.

End TextFacts.

(** ** Ingestion *)

Section IngestionFacts.
Import GoStrings GoTime.
Variable json_Marshal : list Tmdb.castOut -> string.

Lemma next_id_above ids : forall i, i ∈ ids -> i < Store.next_id ids.
Proof.
  unfold Store.next_id. induction ids as [|j ids IH]; intros i Hi.
  - by apply elem_of_nil in Hi.
  - apply elem_of_cons in Hi as [->|Hi]; simpl; [lia|].
    specialize (IH i Hi). lia.
Qed.

Lemma next_id_pos ids : 0 < Store.next_id ids.
Proof.
  unfold Store.next_id. induction ids as [|j ids IH]; simpl; lia.
Qed.

Lemma wf_store_keys db db' :
  title_keys db' = title_keys db -> wf_store db -> wf_store db'.
Proof.
  unfold wf_store, title_keys. intros Hk [Hnd Hpos].
  assert (Movie.ID <$> movies db' = Movie.ID <$> movies db) as Hid.
  { apply (f_equal (fmap fst)) in Hk.
    by rewrite <- !list_fmap_compose in Hk. }
  split; [by rewrite Hid|].
  apply Forall_forall. intros m Hm.
  assert (Movie.ID m ∈ Movie.ID <$> movies db) as Hin.
  { rewrite <- Hid. by apply list_elem_of_fmap_2. }
  apply list_elem_of_fmap in Hin as (m0 & -> & Hm0).
  by eapply Forall_forall in Hpos.
Qed.

Lemma same_key_same_row (l : list Movie.t) r r' :
  NoDup (Movie.ID <$> l) -> r ∈ l -> r' ∈ l -> Movie.ID r = Movie.ID r' -> r = r'.
Proof.
  induction l as [|x l IH]; intros Hnd Hr Hr' Hid; [by apply elem_of_nil in Hr|].
  rewrite fmap_cons in Hnd. apply NoDup_cons in Hnd as [Hx Hnd].
  apply elem_of_cons in Hr as [->|Hr], Hr' as [->|Hr']; [done| | |by apply IH].
  - exfalso. apply Hx. rewrite Hid. by apply list_elem_of_fmap_2.
  - exfalso. apply Hx. rewrite <- Hid. by apply list_elem_of_fmap_2.
Qed.

(** Rewriting the row of [m]'s key by [m] keeps every column in which [m]
    agrees with that row. *)
Lemma fmap_rewrite_row {A} (f : Movie.t -> A) (l : list Movie.t) m m0 :
  NoDup (Movie.ID <$> l) -> m0 ∈ l -> Movie.ID m = Movie.ID m0 -> f m = f m0 ->
  f <$> ((fun r => if Movie.ID r =? Movie.ID m then m else r) <$> l) = f <$> l.
Proof.
  intros Hnd Hm0 Hid Hf. rewrite <- list_fmap_compose.
  apply list_fmap_ext. intros i r Hr. simpl.
  destruct (Z.eqb_spec (Movie.ID r) (Movie.ID m)) as [E|E]; [|done].
  rewrite Hf. f_equal. apply (same_key_same_row l); [done..| |congruence].
  by eapply list_elem_of_lookup_2.
Qed.

Lemma create_movie_spec movie db :
  wf_store db ->
  let '(created, db') := Store.create_movie movie db in
  wf_store db'
  /\ created ∈ movies db'
  /\ 0 < Movie.ID created
  /\ created = Movie.set_ID (Movie.ID created) movie
  /\ movies db' = (movies db ++ [created])%list
  /\ cinemas db' = cinemas db
  /\ schedules db' = schedules db.
Proof.
  intros [Hnd Hpos]. unfold Store.create_movie, wf_store. simpl.
  set (k := Store.next_id (Movie.ID <$> movies db)).
  repeat split; try done.
  - rewrite fmap_app. apply NoDup_app. split; [done|]. split.
    + intros i Hi ->%list_elem_of_singleton.
      apply next_id_above in Hi. fold k in Hi. destruct movie; simpl in *. lia.
    + apply NoDup_singleton.
  - apply Forall_app. split; [done|]. apply Forall_singleton.
    destruct movie; simpl. apply next_id_pos.
  - apply elem_of_app. right. by apply list_elem_of_singleton.
  - apply next_id_pos.
Qed.


Lemma find_app_Some {A} (f : A -> bool) l l' x :
  List.find f l = Some x -> List.find f (l ++ l') = Some x.
Proof.
  induction l as [|y l IH]; intros H; [done|]. simpl in *.
  destruct (f y); [done|]. by apply IH.
Qed.

Lemma find_app_None {A} (f : A -> bool) l l' :
  List.find f l = None -> List.find f (l ++ l') = List.find f l'.
Proof.
  induction l as [|y l IH]; intros H; [done|]. simpl in *.
  destruct (f y); [done|]. by apply IH.
Qed.

Lemma find_elem {A} (f : A -> bool) l x :
  List.find f l = Some x -> x ∈ l /\ f x = true.
Proof.
  intros [H1 H2]%find_some. split; [by apply list_elem_of_In|done].
Qed.

(** The row [First] finds for a title is a matter of title_keys and titles. *)
Lemma first_movie_id_keys titleJP db :
  first_movie_id titleJP db
  = fst <$> List.find (fun k => bool_decide (snd k = titleJP)) (title_keys db).
Proof.
  unfold first_movie_id, Store.first_movie, title_keys.
  induction (movies db) as [|m l IH]; [done|]. simpl.
  destruct (bool_decide (Movie.TitleJP m = titleJP)); [done|]. apply IH.
Qed.

Lemma first_movie_id_extends titleJP db db' id :
  title_keys db `prefix_of` title_keys db' ->
  first_movie_id titleJP db = Some id -> first_movie_id titleJP db' = Some id.
Proof.
  intros [k Hk]. rewrite !first_movie_id_keys, Hk.
  destruct (List.find _ (title_keys db)) as [x|] eqn:E; [|done].
  by rewrite (find_app_Some _ _ _ _ E).
Qed.

Lemma has_slot_extends db db' s :
  schedules db `prefix_of` schedules db' -> has_slot db s -> has_slot db' s.
Proof.
  unfold has_slot. intros [k ->] H. rewrite existsb_app, H. done.
Qed.

Lemma extends_refl db : extends db db.
Proof. by repeat split. Qed.

Lemma extends_trans db1 db2 db3 :
  extends db1 db2 -> extends db2 db3 -> extends db1 db3.
Proof.
  intros (Hc & Hk & Hs) (Hc' & Hk' & Hs'). repeat split.
  - congruence.
  - by etrans.
  - by etrans.
Qed.

Lemma section_covered_extends cinema sec db db' :
  extends db db' -> section_covered cinema sec db -> section_covered cinema sec db'.
Proof.
  intros (_ & Hk & Hs) [Ht|(id & Hid & Hslots)]; [by left|right].
  exists id. split; [by eapply first_movie_id_extends|].
  eapply Forall_impl; [exact Hslots|]. intros s. by apply has_slot_extends.
Qed.

Lemma first_cinema_extends nameJP db db' :
  extends db db' -> Store.first_cinema nameJP db' = Store.first_cinema nameJP db.
Proof. intros (Hc & _). unfold Store.first_cinema. by rewrite Hc. Qed.

Lemma page_covered_extends page db db' :
  extends db db' -> page_covered page db -> page_covered page db'.
Proof.
  intros Hext Hcov nameJP cinema Hn Hc.
  rewrite (first_cinema_extends _ _ _ Hext) in Hc.
  eapply Forall_impl; [exact (Hcov nameJP cinema Hn Hc)|].
  intros sec. by apply section_covered_extends.
Qed.

(** *** The movie of a section *)

Lemma ensure_movie_spec titleJP db :
  wf_store db ->
  let '(movie, db') := ensure_movie titleJP db in
  wf_store db'
  /\ movie ∈ movies db'
  /\ 0 < Movie.ID movie
  /\ first_movie_id titleJP db' = Some (Movie.ID movie)
  /\ extends db db'
  /\ (forall id, first_movie_id titleJP db = Some id -> db' = db)
  /\ (db' = db \/ statuses db' = (statuses db ++ [(Movie.ID movie, "showing")])%list).
Proof.
  intros Hwf. unfold ensure_movie, first_movie_id.
  destruct (Store.first_movie titleJP db) as [movie|] eqn:E.
  - pose proof (find_elem _ _ _ E) as [Hin Ht]. split_and!; try done.
    + destruct Hwf as [_ Hpos]. by eapply Forall_forall in Hpos.
    + by rewrite E.
    + by left.
  - pose proof (create_movie_spec
                  (Movie.set_Status "showing" (Movie.set_TitleJP titleJP Movie.empty))
                  db Hwf) as Hc.
    destruct (Store.create_movie _ db) as [created db'].
    destruct Hc as (Hwf' & Hin & Hpos & Hcr & Hm & Hci & Hs).
    assert (Movie.TitleJP created = titleJP) as Ht by (by rewrite Hcr).
    assert (Movie.Status created = "showing") as Hst by (by rewrite Hcr).
    split_and!; try done.
    + unfold Store.first_movie in *. rewrite Hm, (find_app_None _ _ _ E). simpl.
      by rewrite bool_decide_eq_true_2.
    + unfold extends, title_keys. rewrite Hci, Hm, Hs, fmap_app.
      split_and!; [done|by eexists|done].
    + right. unfold statuses. rewrite Hm, fmap_app. simpl. by rewrite Hst.
Qed.


(** *** Writing a movie that is in the store *)

Lemma save_movie_existing m m0 db :
  wf_store db -> m0 ∈ movies db ->
  Movie.ID m = Movie.ID m0 ->
  Movie.TitleJP m = Movie.TitleJP m0 ->
  Movie.Status m = Movie.Status m0 ->
  let db' := snd (Store.save_movie m db) in
  title_keys db' = title_keys db /\ statuses db' = statuses db
  /\ cinemas db' = cinemas db /\ schedules db' = schedules db.
Proof.
  intros [Hnd Hpos] Hin Hid Ht Hs. unfold Store.save_movie.
  assert (0 < Movie.ID m) as Hp.
  { rewrite Hid. by eapply Forall_forall in Hpos. }
  rewrite (proj2 (Z.eqb_neq _ _)) by lia.
  assert (existsb (fun r => Movie.ID r =? Movie.ID m) (movies db) = true) as ->.
  { apply existsb_exists. exists m0. split; [by apply list_elem_of_In|].
    apply Z.eqb_eq. done. }
  simpl. unfold title_keys, statuses. simpl.
  split_and!; try done.
  - apply (fmap_rewrite_row _ _ m m0); [done..|]. by rewrite Hid, Ht.
  - apply (fmap_rewrite_row _ _ m m0); [done..|]. by rewrite Hid, Hs.
Qed.

Lemma update_status_spec movie newStatus db :
  let db' := Store.update_status movie newStatus db in
  title_keys db' = title_keys db /\ cinemas db' = cinemas db /\ schedules db' = schedules db.
Proof.
  unfold Store.update_status. destruct (Movie.ID movie =? 0); [done|].
  unfold title_keys. simpl. split_and!; try done.
  rewrite <- list_fmap_compose. apply list_fmap_ext. intros i r _. simpl.
  by destruct (Movie.ID r =? Movie.ID movie).
Qed.

Lemma derive_incremental_spec today dates movie db :
  let db' := snd (Status.derive_incremental today dates movie db) in
  title_keys db' = title_keys db /\ cinemas db' = cinemas db /\ schedules db' = schedules db.
Proof.
  unfold Status.derive_incremental.
  destruct (0 <? _); [|done]. case_bool_decide; [done|].
  apply update_status_spec.
Qed.

(** *** Schedule rows *)

Lemma same_slot_refl id s :
  Store.same_slot s
    (Schedule.mk id (Schedule.MovieID s) (Schedule.CinemaID s)
       (Schedule.PlayDate s) (Schedule.StartTime s)) = true.
Proof.
  unfold Store.same_slot. simpl. rewrite !Z.eqb_refl.
  by rewrite !bool_decide_eq_true_2.
Qed.

Lemma first_or_create_spec s db :
  let db' := Store.first_or_create_schedule s db in
  movies db' = movies db /\ cinemas db' = cinemas db
  /\ schedules db `prefix_of` schedules db'
  /\ has_slot db' s
  /\ (has_slot db s -> db' = db).
Proof.
  unfold Store.first_or_create_schedule, has_slot.
  destruct (existsb (Store.same_slot s) (schedules db)) eqn:E.
  - by split_and!.
  - simpl. split_and!; try done.
    + by eexists.
    + rewrite existsb_app. simpl. by rewrite same_slot_refl, orb_true_r.
Qed.

Lemma upsert_all_spec slots : forall db,
  let db' := upsert_all slots db in
  movies db' = movies db /\ cinemas db' = cinemas db
  /\ schedules db `prefix_of` schedules db'
  /\ Forall (has_slot db') slots
  /\ (Forall (has_slot db) slots -> db' = db).
Proof.
  induction slots as [|s slots IH]; intros db; simpl.
  - by split_and!.
  - destruct (first_or_create_spec s db) as (Hm & Hc & Hp & Hs & Hid).
    destruct (IH (Store.first_or_create_schedule s db)) as (Hm' & Hc' & Hp' & Hs' & Hid').
    unfold upsert_all in *. split_and!.
    + congruence.
    + congruence.
    + by etrans.
    + apply Forall_cons. split; [|done]. by eapply has_slot_extends.
    + intros [H1 H2]%Forall_cons. rewrite (Hid H1) in *. by apply Hid'.
Qed.

Lemma spans_upsert movie cinema playDate spans : forall db,
  fold_left
    (fun db spText =>
       match Scrape.span_start_time spText with
       | None => db
       | Some text =>
           Store.first_or_create_schedule
             (Schedule.mk 0 (Movie.ID movie) (Cinema.ID cinema) playDate text) db
       end) spans db
  = upsert_all
      ((fun text => Schedule.mk 0 (Movie.ID movie) (Cinema.ID cinema) playDate text)
         <$> omap Scrape.span_start_time spans) db.
Proof.
  induction spans as [|sp spans IH]; intros db; [done|]. simpl.
  destruct (Scrape.span_start_time sp); simpl; apply IH.
Qed.

Lemma process_cell_spec movie cinema st td :
  process_cell movie cinema st td
  = (cell_date td ∪ fst st,
     upsert_all (cell_slots (Movie.ID movie) (Cinema.ID cinema) td) (snd st)).
Proof.
  unfold process_cell, cell_date, cell_slots.
  destruct (negb _).
  - rewrite union_empty_l_L. by destruct st.
  - destruct (Parse false _) as [playDate|].
    + by rewrite spans_upsert.
    + rewrite union_empty_l_L. by destruct st.
Qed.

Lemma process_cells_spec movie cinema cells : forall st,
  fold_left (process_cell movie cinema) cells st
  = (⋃ (cell_date <$> cells) ∪ fst st,
     upsert_all (cells ≫= cell_slots (Movie.ID movie) (Cinema.ID cinema)) (snd st)).
Proof.
  induction cells as [|td cells IH]; intros st; simpl.
  - rewrite union_empty_l_L. by destruct st.
  - rewrite IH, process_cell_spec. simpl. f_equal.
    + apply set_eq. intros x. rewrite !elem_of_union. tauto.
    + unfold upsert_all. by rewrite fold_left_app.
Qed.


(** *** Enrichment of a movie that is in the store *)

Lemma enrich_store w m db m' db' ev :
  wf_store db -> m ∈ movies db ->
  enrichMovieRatings json_Marshal w m db = (m', db', ev) ->
  Movie.ID m' = Movie.ID m
  /\ Movie.Status m' = Movie.Status m
  /\ title_keys db' = title_keys db /\ statuses db' = statuses db
  /\ cinemas db' = cinemas db /\ schedules db' = schedules db.
Proof.
  intros Hwf Hin E.
  assert (Movie.ID m <> 0) as Hid.
  { destruct Hwf as [_ Hpos]. eapply Forall_forall in Hpos; [|done]. lia. }
  pose proof (enrich_fields json_Marshal w m db m' db' ev E)
    as (_ & _ & _ & _ & _ & Hs & Ht & _ & Hi).
  specialize (Hi Hid).
  pose proof (enrich_cases json_Marshal w m db) as Hout. rewrite E in Hout.
  inversion Hout as [ | | tmdbID m1 imdbID Hc Hne Hnz Hinv Hsave]; subst;
    try (by split_and!).
  destruct (save_movie_fst (finish w imdbID m1) db) as (k & Hk & Hkid).
  destruct (Store.save_movie (finish w imdbID m1) db) as [saved db0] eqn:Es.
  simplify_eq. simpl in Hk.
  assert (Movie.ID (finish w imdbID m1) = Movie.ID m) as Hfi.
  { destruct Hinv as (Hi1 & _). transitivity (Movie.ID m1).
    - unfold finish, fill_douban, release_fallback, fill_imdb.
      by repeat case_match.
    - rewrite Hi1. by case_match. }
  assert (k = Movie.ID (finish w imdbID m1)) as -> by (apply Hkid; congruence).
  rewrite set_ID_same in Hk. subst m'.
  pose proof (save_movie_existing _ m db Hwf Hin Hfi Ht Hs) as Hsave.
  cbv zeta in Hsave. rewrite Es in Hsave. destruct Hsave as (?&?&?&?).
  by split_and!.
Qed.


(** *** One section *)

Lemma process_section_steps w cinema sec db :
  TrimSpace (Page.title sec) <> "" ->
  exists movie db1 movie2 db2 ev,
    ensure_movie (TrimSpace (Page.title sec)) db = (movie, db1)
    /\ enrichMovieRatings json_Marshal w movie db1 = (movie2, db2, ev)
    /\ process_section json_Marshal w cinema sec db
       = snd (Status.derive_incremental (now w) (section_dates sec) movie2
                (upsert_all (section_slots (Movie.ID movie2) (Cinema.ID cinema) sec) db2)).
Proof.
  intros Ht. unfold process_section. rewrite bool_decide_eq_false_2 by done.
  destruct (ensure_movie _ db) as [movie db1].
  destruct (enrichMovieRatings json_Marshal w movie db1) as [[movie2 db2] ev] eqn:E.
  exists movie, db1, movie2, db2, ev. split_and!; [done..|].
  rewrite process_cells_spec. simpl. by rewrite union_empty_r_L.
Qed.

Lemma process_section_extends w cinema sec db :
  wf_store db ->
  let db' := process_section json_Marshal w cinema sec db in
  wf_store db' /\ extends db db' /\ section_covered cinema sec db'.
Proof.
  intros Hwf. destruct (decide (TrimSpace (Page.title sec) = "")) as [Ht|Ht].
  { unfold process_section, section_covered. rewrite bool_decide_eq_true_2 by done.
    split_and!; [done|apply extends_refl|by left]. }
  destruct (process_section_steps w cinema sec db Ht)
    as (movie & db1 & movie2 & db2 & ev & He & Hen & ->).
  pose proof (ensure_movie_spec (TrimSpace (Page.title sec)) db Hwf) as Hspec.
  rewrite He in Hspec. destruct Hspec as (Hwf1 & Hin & Hpos & Hfirst & Hext & _).
  destruct (enrich_store w movie db1 movie2 db2 ev Hwf1 Hin Hen)
    as (Hid & _ & Hk2 & _ & Hc2 & Hs2).
  set (db3 := upsert_all (section_slots (Movie.ID movie2) (Cinema.ID cinema) sec) db2).
  destruct (upsert_all_spec (section_slots (Movie.ID movie2) (Cinema.ID cinema) sec) db2)
    as (Hm3 & Hc3 & Hs3 & Hall & _). fold db3 in Hm3, Hc3, Hs3, Hall.
  destruct (derive_incremental_spec (now w) (section_dates sec) movie2 db3)
    as (Hk4 & Hc4 & Hs4).
  set (db4 := snd (Status.derive_incremental _ _ movie2 db3)) in *.
  assert (title_keys db4 = title_keys db1) as Hk.
  { rewrite Hk4. unfold title_keys. by rewrite Hm3. }
  assert (extends db1 db4) as Hext14.
  { unfold extends. rewrite Hk, Hc4, Hc3, Hc2, Hs4. split_and!; [done..|].
    by rewrite <- Hs2. }
  split_and!.
  - by apply (wf_store_keys db1).
  - by eapply extends_trans.
  - right. exists (Movie.ID movie2). split.
    + rewrite Hid. rewrite !first_movie_id_keys in *. by rewrite Hk.
    + eapply Forall_impl; [exact Hall|]. intros s. apply has_slot_extends.
      by rewrite Hs4.
Qed.

Lemma process_section_covered w cinema sec db :
  wf_store db -> section_covered cinema sec db ->
  let db' := process_section json_Marshal w cinema sec db in
  title_keys db' = title_keys db /\ schedules db' = schedules db.
Proof.
  intros Hwf Hcov. destruct (decide (TrimSpace (Page.title sec) = "")) as [Ht|Ht].
  { unfold process_section. by rewrite bool_decide_eq_true_2 by done. }
  destruct Hcov as [?|(id & Hfirst & Hslots)]; [done|].
  destruct (process_section_steps w cinema sec db Ht)
    as (movie & db1 & movie2 & db2 & ev & He & Hen & ->).
  pose proof (ensure_movie_spec (TrimSpace (Page.title sec)) db Hwf) as Hspec.
  rewrite He in Hspec.
  destruct Hspec as (Hwf1 & Hin & Hpos & Hfirst1 & Hext & Hsame & _).
  rewrite (Hsame id Hfirst) in *. clear Hsame.
  assert (Movie.ID movie = id) as Hmid by congruence.
  destruct (enrich_store w movie db movie2 db2 ev Hwf Hin Hen)
    as (Hid & _ & Hk2 & _ & Hc2 & Hs2).
  assert (upsert_all (section_slots (Movie.ID movie2) (Cinema.ID cinema) sec) db2 = db2)
    as Hnoop.
  { apply upsert_all_spec. rewrite Hid, Hmid.
    eapply Forall_impl; [exact Hslots|]. intros s. unfold has_slot. by rewrite Hs2. }
  rewrite Hnoop.
  destruct (derive_incremental_spec (now w) (section_dates sec) movie2 db2)
    as (Hk4 & Hc4 & Hs4).
  cbv zeta. split; congruence.
Qed.

(** Without a date the statuses of the store stay as the look-up of the
    movie left them. *)
Lemma process_section_no_dates w cinema sec db :
  wf_store db -> section_dates sec = ∅ ->
  statuses (process_section json_Marshal w cinema sec db)
  = statuses (if bool_decide (TrimSpace (Page.title sec) = "") then db
              else snd (ensure_movie (TrimSpace (Page.title sec)) db)).
Proof.
  intros Hwf Hd. case_bool_decide as Ht.
  { unfold process_section. by rewrite bool_decide_eq_true_2 by done. }
  destruct (process_section_steps w cinema sec db Ht)
    as (movie & db1 & movie2 & db2 & ev & He & Hen & ->).
  pose proof (ensure_movie_spec (TrimSpace (Page.title sec)) db Hwf) as Hspec.
  rewrite He in Hspec. destruct Hspec as (Hwf1 & Hin & _).
  destruct (enrich_store w movie db1 movie2 db2 ev Hwf1 Hin Hen)
    as (_ & _ & _ & Hst & _).
  rewrite Hd. unfold Status.derive_incremental. rewrite size_empty.
  change (0 <? Z.of_nat 0) with false. cbv iota. cbn [snd].
  destruct (upsert_all_spec (section_slots (Movie.ID movie2) (Cinema.ID cinema) sec) db2)
    as (Hm3 & _). rewrite He. cbn [snd]. unfold statuses in *. by rewrite Hm3.
Qed.


(** *** Pages and the whole run *)

Lemma process_sections_extends env cinema secs : forall st,
  wf_store (snd st) ->
  let st' :=
    fold_left
      (fun st sec => (S (fst st), process_section json_Marshal (env (fst st)) cinema sec (snd st)))
      secs st in
  wf_store (snd st') /\ extends (snd st) (snd st')
  /\ Forall (fun sec => section_covered cinema sec (snd st')) secs.
Proof.
  induction secs as [|sec secs IH]; intros st Hwf; simpl.
  - split_and!; [done|apply extends_refl|done].
  - destruct (process_section_extends (env (fst st)) cinema sec (snd st) Hwf)
      as (Hwf1 & Hext1 & Hcov1).
    destruct (IH (S (fst st), process_section json_Marshal (env (fst st)) cinema sec (snd st)) Hwf1)
      as (Hwf2 & Hext2 & Hcov2).
    split_and!; [done|by eapply extends_trans|].
    apply Forall_cons. split; [|done]. by eapply section_covered_extends.
Qed.

Lemma process_sections_covered env cinema secs : forall st,
  wf_store (snd st) ->
  Forall (fun sec => section_covered cinema sec (snd st)) secs ->
  let st' :=
    fold_left
      (fun st sec => (S (fst st), process_section json_Marshal (env (fst st)) cinema sec (snd st)))
      secs st in
  title_keys (snd st') = title_keys (snd st) /\ schedules (snd st') = schedules (snd st).
Proof.
  induction secs as [|sec secs IH]; intros st Hwf Hcov; simpl; [done|].
  apply Forall_cons in Hcov as [Hc Hcov].
  destruct (process_section_extends (env (fst st)) cinema sec (snd st) Hwf)
    as (Hwf1 & Hext1 & _).
  destruct (process_section_covered (env (fst st)) cinema sec (snd st) Hwf Hc)
    as (Hk1 & Hs1).
  destruct (IH (S (fst st), process_section json_Marshal (env (fst st)) cinema sec (snd st)))
    as (Hk2 & Hs2); [done| |].
  - eapply Forall_impl; [exact Hcov|]. intros s. by apply section_covered_extends.
  - simpl in *. split; congruence.
Qed.

Lemma process_page_extends env page st :
  wf_store (snd st) ->
  let st' := process_page json_Marshal env st page in
  wf_store (snd st') /\ extends (snd st) (snd st') /\ page_covered page (snd st').
Proof.
  intros Hwf. unfold process_page, page_covered.
  destruct (Scrape.nameJP (Page.page_title page)) as [nameJP|];
    [|split_and!; [done|apply extends_refl|done]].
  destruct (Store.first_cinema nameJP (snd st)) as [cinema|] eqn:Ec.
  - destruct (process_sections_extends env cinema (Page.sections page) st Hwf)
      as (Hwf' & Hext & Hcov).
    split_and!; [done..|].
    intros ? cinema' [= <-] Hc'.
    rewrite (first_cinema_extends _ _ _ Hext) in Hc'. by simplify_eq.
  - split_and!; [done|apply extends_refl|].
    intros ? cinema' [= <-] Hc'. congruence.
Qed.

Lemma process_page_covered env page st :
  wf_store (snd st) -> page_covered page (snd st) ->
  let st' := process_page json_Marshal env st page in
  title_keys (snd st') = title_keys (snd st) /\ schedules (snd st') = schedules (snd st).
Proof.
  intros Hwf Hcov. unfold process_page.
  destruct (Scrape.nameJP (Page.page_title page)) as [nameJP|] eqn:En; [|done].
  destruct (Store.first_cinema nameJP (snd st)) as [cinema|] eqn:Ec; [|done].
  apply process_sections_covered; [done|]. by eapply Hcov.
Qed.

Lemma process_pages_extends env pages : forall st,
  wf_store (snd st) ->
  let st' := fold_left (process_page json_Marshal env) pages st in
  wf_store (snd st') /\ extends (snd st) (snd st')
  /\ Forall (fun page => page_covered page (snd st')) pages.
Proof.
  induction pages as [|page pages IH]; intros st Hwf; simpl.
  - split_and!; [done|apply extends_refl|done].
  - destruct (process_page_extends env page st Hwf) as (Hwf1 & Hext1 & Hcov1).
    destruct (IH (process_page json_Marshal env st page) Hwf1) as (Hwf2 & Hext2 & Hcov2).
    split_and!; [done|by eapply extends_trans|].
    apply Forall_cons. split; [|done]. by eapply page_covered_extends.
Qed.

Lemma process_pages_covered env pages : forall st,
  wf_store (snd st) ->
  Forall (fun page => page_covered page (snd st)) pages ->
  let st' := fold_left (process_page json_Marshal env) pages st in
  title_keys (snd st') = title_keys (snd st) /\ schedules (snd st') = schedules (snd st).
Proof.
  induction pages as [|page pages IH]; intros st Hwf Hcov; simpl; [done|].
  apply Forall_cons in Hcov as [Hc Hcov].
  destruct (process_page_extends env page st Hwf) as (Hwf1 & Hext1 & _).
  destruct (process_page_covered env page st Hwf Hc) as (Hk1 & Hs1).
  destruct (IH (process_page json_Marshal env st page)) as (Hk2 & Hs2); [done| |].
  - eapply Forall_impl; [exact Hcov|]. intros p. by apply page_covered_extends.
  - simpl in *. split; congruence.
Qed.

(** C8.  A second run of the ingestion over the same pages, whatever the
    outside world answers in either run, adds no movie row and no schedule
    row: title_keys and titles of the movies and all schedule rows are those the
    first run left; and a run only appends to the schedule rows it found. *)
Theorem ingestion_idempotent env1 env2 pages db :
  wf_store db ->
  let db1 := syncSchedulesFromEiga json_Marshal env1 pages db in
  let db2 := syncSchedulesFromEiga json_Marshal env2 pages db1 in
  length (movies db2) = length (movies db1)
  /\ title_keys db2 = title_keys db1
  /\ schedules db2 = schedules db1
  /\ schedules db `prefix_of` schedules db1.
Proof.
  intros Hwf db1 db2. unfold syncSchedulesFromEiga in *.
  destruct (process_pages_extends env1 pages (O, db) Hwf) as (Hwf1 & Hext1 & Hcov1).
  fold db1 in Hwf1, Hext1, Hcov1.
  destruct (process_pages_covered env2 pages (O, db1) Hwf1 Hcov1) as (Hk & Hs).
  fold db2 in Hk, Hs. split_and!; [|done|done|by destruct Hext1 as (_ & _ & ?)].
  apply (f_equal length) in Hk. unfold title_keys in Hk. by rewrite !length_fmap in Hk.
Qed.

(** C10.  When a section has no cell with a parseable date, the set of
    dates it collects is empty, the status block leaves the movie and the
    store as they are, and after the section every stored status is what
    the look-up (or creation) of the movie left. *)
Theorem no_dates_no_status_change w cinema sec movie db :
  wf_store db ->
  section_dates sec = ∅ ->
  fst (fold_left (process_cell movie cinema) (Page.cells sec) (∅, db)) = ∅
  /\ Status.derive_incremental (now w) (section_dates sec) movie db = (movie, db)
  /\ statuses (process_section json_Marshal w cinema sec db)
     = statuses (if bool_decide (TrimSpace (Page.title sec) = "") then db
                 else snd (ensure_movie (TrimSpace (Page.title sec)) db)).
Proof.
  intros Hwf Hd. split_and!; [| |by apply process_section_no_dates].
  - rewrite process_cells_spec. simpl. fold (section_dates sec).
    by rewrite Hd, union_empty_r_L.
  - rewrite Hd. unfold Status.derive_incremental. by rewrite size_empty.
Qed.

End IngestionFacts.

(** ** Concrete runs *)

Section Runs.
Import GoStrings GoTime.

Example first_run_creates_rows :
  let db1 := syncSchedulesFromEiga example_json (fun _ => silent_world) [example_page] one_cinema_store in
  Movie.TitleJP <$> movies db1 = ["偽りなき者"]
  /\ Schedule.StartTime <$> schedules db1 = ["18:05"; "11:00"; "11:00"]
  /\ Movie.Status <$> movies db1 = ["showing"].
Proof. vm_compute. done. Qed.

Example dateless_section_dates : section_dates dateless_section = ∅.
Proof. reflexivity. Qed.

(** ** Status derivation at the seven-day bound *)

(** C1 fails on the code.  At 05:00 of 2026-01-01 in Tokyo a movie whose
    only row is for 2026-01-08, seven days ahead, is [incoming] by the rules
    of the specification and [future] by [updateMovieStatusFromSchedules];
    with the clock in UTC the code agrees with the rules, and in a zone west
    of UTC a row eight days ahead can come out as [incoming]. *)
Theorem batch_status_seventh_day_tokyo :
  let today := tokyo_morning in
  let rows := [Schedule.mk 1 1 1 (Date 2026 1 8) "10:00"] in
  local_day today = civil_day 2026 1 1
  /\ play_day <$> rows = [local_day today + 7]
  /\ spec_deriveStatus (local_day today) (play_day <$> rows) = "incoming"
  /\ Status.batch_status today rows = "future"
  /\ Movie.Status <$> movies (Status.updateMovieStatusFromSchedules today
                                (status_store (Date 2026 1 8))) = ["future"]
  /\ Status.batch_status utc_morning rows = "incoming"
  /\ Status.batch_status pacific_evening [Schedule.mk 1 1 1 (Date 2026 1 9) "10:00"]
     = "incoming".
Proof. vm_compute. by split_and!. Qed.

(** C3 fails on the code.  At 05:00 of 2026-01-01 in Tokyo a single date
    seven days ahead yields [showing], not [incoming]; with the clock in UTC
    it yields [incoming]; and at 20:00 in Los Angeles a date eight days
    ahead yields [incoming], not [showing]. *)
Theorem incremental_status_seventh_day_tokyo :
  let today := tokyo_morning in
  local_day today = civil_day 2026 1 1
  /\ Status.incremental_status today [local_day today + 7] = "showing"
  /\ Status.incremental_status utc_morning [local_day today + 7] = "incoming"
  /\ local_day pacific_evening = civil_day 2026 1 1
  /\ Status.incremental_status pacific_evening [local_day pacific_evening + 8]
     = "incoming".
Proof. vm_compute. by split_and!. Qed.

(** ** Enrichment *)

(** C2 as stated fails: a call that captures an IMDb id overwrites a
    non-zero [IMDBRating] with whatever OMDb yields, here 0. *)
Lemma imdb_rating_overwritten :
  ~ (forall f ws m db,
        (rating f m =? 0)%float = false ->
        rating f (fst (enrich_all example_json ws m db)) = rating f m).
Proof.
  intros H.
  specialize (H Rating_IMDB [example_world] rated_movie empty_store eq_refl).
  apply (f_equal (fun x => (x =? 0)%float)) in H. vm_compute in H. discriminate.
Qed.

Lemma ratings_first_writer_wins_witness :
  (Rating_TMDB <> Rating_IMDB
   /\ (rating Rating_TMDB rated_movie =? 0)%float = false
   /\ rating Rating_TMDB (fst (enrich_all example_json [example_world; example_world]
                                 rated_movie empty_store))
      = rating Rating_TMDB rated_movie)
  /\ (reaches_details example_world rated_movie = true
      /\ captured_imdb example_world rated_movie = "tt0000002"
      /\ Movie.IMDBRating
           (fst (fst (enrichMovieRatings example_json example_world
                        rated_movie empty_store)))
         = fetchImdbRating example_world "tt0000002")
  /\ (reaches_details anonymous_world rated_movie = true
      /\ captured_imdb anonymous_world rated_movie = ""
      /\ Movie.IMDBRating
           (fst (fst (enrichMovieRatings example_json anonymous_world
                        rated_movie empty_store)))
         = Movie.IMDBRating rated_movie)
  /\ Movie.IMDBRating
       (fst (enrich_all example_json [anonymous_world; silent_world]
               rated_movie empty_store))
     = Movie.IMDBRating rated_movie.
Proof.
  pose proof (ratings_first_writer_wins example_json) as (Hkept & Hset & Hsame & Hall).
  split_and!.
  - discriminate.
  - reflexivity.
  - apply Hkept; [discriminate|reflexivity].
  - reflexivity.
  - reflexivity.
  - apply (Hset example_world rated_movie empty_store); [reflexivity|discriminate].
  - reflexivity.
  - reflexivity.
  - apply (Hsame anonymous_world rated_movie empty_store). by right.
  - apply (Hall [anonymous_world; silent_world] rated_movie empty_store).
    repeat constructor.
Defined.

(** C9 as stated fails: a non-empty [IMDBID] is replaced by the id the
    detail answer carries. *)
Lemma imdb_id_replaced :
  ~ (forall ws m db,
        (Movie.TMDBID m <> 0 ->
         Movie.TMDBID (fst (enrich_all example_json ws m db)) = Movie.TMDBID m)
        /\ (Movie.IMDBID m <> "" ->
            Movie.IMDBID (fst (enrich_all example_json ws m db)) = Movie.IMDBID m)).
Proof.
  intros H.
  destruct (H [example_world] rated_movie empty_store) as [_ Hi].
  specialize (Hi ltac:(discriminate)). vm_compute in Hi. discriminate.
Qed.

Lemma external_ids_survive_witness :
  (id_is_set External_IMDB rated_movie
   /\ id_survives External_IMDB rated_movie
        (fst (enrich_all example_json [example_world] rated_movie empty_store)))
  /\ (id_is_set External_TMDB rated_movie
      /\ id_survives External_TMDB rated_movie
           (fst (enrich_all example_json [example_world; anonymous_world]
                   rated_movie empty_store)))
  /\ (reaches_details example_world rated_movie = true
      /\ captured_imdb example_world rated_movie = "tt0000002"
      /\ Movie.IMDBID
           (fst (fst (enrichMovieRatings example_json example_world
                        rated_movie empty_store)))
         = "tt0000002")
  /\ (captured_imdb anonymous_world rated_movie = ""
      /\ Movie.IMDBID
           (fst (fst (enrichMovieRatings example_json anonymous_world
                        rated_movie empty_store)))
         = Movie.IMDBID rated_movie)
  /\ Movie.IMDBID
       (fst (enrich_all example_json [anonymous_world; silent_world]
               rated_movie empty_store))
     = Movie.IMDBID rated_movie.
Proof.
  pose proof (external_ids_survive example_json) as (Hkept & Hset & Hsame & Hall).
  split_and!.
  - discriminate.
  - apply (Hkept External_IMDB). discriminate.
  - discriminate.
  - apply (Hkept External_TMDB). discriminate.
  - reflexivity.
  - reflexivity.
  - apply (Hset example_world rated_movie empty_store); [reflexivity|discriminate].
  - reflexivity.
  - apply (Hsame anonymous_world rated_movie empty_store). by right.
  - apply (Hall [anonymous_world; silent_world] rated_movie empty_store).
    repeat constructor.
Defined.

Lemma enrich_complete_record_untouched_witness :
  Movie.TitleCN complete_movie <> ""
  /\ Movie.TitleEN complete_movie <> ""
  /\ (0 <? Movie.TMDBRating complete_movie)%float = true
  /\ IsZero (Movie.ReleaseDate complete_movie) = false
  /\ enrichMovieRatings example_json example_world complete_movie empty_store
     = (complete_movie, empty_store, []).
Proof.
  split; [discriminate|]. split; [discriminate|]. split; [reflexivity|].
  split; [reflexivity|].
  apply enrich_complete_record_untouched; [discriminate|discriminate|reflexivity|reflexivity].
Defined.

(** C5 as stated fails: a release date text that is no date leaves a
    non-empty [Year] and a zero [ReleaseDate] after a run that writes. *)
Lemma year_without_release_date :
  ~ (forall w m db m' db' ev,
        enrichMovieRatings example_json w m db = (m', db', ev) ->
        persisted ev = true ->
        Movie.Year m' <> "" ->
        IsZero (Movie.ReleaseDate m') = false).
Proof.
  intros H.
  set (r := enrichMovieRatings example_json example_world rated_movie empty_store).
  assert (enrichMovieRatings example_json example_world rated_movie empty_store
          = (fst (fst r), snd (fst r), snd r)) as Hr.
  { unfold r. by destruct (enrichMovieRatings _ _ _ _) as [[? ?] ?]. }
  specialize (H _ _ _ _ _ _ Hr).
  assert (IsZero (Movie.ReleaseDate (fst (fst r))) = true) as Hz by reflexivity.
  rewrite H in Hz; [discriminate|reflexivity|].
  assert (Movie.Year (fst (fst r)) = "TBA ") as -> by reflexivity.
  discriminate.
Qed.

Lemma dateless_world_dateless m : dateless dateless_world m.
Proof.
  intros lang data H. cbn in H. case_bool_decide; [|done].
  by injection H as <-.
Qed.

Lemma release_date_fallback_witness :
  Movie.ReleaseDate (release_fallback year_only_movie) = Date 2012 1 1
  /\ (reaches_details year_world rated_movie = true
      /\ Movie.Year rated_movie = ""
      /\ Movie.Year (before_fallback example_json year_world rated_movie) = "2012"
      /\ Movie.ReleaseDate
           (fst (fst (enrichMovieRatings example_json year_world
                        rated_movie empty_store)))
         = Date 2012 1 1)
  /\ (reaches_details dateless_world year_only_movie = true
      /\ Movie.ReleaseDate
           (fst (fst (enrichMovieRatings example_json dateless_world
                        year_only_movie empty_store)))
         = Date 2012 1 1)
  /\ IsZero (Movie.ReleaseDate
               (fst (fst (enrichMovieRatings example_json dateless_world
                            year_only_movie empty_store)))) = false.
Proof.
  pose proof (release_date_fallback example_json)
    as (Hstep & Hwrite & Hrun & Hkeep & Hin & Hset).
  split_and!.
  - apply (Hstep year_only_movie 2012); reflexivity.
  - reflexivity.
  - reflexivity.
  - reflexivity.
  - apply (Hrun year_world rated_movie empty_store 2012); reflexivity.
  - reflexivity.
  - apply (Hin dateless_world year_only_movie empty_store 2012);
      [reflexivity..|apply dateless_world_dateless].
  - set (r := enrichMovieRatings example_json dateless_world year_only_movie empty_store).
    apply (Hset dateless_world year_only_movie
             empty_store (fst (fst r)) (snd (fst r)) (snd r) 2012).
    + unfold r. by destruct (enrichMovieRatings _ _ _ _) as [[? ?] ?].
    + reflexivity.
    + reflexivity.
    + discriminate.
Defined.

(** ** Scraped text *)

Lemma span_start_time_spec_witness :
  Contains (TrimSpace " 1805 ") ":" = false
  /\ Scrape.span_start_time " 1805 " = None.
Proof.
  split; [reflexivity|].
  apply (proj2 (proj2 (proj2 (proj2 span_start_time_spec)))). reflexivity.
Defined.

Lemma nameJP_removes_every_group_witness :
  Scrape.remove_groups 0 ("シネマ" ++ "（" ++ "旧館" ++ "）" ++ "本館")
  = ("シネマ" ++ Scrape.remove_groups 0 "本館")%string
  /\ unclosed "旧館"
  /\ Scrape.remove_groups 0 ("シネマ" ++ "（" ++ "旧館")
     = ("シネマ" ++ "（" ++ Scrape.remove_groups 0 "旧館")%string
  /\ Scrape.nameJP "シネマ（旧館" = Some "シネマ（旧館".
Proof.
  pose proof nameJP_removes_every_group as (_ & Hgroup & _ & Hopen & _).
  assert (unclosed "旧館") as Hu.
  { exists "旧館", "". split_and!; [reflexivity..|by left]. }
  split_and!; [|exact Hu| |reflexivity].
  - apply Hgroup; reflexivity.
  - apply Hopen; [reflexivity|exact Hu].
Defined.

(** ** Ingestion *)

Lemma empty_movies_wf cs ss : wf_store (mkDB cs [] ss).
Proof. split; constructor. Qed.

Lemma ingestion_idempotent_witness :
  wf_store one_cinema_store
  /\ (let db1 := syncSchedulesFromEiga example_json (fun _ => example_world)
                   [example_page] one_cinema_store in
      let db2 := syncSchedulesFromEiga example_json (fun _ => silent_world)
                   [example_page] db1 in
      length (movies db2) = length (movies db1)
      /\ title_keys db2 = title_keys db1
      /\ schedules db2 = schedules db1
      /\ schedules one_cinema_store `prefix_of` schedules db1).
Proof.
  split; [apply empty_movies_wf|].
  apply (ingestion_idempotent example_json). apply empty_movies_wf.
Defined.

Lemma no_dates_no_status_change_witness :
  wf_store one_cinema_store
  /\ section_dates dateless_section = ∅
  /\ statuses (process_section example_json example_world
                 (Cinema.mk 1 "新宿ピカデリー" "" 0%float 0%float "" "")
                 dateless_section one_cinema_store)
     = [(1, "showing")].
Proof.
  split; [apply empty_movies_wf|]. split; [reflexivity|].
  rewrite (proj2 (proj2 (no_dates_no_status_change example_json example_world
                    (Cinema.mk 1 "新宿ピカデリー" "" 0%float 0%float "" "")
                    dateless_section Movie.empty one_cinema_store
                    (empty_movies_wf _ _) eq_refl))).
  reflexivity.
Defined.

(** ** Status derivation with the clock in UTC *)

Lemma batch_status_utc_witness :
  zone utc_morning = 0
  /\ Forall parsed_row [Schedule.mk 1 1 1 (Date 2026 1 8) "10:00"]
  /\ Status.batch_status utc_morning [Schedule.mk 1 1 1 (Date 2026 1 8) "10:00"]
     = spec_deriveStatus (local_day utc_morning)
         (play_day <$> [Schedule.mk 1 1 1 (Date 2026 1 8) "10:00"]).
Proof.
  assert (Forall parsed_row [Schedule.mk 1 1 1 (Date 2026 1 8) "10:00"]) as Hrows.
  { apply Forall_singleton. reflexivity. }
  split; [reflexivity|]. split; [exact Hrows|].
  apply batch_status_utc; [reflexivity|exact Hrows].
Defined.

Lemma incremental_status_utc_witness :
  zone utc_morning = 0
  /\ Status.incremental_status utc_morning [civil_day 2026 1 8; civil_day 2026 1 5]
     = "incoming".
Proof.
  split; [reflexivity|].
  apply (incremental_status_utc utc_morning _ (civil_day 2026 1 5)).
  - reflexivity.
  - right. left.
  - intros d Hd. repeat (apply elem_of_cons in Hd as [->|Hd]; [by vm_compute|]).
    by apply elem_of_nil in Hd.
  - reflexivity.
Defined.

Lemma incremental_status_past_witness :
  Status.incremental_status tokyo_morning [civil_day 2025 12 31; civil_day 2026 1 4]
  = "showing".
Proof.
  apply (incremental_status_past tokyo_morning _ (civil_day 2025 12 31)).
  - left.
  - by vm_compute.
Defined.


End Runs.

(** ** The full-batch pass on the store *)

Section BatchStoreFacts.
Import GoStrings GoTime.

Lemma set_Status_same m : Movie.set_Status (Movie.Status m) m = m.
Proof. by destruct m. Qed.

Lemma set_Status_ID s m : Movie.ID (Movie.set_Status s m) = Movie.ID m.
Proof. by destruct m. Qed.

Lemma set_Status_Status s m : Movie.Status (Movie.set_Status s m) = s.
Proof. by destruct m. Qed.

(** The loop over a part [ms] of the snapshot, on rows [rows]: a row
    whose key is one of [ms] gets its status, the others stay. *)
Lemma batch_loop today cs ss ms : forall rows,
  NoDup (Movie.ID <$> ms) ->
  Forall (fun m => 0 < Movie.ID m) ms ->
  (forall m r, m ∈ ms -> r ∈ rows -> Movie.ID r = Movie.ID m ->
               Movie.Status r = Movie.Status m) ->
  fold_left
    (fun db movie =>
       let schedules := Store.schedules_of (Movie.ID movie) db in
       let newStatus := Status.batch_status today schedules in
       if bool_decide (Movie.Status movie = newStatus) then db
       else Store.update_status movie newStatus db)
    ms (mkDB cs rows ss)
  = mkDB cs
      ((fun r => if bool_decide (Movie.ID r ∈ Movie.ID <$> ms)
                 then Movie.set_Status (batch_status_of today (mkDB cs rows ss) r) r
                 else r) <$> rows)
      ss.
Proof.
  induction ms as [|m ms IH]; intros rows Hnd Hpos Hrow.
  - cbn [fold_left]. f_equal. symmetry. etrans; [|apply (list_fmap_id rows)].
    apply list_fmap_ext. intros i r _. cbn beta.
    rewrite bool_decide_eq_false_2; [done|]. apply not_elem_of_nil.
  - rewrite fmap_cons in Hnd. apply NoDup_cons in Hnd as [Hm Hnd].
    apply Forall_cons in Hpos as [Hp Hpos].
    cbn [fold_left].
    set (db := mkDB cs rows ss).
    set (new := Status.batch_status today (Store.schedules_of (Movie.ID m) db)).
    set (rows1 := (fun r => if Movie.ID r =? Movie.ID m
                            then Movie.set_Status new r else r) <$> rows).
    assert ((if bool_decide (Movie.Status m = new) then db
             else Store.update_status m new db) = mkDB cs rows1 ss) as ->.
    { case_bool_decide as Hs.
      - unfold db, rows1. f_equal. symmetry. etrans; [|apply (list_fmap_id rows)].
        apply list_fmap_ext. intros i r Hr. simpl.
        apply list_elem_of_lookup_2 in Hr.
        destruct (Z.eqb_spec (Movie.ID r) (Movie.ID m)) as [E|E]; [|done].
        rewrite <- Hs, <- (Hrow m r); [by rewrite set_Status_same|left|done|done].
      - unfold Store.update_status. by rewrite (proj2 (Z.eqb_neq _ _)) by lia. }
    rewrite IH; [|done|done|].
    + f_equal. unfold rows1. rewrite <- list_fmap_compose.
      apply list_fmap_ext. intros i r Hr. simpl.
      unfold batch_status_of, Store.schedules_of. simpl. fold new.
      destruct (Z.eqb_spec (Movie.ID r) (Movie.ID m)) as [E|E].
      * rewrite set_Status_ID, E.
        rewrite bool_decide_eq_false_2 by done.
        rewrite bool_decide_eq_true_2 by left. done.
      * destruct (decide (Movie.ID r ∈ Movie.ID <$> ms)) as [Hin|Hin].
        -- rewrite !bool_decide_eq_true_2; [done|by right|done].
        -- rewrite !bool_decide_eq_false_2; [done| |done].
           intros [?|?]%elem_of_cons; done.
    + intros x r Hx Hr Hid. unfold rows1 in Hr.
      apply list_elem_of_fmap in Hr as (r0 & -> & Hr0).
      destruct (Z.eqb_spec (Movie.ID r0) (Movie.ID m)) as [E|E].
      * exfalso. apply Hm. rewrite set_Status_ID in Hid.
        rewrite <- E, Hid. by apply list_elem_of_fmap_2.
      * apply (Hrow x r0); [by right|done|done].
Qed.

(** What the full-batch pass leaves in the store. *)
Lemma batch_store today db :
  wf_store db ->
  Status.updateMovieStatusFromSchedules today db
  = mkDB (cinemas db)
         ((fun m => Movie.set_Status (batch_status_of today db m) m) <$> movies db)
         (schedules db).
Proof.
  intros [Hnd Hpos]. unfold Status.updateMovieStatusFromSchedules.
  destruct db as [cs ms ss]. simpl in *.
  rewrite batch_loop; [|done|done|].
  - f_equal. apply list_fmap_ext. intros i r Hr. simpl.
    rewrite bool_decide_eq_true_2; [done|].
    apply list_elem_of_fmap_2. by eapply list_elem_of_lookup_2.
  - intros m r Hm Hr Hid. f_equal.
    apply list_elem_of_lookup in Hm as [i Hi], Hr as [j Hj].
    assert (i = j) as ->; [|congruence].
    eapply NoDup_lookup; [exact Hnd| |]; rewrite list_lookup_fmap.
    + by rewrite Hi.
    + rewrite Hj. simpl. by rewrite Hid.
Qed.

(** The full-batch pass changes the status column only: every movie
    row keeps its key and all other columns and gets the status derived
    from its schedule rows; cinemas and schedules are untouched. *)
Theorem batch_pass_sets_every_status today db :
  wf_store db ->
  let db' := Status.updateMovieStatusFromSchedules today db in
  cinemas db' = cinemas db
  /\ schedules db' = schedules db
  /\ length (movies db') = length (movies db)
  /\ forall i m, movies db !! i = Some m ->
       movies db' !! i
       = Some (Movie.set_Status
                 (Status.batch_status today (Store.schedules_of (Movie.ID m) db)) m).
Proof.
  intros Hwf. simpl. rewrite (batch_store _ _ Hwf). simpl.
  split_and!; [done|done|by rewrite length_fmap|].
  intros i m Hi. by rewrite list_lookup_fmap, Hi.
Qed.

(** With the clock fixed, a second full-batch pass changes nothing. *)
Theorem batch_pass_idempotent today db :
  wf_store db ->
  Status.updateMovieStatusFromSchedules today
    (Status.updateMovieStatusFromSchedules today db)
  = Status.updateMovieStatusFromSchedules today db.
Proof.
  intros Hwf. rewrite (batch_store _ db Hwf).
  rewrite batch_store.
  - simpl. f_equal. rewrite <- list_fmap_compose.
    apply list_fmap_ext. intros i m _.
    unfold batch_status_of, Store.schedules_of. by destruct m.
  - destruct Hwf as [Hnd Hpos]. split; simpl.
    + rewrite <- list_fmap_compose.
      erewrite list_fmap_ext; [exact Hnd|]. intros i m _. simpl.
      by destruct m.
    + apply Forall_fmap. eapply Forall_impl; [exact Hpos|].
      intros m Hm. simpl. by destruct m.
Qed.

End BatchStoreFacts.

(** ** The rows a run writes *)

Section IngestedRows.
Import GoStrings GoTime.
Variable json_Marshal : list Tmdb.castOut -> string.

Lemma Parse_midnight dashed value t :
  Parse dashed value = Some t -> t = midnight_utc (local_day t).
Proof.
  unfold Parse. intros H.
  assert (exists y m d, t = Date y m d) as (y & m & d & ->).
  { repeat (simplify_option_eq || case_match); eauto. }
  unfold Date. by rewrite local_day_midnight.
Qed.

Lemma movie_ids_keys db : Movie.ID <$> movies db = (title_keys db).*1.
Proof. unfold title_keys. by rewrite <- list_fmap_compose. Qed.

Lemma ingested_row_extends db db' s :
  extends db db' -> ingested_row db s -> ingested_row db' s.
Proof.
  intros (Hc & [k Hk] & _) (? & ? & ? & Hm & Hci).
  split_and!; try done.
  - rewrite movie_ids_keys, Hk, fmap_app, elem_of_app. left.
    by rewrite <- movie_ids_keys.
  - by rewrite Hc.
Qed.

Lemma ingested_row_keys db db' s :
  title_keys db' = title_keys db -> cinemas db' = cinemas db ->
  ingested_row db s -> ingested_row db' s.
Proof.
  intros Hk Hc (? & ? & ? & Hm & Hci). split_and!; try done.
  - by rewrite movie_ids_keys, Hk, <- movie_ids_keys.
  - by rewrite Hc.
Qed.

Lemma span_start_time_shape spText text :
  Scrape.span_start_time spText = Some text ->
  4 <= len text /\ Contains text ":" = true.
Proof.
  unfold Scrape.span_start_time. case_bool_decide; [done|].
  destruct (_ || _) eqn:E; [done|]. intros [= <-].
  apply orb_false_iff in E as [E1 E2].
  apply Z.ltb_ge in E1. apply negb_false_iff in E2. done.
Qed.

Lemma cell_slots_rows db movieID cinemaID td :
  movieID ∈ Movie.ID <$> movies db -> cinemaID ∈ Cinema.ID <$> cinemas db ->
  Forall (ingested_row db) (cell_slots movieID cinemaID td).
Proof.
  intros Hm Hc. unfold cell_slots. case_match; [constructor|].
  destruct (Parse false _) as [playDate|] eqn:HP; [|constructor].
  apply Forall_fmap, Forall_forall. intros text Ht.
  apply list_elem_of_omap in Ht as (sp & _ & Hsp).
  apply span_start_time_shape in Hsp as [? ?].
  split_and!; simpl; try done.
  unfold parsed_row, play_day. simpl. by eapply Parse_midnight.
Qed.

Lemma first_or_create_rows (P : Schedule.t -> Prop) s db :
  (forall id, P s -> P (Schedule.mk id (Schedule.MovieID s) (Schedule.CinemaID s)
                          (Schedule.PlayDate s) (Schedule.StartTime s))) ->
  P s -> Forall P (schedules db) ->
  Forall P (schedules (Store.first_or_create_schedule s db)).
Proof.
  intros HP Hs Hdb. unfold Store.first_or_create_schedule.
  case_match; [done|]. simpl. apply Forall_app. split; [done|].
  constructor; [by apply HP|constructor].
Qed.

Lemma upsert_all_rows db0 slots : forall db,
  Forall (ingested_row db0) slots ->
  Forall (ingested_row db0) (schedules db) ->
  Forall (ingested_row db0) (schedules (upsert_all slots db)).
Proof.
  induction slots as [|s slots IH]; intros db Hs Hdb; [done|].
  apply Forall_cons in Hs as [Hs Hss]. simpl. apply IH; [done|].
  apply first_or_create_rows; [|done|done]. by intros id.
Qed.

Lemma ensure_movie_schedules titleJP db :
  schedules (snd (ensure_movie titleJP db)) = schedules db.
Proof. unfold ensure_movie. by case_match. Qed.

Lemma process_section_rows w cinema sec db :
  wf_store db -> Cinema.ID cinema ∈ Cinema.ID <$> cinemas db ->
  Forall (ingested_row db) (schedules db) ->
  let db' := process_section json_Marshal w cinema sec db in
  Forall (ingested_row db') (schedules db').
Proof.
  intros Hwf Hc Hrows db'.
  destruct (decide (TrimSpace (Page.title sec) = "")) as [E|E].
  { unfold db', process_section. by rewrite bool_decide_eq_true_2. }
  destruct (process_section_steps json_Marshal w cinema sec db E)
    as (movie & db1 & movie2 & db2 & ev & He & Hen & Hps).
  pose proof (ensure_movie_spec (TrimSpace (Page.title sec)) db Hwf) as Hem.
  pose proof (ensure_movie_schedules (TrimSpace (Page.title sec)) db) as Hs1.
  rewrite He in Hem, Hs1. simpl in Hs1.
  destruct Hem as (Hwf1 & Hin & _ & _ & Hext1 & _).
  destruct (enrich_store json_Marshal w movie db1 movie2 db2 ev Hwf1 Hin Hen)
    as (Hid & _ & Hk2 & _ & Hc2 & Hs2).
  set (slots := section_slots (Movie.ID movie2) (Cinema.ID cinema) sec) in *.
  pose proof (upsert_all_spec slots db2) as (Hm3 & Hc3 & _).
  pose proof (derive_incremental_spec (now w) (section_dates sec) movie2
                (upsert_all slots db2)) as (Hk4 & Hc4 & Hs4).
  unfold db'. rewrite Hps, Hs4.
  assert (Forall (ingested_row db1) (schedules (upsert_all slots db2))) as Hall.
  { apply upsert_all_rows.
    - unfold slots, section_slots. apply Forall_forall. intros s Hs.
      apply list_elem_of_bind in Hs as (td & Hs & _).
      eapply Forall_forall; [|exact Hs]. apply cell_slots_rows.
      + rewrite Hid. by apply list_elem_of_fmap_2.
      + destruct Hext1 as (-> & _). done.
    - rewrite Hs2, Hs1. eapply Forall_impl; [exact Hrows|].
      intros s. by apply ingested_row_extends. }
  eapply Forall_impl; [exact Hall|]. intros s. apply ingested_row_keys.
  - rewrite Hk4. unfold title_keys. by rewrite Hm3.
  - by rewrite Hc4, Hc3.
Qed.

(** What every section keeps, the run keeps. *)
Lemma process_pages_keeps (P : DB -> Prop) :
  (forall w cinema sec db,
      wf_store db -> Cinema.ID cinema ∈ Cinema.ID <$> cinemas db -> P db ->
      P (process_section json_Marshal w cinema sec db)) ->
  forall env pages st,
    wf_store (snd st) -> P (snd st) ->
    P (snd (fold_left (process_page json_Marshal env) pages st)).
Proof.
  intros Hsec env.
  assert (forall cinema secs st,
            wf_store (snd st) -> Cinema.ID cinema ∈ Cinema.ID <$> cinemas (snd st) ->
            P (snd st) ->
            P (snd (fold_left
                      (fun st sec =>
                         (S (fst st),
                          process_section json_Marshal (env (fst st)) cinema sec (snd st)))
                      secs st))) as Hsecs.
  { intros cinema secs. induction secs as [|sec secs IH]; intros st Hwf Hc HP; [done|].
    cbn [fold_left].
    pose proof (process_section_extends json_Marshal (env (fst st)) cinema sec
                  (snd st) Hwf) as (Hwf' & (Hc' & _) & _).
    apply IH; cbn [snd]; [done|by rewrite Hc'|by apply Hsec]. }
  intros pages. induction pages as [|page pages IH]; intros st Hwf HP; [done|].
  cbn [fold_left]. apply IH.
  - by apply process_page_extends.
  - unfold process_page.
    destruct (Scrape.nameJP _) as [nameJP|]; [|done].
    destruct (Store.first_cinema nameJP (snd st)) as [cinema|] eqn:Hc; [|done].
    apply Hsecs; [done| |done].
    apply find_elem in Hc as [Hc _]. by apply list_elem_of_fmap_2.
Qed.

Lemma native_titles_keys db :
  native_titles db = filter (fun t => t <> "") (title_keys db).*2.
Proof. unfold native_titles, title_keys. by rewrite <- list_fmap_compose. Qed.

Lemma ensure_movie_titles titleJP db :
  wf_store db ->
  titleJP <> "" ->
  NoDup (native_titles db) -> NoDup (native_titles (snd (ensure_movie titleJP db))).
Proof.
  intros Hwf Hne Hnd. unfold ensure_movie.
  destruct (Store.first_movie titleJP db) as [movie|] eqn:E; [done|].
  pose proof (create_movie_spec
                (Movie.set_Status "showing" (Movie.set_TitleJP titleJP Movie.empty))
                db Hwf) as Hc.
  destruct (Store.create_movie _ db) as [created db'].
  destruct Hc as (_ & _ & _ & Hcr & Hm & _). cbn [snd].
  unfold native_titles in *. rewrite Hm, fmap_app, filter_app.
  apply NoDup_app. split_and!; [done| |].
  - intros t Ht Hin.
    apply list_elem_of_filter in Ht as [_ Ht], Hin as [_ Hin].
    apply elem_of_cons in Hin as [->|[]%elem_of_nil].
    apply list_elem_of_fmap in Ht as (m & Hmt & Hin).
    unfold Store.first_movie in E.
    pose proof (find_none _ _ E m ltac:(by apply list_elem_of_In)) as Hn.
    simpl in Hn. apply bool_decide_eq_false in Hn. apply Hn.
    rewrite <- Hmt, Hcr. done.
  - apply NoDup_filter, NoDup_singleton.
Qed.

Lemma process_section_titles w cinema sec db :
  wf_store db ->
  NoDup (native_titles db) ->
  NoDup (native_titles (process_section json_Marshal w cinema sec db)).
Proof.
  intros Hwf Hnd.
  destruct (decide (TrimSpace (Page.title sec) = "")) as [E|E].
  { unfold process_section. by rewrite bool_decide_eq_true_2. }
  destruct (process_section_steps json_Marshal w cinema sec db E)
    as (movie & db1 & movie2 & db2 & ev & He & Hen & Hps).
  pose proof (ensure_movie_spec (TrimSpace (Page.title sec)) db Hwf) as Hem.
  pose proof (ensure_movie_titles (TrimSpace (Page.title sec)) db Hwf E Hnd) as Ht1.
  rewrite He in Hem, Ht1. cbn [snd] in Ht1.
  destruct Hem as (Hwf1 & Hin & _).
  destruct (enrich_store json_Marshal w movie db1 movie2 db2 ev Hwf1 Hin Hen)
    as (_ & _ & Hk2 & _).
  set (slots := section_slots (Movie.ID movie2) (Cinema.ID cinema) sec) in *.
  pose proof (upsert_all_spec slots db2) as (Hm3 & _).
  pose proof (derive_incremental_spec (now w) (section_dates sec) movie2
                (upsert_all slots db2)) as (Hk4 & _).
  rewrite native_titles_keys in Ht1 |- *.
  rewrite Hps, Hk4. unfold title_keys at 1. rewrite Hm3.
  fold (title_keys db2). by rewrite Hk2.
Qed.

(** A run stores every show time of every page of a known cinema:
    afterwards each page is covered, that is, every section with a title
    has a movie row of that title and a schedule row for each of its
    slots.  The cinemas are untouched, the movie and schedule rows there
    were keep their place, and the movie keys stay distinct. *)
Theorem ingestion_complete env pages db :
  wf_store db ->
  let db1 := syncSchedulesFromEiga json_Marshal env pages db in
  Forall (fun page => page_covered page db1) pages
  /\ cinemas db1 = cinemas db
  /\ title_keys db `prefix_of` title_keys db1
  /\ schedules db `prefix_of` schedules db1
  /\ wf_store db1.
Proof.
  intros Hwf. simpl. unfold syncSchedulesFromEiga.
  destruct (process_pages_extends json_Marshal env pages (O, db) Hwf)
    as (Hwf1 & (Hc & Hk & Hs) & Hcov).
  done.
Qed.

(** A run writes clean schedule rows only.  If every schedule row
    holds midnight UTC of its day, a start time of at least four bytes
    with a colon, and the keys of a stored movie and a stored cinema,
    the same is true after the run. *)
Theorem ingestion_keeps_rows_clean env pages db :
  wf_store db ->
  Forall (ingested_row db) (schedules db) ->
  let db1 := syncSchedulesFromEiga json_Marshal env pages db in
  Forall (ingested_row db1) (schedules db1).
Proof.
  intros Hwf Hrows. simpl. unfold syncSchedulesFromEiga.
  apply (process_pages_keeps (fun db => Forall (ingested_row db) (schedules db)));
    [|done|done].
  intros w cinema sec db0. apply process_section_rows.
Qed.

(** A run never stores a title twice.  Rows without native title
    apart (the seed rows have none), if the native titles of the movie
    rows are distinct, they are distinct after the run: a section whose
    title is stored uses that row, whatever TMDB answers, and a section
    without title stores nothing. *)
Theorem ingestion_keeps_titles_unique env pages db :
  wf_store db ->
  NoDup (native_titles db) ->
  let db1 := syncSchedulesFromEiga json_Marshal env pages db in
  NoDup (native_titles db1).
Proof.
  intros Hwf Hnd. cbv zeta. unfold syncSchedulesFromEiga.
  apply (process_pages_keeps (fun db => NoDup (native_titles db))); [|done|done].
  intros w cinema sec db0 Hwf0 _. by apply process_section_titles.
Qed.

End IngestedRows.

(** ** Enrichment, field by field *)

Section EnrichMore.
Import GoStrings GoTime.
Variable json_Marshal : list Tmdb.castOut -> string.

Lemma kept_refl m : kept m m.
Proof. unfold kept. tauto. Qed.

Lemma kept_trans m0 m1 m2 : kept m0 m1 -> kept m1 m2 -> kept m0 m2.
Proof.
  unfold kept.
  intros (a1&a2&a3&a4&a5&a6&a7&a8&a9) (b1&b2&b3&b4&b5&b6&b7&b8&b9).
  split_and!; intros H.
  - rewrite <- (a1 H). apply b1. by rewrite (a1 H).
  - rewrite <- (a2 H). apply b2. by rewrite (a2 H).
  - rewrite <- (a3 H). apply b3. by rewrite (a3 H).
  - rewrite <- (a4 H). apply b4. by rewrite (a4 H).
  - rewrite <- (a5 H). apply b5. by rewrite (a5 H).
  - rewrite <- (a6 H). apply b6. by rewrite (a6 H).
  - rewrite <- (a7 H). apply b7. by rewrite (a7 H).
  - rewrite <- (a8 H). apply b8. by rewrite (a8 H).
  - rewrite <- (a9 H). apply b9. by rewrite (a9 H).
Qed.

Ltac kept_step :=
  repeat case_match; try apply kept_refl;
  unfold kept; simpl; split_and!; intros; try done;
  repeat match goal with
         | H : _ && _ = true |- _ => apply andb_true_iff in H as [? ?]
         | H : bool_decide _ = true |- _ => apply bool_decide_eq_true in H
         | H : (_ =? _) = true |- _ => apply Z.eqb_eq in H
         end; try done; try congruence.

Lemma fill_rating_kept data m : kept m (fill_rating data m).
Proof. unfold fill_rating. kept_step. Qed.

Lemma fill_synopsis_kept data m : kept m (fill_synopsis data m).
Proof. unfold fill_synopsis. kept_step. Qed.

Lemma fill_poster_kept data m : kept m (fill_poster data m).
Proof. unfold fill_poster. kept_step. Qed.

Lemma fill_backdrop_kept data m : kept m (fill_backdrop data m).
Proof. unfold fill_backdrop. kept_step. Qed.

Lemma fill_year_kept data m : kept m (fill_year data m).
Proof. unfold fill_year. kept_step. Qed.

Lemma fill_release_date_kept data m : kept m (fill_release_date data m).
Proof. unfold fill_release_date. kept_step. Qed.

Lemma fill_release_kept data m : kept m (fill_release data m).
Proof.
  unfold fill_release. case_match; [|apply kept_refl].
  eapply kept_trans; [apply fill_year_kept|apply fill_release_date_kept].
Qed.

Lemma fill_runtime_kept data m : kept m (fill_runtime data m).
Proof. unfold fill_runtime. kept_step. Qed.

Lemma fill_genre_kept data m : kept m (fill_genre data m).
Proof. unfold fill_genre. kept_step. Qed.

Lemma fill_director_kept data m : kept m (fill_director data m).
Proof. unfold fill_director. kept_step. Qed.

Lemma fill_cast_kept lang data m : kept m (fill_cast json_Marshal lang data m).
Proof. unfold fill_cast. kept_step. Qed.

Lemma fill_title_kept lang data m : kept m (fill_title lang data m).
Proof. unfold fill_title. kept_step. Qed.

Lemma apply_detail_kept lang data m : kept m (apply_detail json_Marshal lang data m).
Proof.
  unfold apply_detail.
  repeat (eapply kept_trans;
          [|first [apply fill_title_kept|apply fill_cast_kept|apply fill_director_kept
                  |apply fill_genre_kept|apply fill_runtime_kept|apply fill_release_kept
                  |apply fill_backdrop_kept|apply fill_poster_kept
                  |apply fill_synopsis_kept]]).
  apply fill_rating_kept.
Qed.

Lemma detail_loop_kept w tmdbID m0 ls : forall st,
  kept m0 (fst st) ->
  kept m0 (fst (fold_left (detail_step json_Marshal w tmdbID) ls st)).
Proof.
  induction ls as [|lang ls IH]; intros st H; simpl; [done|].
  apply IH. unfold detail_step. destruct (tmdb_detail _ _ _); [|done].
  simpl. eapply kept_trans; [exact H|apply apply_detail_kept].
Qed.

Lemma finish_kept w imdbID m : kept m (finish w imdbID m).
Proof.
  unfold finish. rewrite fill_douban_id.
  eapply (kept_trans _ (fill_imdb w imdbID m)).
  - unfold fill_imdb. kept_step.
  - unfold release_fallback. kept_step.
Qed.

Lemma save_movie_kept m db : kept m (fst (Store.save_movie m db)).
Proof.
  unfold Store.save_movie, Store.create_movie. kept_step.
Qed.

(** Enrichment writes the descriptive fields only while they are
    empty.  A synopsis, poster, backdrop, year, genre list, director or
    cast that the record has, a runtime other than zero and a release
    date other than the zero time are the same in the record the call
    returns. *)
Theorem enrich_keeps_filled_fields w m db :
  kept m (fst (fst (enrichMovieRatings json_Marshal w m db))).
Proof.
  destruct (enrich_ways json_Marshal w m db) as [[-> _]|[[-> _]|(Hc & Ht & Hs)]];
    try apply kept_refl.
  rewrite (enrich_saved json_Marshal w m db Hc Ht Hs). cbn [fst].
  eapply kept_trans; [|apply save_movie_kept].
  eapply kept_trans; [|apply finish_kept].
  apply detail_loop_kept. cbn [fst]. case_match; [|apply kept_refl].
  unfold kept. by destruct m.
Qed.

Ltac same_field :=
  intros;
  unfold fill_rating, fill_synopsis, fill_poster, fill_backdrop, fill_release,
    fill_release_date, fill_year, fill_runtime, fill_genre, fill_director,
    fill_cast, fill_title, fill_imdb, release_fallback;
  repeat case_match; reflexivity.

Lemma apply_detail_Synopsis lang data m :
  Movie.Synopsis (apply_detail json_Marshal lang data m)
  = if bool_decide (Movie.Synopsis m = "")
       && negb (bool_decide (TrimSpace (Tmdb.Overview data) = ""))
    then Tmdb.Overview data else Movie.Synopsis m.
Proof.
  unfold apply_detail.
  assert (forall x, Movie.Synopsis (fill_title lang data x) = Movie.Synopsis x) as -> by same_field.
  assert (forall x, Movie.Synopsis (fill_cast json_Marshal lang data x) = Movie.Synopsis x) as -> by same_field.
  assert (forall x, Movie.Synopsis (fill_director data x) = Movie.Synopsis x) as -> by same_field.
  assert (forall x, Movie.Synopsis (fill_genre data x) = Movie.Synopsis x) as -> by same_field.
  assert (forall x, Movie.Synopsis (fill_runtime data x) = Movie.Synopsis x) as -> by same_field.
  assert (forall x, Movie.Synopsis (fill_release data x) = Movie.Synopsis x) as -> by same_field.
  assert (forall x, Movie.Synopsis (fill_backdrop data x) = Movie.Synopsis x) as -> by same_field.
  assert (forall x, Movie.Synopsis (fill_poster data x) = Movie.Synopsis x) as -> by same_field.
  assert (forall x, Movie.Synopsis (fill_rating data x) = Movie.Synopsis x) as Hr by same_field.
  unfold fill_synopsis. rewrite Hr. case_match; [done|]. apply Hr.
Qed.

Lemma TrimSpace_not_blank s : TrimSpace s <> "" -> s <> "".
Proof. intros H ->. by apply H. Qed.

Lemma detail_loop_Synopsis w tmdbID ls : forall st,
  Movie.Synopsis (fst (fold_left (detail_step json_Marshal w tmdbID) ls st))
  = if bool_decide (Movie.Synopsis (fst st) = "")
    then default "" (head (omap (offered_overview w tmdbID) ls))
    else Movie.Synopsis (fst st).
Proof.
  induction ls as [|lang ls IH]; intros st.
  - simpl. by case_bool_decide.
  - assert (omap (offered_overview w tmdbID) (lang :: ls)
            = match offered_overview w tmdbID lang with
              | Some y => y :: omap (offered_overview w tmdbID) ls
              | None => omap (offered_overview w tmdbID) ls
              end) as -> by done.
    cbn [fold_left]. rewrite IH. unfold detail_step.
    unfold offered_overview at 2.
    destruct (tmdb_detail w tmdbID lang) as [data|]; [|done].
    cbn [fst]. rewrite apply_detail_Synopsis.
    destruct (decide (Movie.Synopsis st.1 = "")) as [E|E].
    + rewrite (bool_decide_eq_true_2 _ E). cbn [andb].
      destruct (decide (TrimSpace (Tmdb.Overview data) = "")) as [Hb|Hb].
      * rewrite !(bool_decide_eq_true_2 _ Hb). cbn [negb].
        by rewrite bool_decide_eq_true_2.
      * rewrite !(bool_decide_eq_false_2 _ Hb). cbn [negb head default].
        rewrite bool_decide_eq_false_2; [done|].
        by apply TrimSpace_not_blank.
    + rewrite !(bool_decide_eq_false_2 _ E). cbn [andb]. done.
Qed.

Lemma finish_save_Synopsis w imdbID m db :
  Movie.Synopsis (fst (Store.save_movie (finish w imdbID m) db)) = Movie.Synopsis m.
Proof.
  unfold finish. rewrite fill_douban_id.
  assert (forall x, Movie.Synopsis (fst (Store.save_movie x db)) = Movie.Synopsis x) as ->.
  { intros x. unfold Store.save_movie, Store.create_movie. by repeat case_match. }
  assert (forall x, Movie.Synopsis (release_fallback x) = Movie.Synopsis x) as -> by same_field.
  same_field.
Qed.

(** The synopsis comes from the first language that offers one.  For
    a record without synopsis that reaches TMDB, the synopsis of the
    returned record is the overview of the first of Chinese, Japanese and
    English whose answer arrives with an overview that is not blank, and
    it stays empty when there is none. *)
Theorem synopsis_first_language_wins w m db :
  complete m = false ->
  TrimSpace (Movie.TitleJP m) <> "" ->
  searchTmdbID w (TrimSpace (Movie.TitleJP m)) <> 0 ->
  Movie.Synopsis m = "" ->
  Movie.Synopsis (fst (fst (enrichMovieRatings json_Marshal w m db)))
  = default ""
      (head (omap (offered_overview w (searchTmdbID w (TrimSpace (Movie.TitleJP m))))
                  ["zh-CN"; "ja-JP"; "en-US"])).
Proof.
  intros Hc Ht Hs Hsyn. rewrite (enrich_saved json_Marshal w m db Hc Ht Hs). cbn [fst].
  rewrite finish_save_Synopsis, detail_loop_Synopsis. cbn [fst].
  rewrite bool_decide_eq_true_2; [done|]. by destruct (Movie.TMDBID m =? 0), m.
Qed.

Lemma apply_detail_CastJSON lang data m :
  Movie.CastJSON (apply_detail json_Marshal lang data m)
  = Movie.CastJSON (fill_cast json_Marshal lang data m).
Proof.
  unfold apply_detail.
  assert (forall x, Movie.CastJSON (fill_title lang data x) = Movie.CastJSON x) as -> by same_field.
  assert (forall x, fill_cast json_Marshal lang data x
            = if (bool_decide (lang = "zh-CN") || bool_decide (lang = "en-US"))
                 && bool_decide (Movie.CastJSON x = "")
                 && (0 <? Z.of_nat (length (Tmdb.Cast data)))
              then Movie.set_CastJSON
                     (json_Marshal (cast_out <$> firstn (Nat.min (length (Tmdb.Cast data)) 8)
                                                   (Tmdb.Cast data))) x
              else x) as Hfc by done.
  assert (forall x y, Movie.CastJSON x = Movie.CastJSON y ->
            Movie.CastJSON (fill_cast json_Marshal lang data x)
            = Movie.CastJSON (fill_cast json_Marshal lang data y)) as Hsame.
  { intros x y E. rewrite !Hfc, E. by repeat case_match. }
  apply Hsame.
  assert (forall x, Movie.CastJSON (fill_director data x) = Movie.CastJSON x) as -> by same_field.
  assert (forall x, Movie.CastJSON (fill_genre data x) = Movie.CastJSON x) as -> by same_field.
  assert (forall x, Movie.CastJSON (fill_runtime data x) = Movie.CastJSON x) as -> by same_field.
  assert (forall x, Movie.CastJSON (fill_release data x) = Movie.CastJSON x) as -> by same_field.
  assert (forall x, Movie.CastJSON (fill_backdrop data x) = Movie.CastJSON x) as -> by same_field.
  assert (forall x, Movie.CastJSON (fill_poster data x) = Movie.CastJSON x) as -> by same_field.
  assert (forall x, Movie.CastJSON (fill_synopsis data x) = Movie.CastJSON x) as -> by same_field.
  same_field.
Qed.

Lemma detail_loop_CastJSON w tmdbID old ls : forall st,
  cast_from json_Marshal w tmdbID old (Movie.CastJSON (fst st)) ->
  cast_from json_Marshal w tmdbID old
    (Movie.CastJSON (fst (fold_left (detail_step json_Marshal w tmdbID) ls st))).
Proof.
  induction ls as [|lang ls IH]; intros st H; [done|].
  cbn [fold_left]. apply IH. unfold detail_step.
  destruct (tmdb_detail w tmdbID lang) as [data|] eqn:Hd; [|done].
  cbn [fst]. rewrite apply_detail_CastJSON. unfold fill_cast.
  destruct (_ && _) eqn:E; [|done].
  apply andb_true_iff in E as [E E3]. apply andb_true_iff in E as [E1 E2].
  apply bool_decide_eq_true in E2.
  right. split.
  { destruct H as [H|[H _]]; [by rewrite <- H|done]. }
  exists lang, (Tmdb.Cast data). split.
  - unfold offered_cast. rewrite E1, Hd.
    rewrite bool_decide_eq_false_2; [done|].
    intros E0. rewrite E0 in E3. done.
  - simpl. do 2 f_equal.
    destruct (Nat.min_spec (length (Tmdb.Cast data)) 8) as [[Hl ->]|[Hl ->]]; [|done].
    rewrite !firstn_all2; [done|lia|lia].
Qed.

Lemma finish_save_CastJSON w imdbID m db :
  Movie.CastJSON (fst (Store.save_movie (finish w imdbID m) db)) = Movie.CastJSON m.
Proof.
  unfold finish. rewrite fill_douban_id.
  assert (forall x, Movie.CastJSON (fst (Store.save_movie x db)) = Movie.CastJSON x) as ->.
  { intros x. unfold Store.save_movie, Store.create_movie. by repeat case_match. }
  assert (forall x, Movie.CastJSON (release_fallback x) = Movie.CastJSON x) as -> by same_field.
  same_field.
Qed.

(** The cast is capped and never Japanese.  The cast field of the
    returned record is the one the record had, or, when the record had
    none, the encoding of the first eight cast members (all of them when
    there are fewer) of the Chinese or the English answer, which lists at
    least one. *)
Theorem cast_capped_at_eight w m db :
  let m' := fst (fst (enrichMovieRatings json_Marshal w m db)) in
  Movie.CastJSON m' = Movie.CastJSON m
  \/ (Movie.CastJSON m = ""
      /\ exists lang data,
           (lang = "zh-CN" \/ lang = "en-US")
           /\ tmdb_detail w (searchTmdbID w (TrimSpace (Movie.TitleJP m))) lang = Some data
           /\ (0 < length (Tmdb.Cast data))%nat
           /\ (length (firstn 8 (Tmdb.Cast data)) <= 8)%nat
           /\ Movie.CastJSON m'
              = json_Marshal (cast_out <$> firstn 8 (Tmdb.Cast data))).
Proof.
  cbv zeta.
  destruct (enrich_ways json_Marshal w m db) as [[-> _]|[[-> _]|(Hc & Ht & Hs)]];
    [by left|by left|].
  rewrite (enrich_saved json_Marshal w m db Hc Ht Hs). cbn [fst].
  rewrite finish_save_CastJSON.
  set (tmdbID := searchTmdbID w (TrimSpace (Movie.TitleJP m))).
  set (m0 := if Movie.TMDBID m =? 0 then Movie.set_TMDBID tmdbID m else m).
  destruct (detail_loop_CastJSON w tmdbID (Movie.CastJSON m) langs (m0, ""))
    as [H|(Hem & lang & cast & Hoff & Hnew)].
  { left. unfold m0. by destruct (Movie.TMDBID m =? 0), m. }
  { by left. }
  right. split; [done|].
  unfold offered_cast in Hoff.
  destruct (bool_decide (lang = "zh-CN") || bool_decide (lang = "en-US")) eqn:El; [|done].
  destruct (tmdb_detail w tmdbID lang) as [data|] eqn:Hd; [|done].
  case_bool_decide as Hnil; [done|]. injection Hoff as <-.
  exists lang, data. split_and!.
  - apply orb_true_iff in El as [El|El]; apply bool_decide_eq_true in El; auto.
  - done.
  - destruct (Tmdb.Cast data); [done|simpl; lia].
  - rewrite length_take. lia.
  - done.
Qed.

End EnrichMore.

(** ** Addresses *)

Section AddressFacts.
Import GoStrings GoTime Address.

Lemma drop_drop n : forall m s, drop n (drop m s) = drop (m + n) s.
Proof.
  intros m. induction m as [|m IH]; intros s; [done|].
  destruct s as [|c s]; [by destruct n|]. apply IH.
Qed.

Lemma take_add n : forall m s, take (n + m) s = take n s ++ take m (drop n s).
Proof.
  induction n as [|n IH]; intros m s; [by rewrite append_empty_l|].
  destruct s as [|c s]; [by destruct m|].
  cbn [Nat.add take drop]. rewrite append_cons. f_equal. apply IH.
Qed.

Lemma take_append_exact p s : take (String.length p) (p ++ s) = p.
Proof.
  induction p as [|a p IH]; [done|].
  rewrite append_cons. cbn [String.length take]. by rewrite IH.
Qed.

Lemma Index_Some p : forall s idx,
  Index s p = Some idx ->
  HasPrefix (drop idx s) p = true
  /\ (p <> "" -> Contains (take idx s) p = false).
Proof.
  induction s as [|c s IH]; intros idx H.
  - cbn [Index] in H. destruct (HasPrefix "" p) eqn:E; [|done].
    injection H as <-. split; [done|]. intros Hp. by destruct p.
  - cbn [Index] in H. destruct (HasPrefix (String c s) p) eqn:E.
    + injection H as <-. split; [done|]. intros Hp. by destruct p.
    + destruct (Index s p) as [i|] eqn:Hi; [|done]. injection H as <-.
      destruct (IH i eq_refl) as [H1 H2]. split; [done|]. intros Hp.
      cbn [take Contains]. rewrite (H2 Hp), orb_false_r.
      destruct (HasPrefix (String c (take i s)) p) eqn:E2; [|done].
      apply (HasPrefix_take (S i) (String c s)) in E2. congruence.
Qed.

Lemma Index_None p : forall s, Index s p = None -> Contains s p = false.
Proof.
  induction s as [|c s IH]; intros H; cbn [Index] in H.
  - destruct (HasPrefix "" p) eqn:E; [done|]. cbn [Contains]. by rewrite E.
  - destruct (HasPrefix (String c s) p) eqn:E; [done|].
    destruct (Index s p) eqn:Hi; [done|].
    cbn [Contains]. by rewrite E, IH.
Qed.

Lemma Contains_suffix p a : forall b,
  Contains (a ++ b) p = false -> Contains b p = false.
Proof.
  induction a as [|c a IH]; intros b H; [by rewrite append_empty_l in H|].
  rewrite append_cons in H. cbn [Contains] in H.
  apply orb_false_iff in H as [_ H]. by apply IH.
Qed.

(** *** White space at the ends *)

Lemma trim_left_suffix s : forall skip, exists skipped, s = skipped ++ trim_left skip s.
Proof.
  induction s as [|c s IH]; intros skip.
  - exists "". by destruct skip.
  - destruct skip as [|k].
    + cbn [trim_left]. destruct (leading_space (String c s)) as [[|k]|].
      * by exists "".
      * destruct (IH k) as [sk Hsk]. exists (String c sk).
        by rewrite append_cons, <- Hsk.
      * by exists "".
    + cbn [trim_left]. destruct (IH k) as [sk Hsk]. exists (String c sk).
      by rewrite append_cons, <- Hsk.
Qed.

Lemma trim_left_idempotent s : forall skip,
  trim_left 0 (trim_left skip s) = trim_left skip s.
Proof.
  induction s as [|c s IH]; intros skip; [by destruct skip|].
  destruct skip as [|k]; [|apply IH].
  cbn [trim_left]. destruct (leading_space (String c s)) as [[|k]|] eqn:E.
  - cbn [trim_left]. by rewrite E.
  - apply IH.
  - cbn [trim_left]. by rewrite E.
Qed.

Lemma find_ext_in {A} (f g : A -> bool) l :
  Forall (fun x => f x = g x) l -> List.find f l = List.find g l.
Proof.
  induction 1 as [|x l Hx _ IH]; [done|]. simpl. by rewrite Hx, IH.
Qed.

(** A white-space character never ends in the first byte of the ward
    sign, so whether a text starts with white space does not depend on
    the sign that follows it. *)
Lemma leading_space_before_ward y :
  y <> "" -> leading_space (y ++ "区") = leading_space y.
Proof.
  intros Hy. unfold leading_space. f_equal. apply find_ext_in.
  let l := eval vm_compute in space_runes in change space_runes with l.
  destruct y as [|a [|b [|c y]]]; [done| | |];
    rewrite ?append_cons, ?append_empty_l;
    repeat constructor; cbn [HasPrefix];
    rewrite ?andb_false_r; reflexivity.
Qed.

Lemma leading_space_length s n :
  leading_space s = Some n -> (n <= String.length s)%nat.
Proof.
  unfold leading_space. destruct (List.find _ _) as [sp|] eqn:E; [|done].
  intros [= <-]. apply find_some in E as [_ E]. by apply HasPrefix_length.
Qed.

Lemma trim_left_before_ward y : forall skip,
  (skip <= String.length y)%nat ->
  trim_left skip (y ++ "区") = trim_left skip y ++ "区".
Proof.
  induction y as [|c y IH]; intros skip Hk.
  - simpl in Hk. assert (skip = O) as -> by lia. reflexivity.
  - rewrite append_cons. destruct skip as [|k].
    + cbn [trim_left]. rewrite <- append_cons.
      rewrite leading_space_before_ward by done.
      destruct (leading_space (String c y)) as [[|k]|] eqn:E; try done.
      apply leading_space_length in E. simpl in E.
      apply IH. lia.
    + cbn [trim_left]. apply IH. simpl in Hk. lia.
Qed.

Lemma list_ascii_append s t :
  list_ascii_of_string (s ++ t) = (list_ascii_of_string s ++ list_ascii_of_string t)%list.
Proof. induction s as [|c s IH]; [done|]. rewrite append_cons. simpl. by rewrite IH. Qed.

Lemma string_of_list_app l1 l2 :
  string_of_list_ascii (l1 ++ l2) = string_of_list_ascii l1 ++ string_of_list_ascii l2.
Proof. induction l1 as [|c l IH]; [done|]. simpl. by rewrite IH, append_cons. Qed.

Lemma rev_string_append s t : rev_string (s ++ t) = rev_string t ++ rev_string s.
Proof.
  unfold rev_string. by rewrite list_ascii_append, rev_app_distr, string_of_list_app.
Qed.

Lemma rev_string_involutive s : rev_string (rev_string s) = s.
Proof.
  unfold rev_string.
  by rewrite list_ascii_of_string_of_list_ascii, rev_involutive,
    string_of_list_ascii_of_string.
Qed.

(** The text that ends in the ward sign keeps the sign when trimmed. *)
Lemma TrimSpace_before_ward y : TrimSpace (y ++ "区") = trim_left 0 y ++ "区".
Proof.
  unfold TrimSpace. rewrite trim_left_before_ward by lia.
  rewrite rev_string_append.
  set (r := rev_string (trim_left 0 y)).
  assert (trim_left_rev 0 (rev_string "区" ++ r) = rev_string "区" ++ r) as ->.
  { reflexivity. }
  subst r. by rewrite rev_string_append, !rev_string_involutive.
Qed.

(** The district of an address.  An address without the ward sign
    has no district.  Otherwise the district ends with the first ward
    sign of the address and holds no other; before the sign it has the
    end of the text in front of that sign, without white space ahead.
    The address of the source's example gives its ward. *)
Theorem extractDistrict_spec address :
  match Index address "区" with
  | None => extractDistrict address = ""
  | Some idx =>
      exists skipped body,
        take idx address = skipped ++ body
        /\ extractDistrict address = body ++ "区"
        /\ Contains body "区" = false
        /\ trim_left 0 body = body
  end
  /\ extractDistrict "東京都新宿区新宿3-15-15 新宿ピカデリー内" = "新宿区".
Proof.
  split; [|by vm_compute].
  unfold extractDistrict.
  destruct (Index address "区") as [idx|] eqn:Hidx; [|by case_bool_decide].
  rewrite bool_decide_eq_false_2 by by intros ->.
  destruct (Index_Some _ _ _ Hidx) as [Hpre Hfirst].
  specialize (Hfirst ltac:(done)).
  set (start := if (idx <=? last_prefecture 0 address 0)%nat then O
                else last_prefecture 0 address 0).
  assert (start <= idx)%nat as Hle.
  { unfold start. destruct (Nat.leb_spec idx (last_prefecture 0 address 0)); lia. }
  set (seg := take (idx - start) (drop start address)).
  assert (take (idx + String.length "区" - start) (drop start address) = seg ++ "区") as ->.
  { replace (idx + String.length "区" - start)%nat with ((idx - start) + 3)%nat
      by (simpl; lia).
    rewrite take_add, drop_drop.
    replace (start + (idx - start))%nat with idx by lia.
    rewrite (HasPrefix_split _ _ Hpre) at 1.
    by rewrite (take_append_exact "区"). }
  rewrite TrimSpace_before_ward.
  destruct (trim_left_suffix seg 0) as [sk Hsk].
  assert (take idx address = (take start address ++ sk) ++ trim_left 0 seg) as Hcut.
  { replace idx with (start + (idx - start))%nat at 1 by lia.
    rewrite take_add, append_assoc. fold seg. by rewrite <- Hsk. }
  exists (take start address ++ sk), (trim_left 0 seg). split_and!.
  - done.
  - done.
  - rewrite Hcut in Hfirst. by apply Contains_suffix in Hfirst.
  - apply trim_left_idempotent.
Qed.

(** *** The house number *)

Lemma digit_run_spec s :
  all_digits (take (digit_run s) s) = true
  /\ starts_with_digit (drop (digit_run s) s) = false.
Proof.
  induction s as [|c s [IH1 IH2]]; [done|].
  cbn [digit_run]. destruct (isDigit c) eqn:E; cbn [take drop]; [|by rewrite <- E].
  split; [|done]. unfold all_digits in *. simpl. by rewrite E, IH1.
Qed.

Lemma some_digits_number : ends_with_number some_digits.
Proof.
  intros s n H. unfold some_digits in H.
  destruct (Nat.eqb_spec (digit_run s) 0) as [E|E]; [done|]. injection H as <-.
  destruct (digit_run_spec s) as [H1 H2].
  exists "", (take (digit_run s) s). split_and!; try done.
  destruct s as [|c s]; [done|]. by destruct (digit_run (String c s)).
Qed.

Lemma followed_by_number a b :
  ends_with_number b -> ends_with_number (followed_by a b).
Proof.
  intros Hb s n H. unfold followed_by in H.
  destruct (a s) as [n1|]; [|done]. simpl in H.
  destruct (b (drop n1 s)) as [m|] eqn:Em; [|done]. injection H as <-.
  destruct (Hb _ _ Em) as (before & number & Ht & Hne & Hd & Hs).
  exists (take n1 s ++ before), number. split_and!; try done.
  - by rewrite take_add, Ht, append_assoc.
  - by rewrite <- drop_drop.
Qed.

Lemma lazily_number body :
  ends_with_number body -> ends_with_number (lazily body).
Proof.
  intros Hb s. induction s as [|c s IH]; intros n H; cbn [lazily] in H.
  - destruct (body "") as [k|] eqn:E; [|done]. injection H as <-. by apply Hb.
  - destruct (body (String c s)) as [k|] eqn:E.
    { injection H as <-. by apply Hb. }
    destruct (Ascii.eqb c Scrape.line_feed); [done|].
    destruct (lazily body s) as [k|] eqn:El; [|done]. injection H as <-.
    destruct (IH k eq_refl) as (before & number & Ht & Hne & Hd & Hs).
    exists (String c before), number. split_and!; try done.
    cbn [take]. by rewrite Ht, append_cons.
Qed.

Lemma match_here_number : ends_with_number match_here.
Proof.
  assert (ends_with_number double_number) as H3.
  { apply followed_by_number, followed_by_number, some_digits_number. }
  assert (ends_with_number triple_number) as H2.
  { by do 2 apply followed_by_number. }
  assert (ends_with_number chome_number) as H1.
  { by do 2 apply followed_by_number. }
  intros s n H. unfold match_here in H.
  destruct (lazily chome_number s) eqn:E1.
  { injection H as <-. exact (lazily_number _ H1 _ _ E1). }
  destruct (lazily triple_number s) eqn:E2.
  { injection H as <-. exact (lazily_number _ H2 _ _ E2). }
  exact (lazily_number _ H3 _ _ H).
Qed.

Lemma Contains_drop p n : forall s,
  Contains (drop n s) p = true -> Contains s p = true.
Proof.
  induction n as [|n IH]; intros s H; [done|].
  destruct s as [|c s]; [done|]. cbn [drop] in H. apply IH in H.
  cbn [Contains]. by rewrite H, orb_true_r.
Qed.

Lemma Contains_HasPrefix s p : HasPrefix s p = true -> Contains s p = true.
Proof. intros H. destruct s; cbn [Contains]; by rewrite H. Qed.

Lemma followed_by_hyphen_here a b :
  needs_hyphen (followed_by a (followed_by (exactly "-") b)).
Proof.
  intros s n H. unfold followed_by in H.
  destruct (a s) as [n1|]; [|done]. simpl in H.
  unfold exactly in H at 1.
  destruct (HasPrefix (drop n1 s) "-") eqn:E; [|done].
  eapply Contains_drop, Contains_HasPrefix, E.
Qed.

Lemma followed_by_hyphen_later a b :
  needs_hyphen b -> needs_hyphen (followed_by a b).
Proof.
  intros Hb s n H. unfold followed_by in H.
  destruct (a s) as [n1|]; [|done]. simpl in H.
  destruct (b (drop n1 s)) as [m|] eqn:Em; [|done].
  eapply Contains_drop, Hb, Em.
Qed.

Lemma lazily_hyphen body : needs_hyphen body -> needs_hyphen (lazily body).
Proof.
  intros Hb s. induction s as [|c s IH]; intros n H; cbn [lazily] in H.
  - destruct (body "") as [k|] eqn:E; [|done]. by eapply Hb.
  - destruct (body (String c s)) as [k|] eqn:E; [by eapply Hb|].
    destruct (Ascii.eqb c Scrape.line_feed); [done|].
    destruct (lazily body s) as [k|] eqn:El; [|done].
    cbn [Contains]. by rewrite (IH k eq_refl), orb_true_r.
Qed.

Lemma match_here_hyphen : needs_hyphen match_here.
Proof.
  intros s n H. unfold match_here in H.
  destruct (lazily chome_number s) eqn:E1.
  { eapply (lazily_hyphen chome_number); [|exact E1].
    do 2 apply followed_by_hyphen_later. apply followed_by_hyphen_here. }
  destruct (lazily triple_number s) eqn:E2.
  { eapply (lazily_hyphen triple_number); [|exact E2].
    apply followed_by_hyphen_here. }
  eapply (lazily_hyphen double_number); [|exact H].
  apply followed_by_hyphen_here.
Qed.

Lemma FindString_hyphen s found : FindString s = Some found -> Contains s "-" = true.
Proof.
  induction s as [|c s IH]; cbn [FindString].
  - destruct (match_here "") eqn:E; [|done]. intros _. by eapply match_here_hyphen.
  - destruct (match_here (String c s)) eqn:E.
    + intros _. by eapply match_here_hyphen.
    + intros H. cbn [Contains]. by rewrite (IH H), orb_true_r.
Qed.

Lemma lazily_tail body c s :
  Ascii.eqb c Scrape.line_feed = false ->
  lazily body (String c s) = None -> lazily body s = None.
Proof.
  intros Hc H. cbn [lazily] in H. destruct (body (String c s)); [done|].
  rewrite Hc in H. by destruct (lazily body s).
Qed.

Lemma match_here_tail c s :
  Ascii.eqb c Scrape.line_feed = false ->
  match_here (String c s) = None -> match_here s = None.
Proof.
  intros Hc H. unfold match_here in *.
  destruct (lazily chome_number (String c s)) eqn:E1; [done|].
  destruct (lazily triple_number (String c s)) eqn:E2; [done|].
  by rewrite (lazily_tail _ _ _ Hc E1), (lazily_tail _ _ _ Hc E2),
    (lazily_tail _ _ _ Hc H).
Qed.

(** In one line, the search succeeds at the head or nowhere. *)
Lemma FindString_one_line s :
  Contains s (String Scrape.line_feed "") = false ->
  match_here s = None -> FindString s = None.
Proof.
  induction s as [|c s IH]; intros Hl Hm; cbn [FindString]; rewrite Hm; [done|].
  cbn [Contains HasPrefix] in Hl. apply orb_false_iff in Hl as [Hc Hl].
  rewrite andb_true_r in Hc.
  apply IH; [done|]. eapply match_here_tail; [|done].
  by rewrite Ascii.eqb_sym.
Qed.

(** The address sent to the geocoder.  An address without a hyphen
    is sent as it is.  An address of one line is sent as it is or cut
    after a number: what is sent ends with ASCII digits and what is left
    out does not begin with one.  What is sent is empty only when the
    address is. *)
Theorem cleanAddressForGeo_cuts_after_number addr :
  (Contains addr "-" = false -> cleanAddressForGeo addr = addr)
  /\ (Contains addr (String Scrape.line_feed "") = false ->
      cleanAddressForGeo addr = addr
      \/ exists before number rest,
           addr = before ++ number ++ rest
           /\ cleanAddressForGeo addr = before ++ number
           /\ number <> ""
           /\ all_digits number = true
           /\ starts_with_digit rest = false)
  /\ (cleanAddressForGeo addr = "" -> addr = "")
  /\ cleanAddressForGeo "東京都新宿区新宿3-15-15 新宿ピカデリー内"
     = "東京都新宿区新宿3-15-15".
Proof.
  split_and!.
  - intros Hh. unfold cleanAddressForGeo.
    destruct (FindString addr) as [found|] eqn:E; [|done].
    apply FindString_hyphen in E. congruence.
  - intros Hl. unfold cleanAddressForGeo.
    destruct (match_here addr) as [n|] eqn:Em.
    2:{ left. by rewrite FindString_one_line. }
    assert (FindString addr = Some (take n addr)) as ->.
    { destruct addr; cbn [FindString]; by rewrite Em. }
    case_bool_decide as Hne; [by left|]. right. cbn [negb].
    destruct (match_here_number _ _ Em) as (before & number & Ht & Hnum & Hd & Hs).
    exists before, number, (drop n addr). split_and!; try done.
    rewrite <- append_assoc, <- Ht. apply take_drop.
  - unfold cleanAddressForGeo.
    destruct (FindString addr) as [found|]; [|done].
    case_bool_decide as Hne; [done|]. cbn [negb]. intros ->. done.
  - by vm_compute.
Qed.

End AddressFacts.

(** ** The cinema crawl *)

Section CinemaFacts.
Import GoStrings GoTime CinemaSync.

Lemma cinema_ids_keys db : Cinema.ID <$> cinemas db = (cinema_keys db).*1.
Proof. unfold cinema_keys. by rewrite <- list_fmap_compose. Qed.

Lemma cinema_names_keys db : Cinema.NameJP <$> cinemas db = (cinema_keys db).*2.
Proof. unfold cinema_keys. by rewrite <- list_fmap_compose. Qed.

Lemma first_cinema_known nameJP db :
  is_Some (Store.first_cinema nameJP db) <-> nameJP ∈ (cinema_keys db).*2.
Proof.
  unfold Store.first_cinema. rewrite <- cinema_names_keys. split.
  - intros [c Hc]. apply find_some in Hc as [Hin Hc].
    apply bool_decide_eq_true in Hc as <-.
    apply list_elem_of_fmap_2. by apply list_elem_of_In.
  - intros Hin. apply list_elem_of_fmap in Hin as (c & -> & Hc).
    destruct (List.find _ (cinemas db)) as [c'|] eqn:E; [by eexists|].
    exfalso. pose proof (find_none _ _ E c) as Hn. simpl in Hn.
    rewrite bool_decide_eq_true_2 in Hn by done.
    by specialize (Hn ltac:(by apply list_elem_of_In)).
Qed.

Lemma first_by_name_known nameJP db :
  is_Some (first_by_name nameJP db) <-> name_known nameJP db.
Proof.
  unfold first_by_name, name_known. case_bool_decide.
  - destruct (cinemas db); simpl; split; done.
  - apply first_cinema_known.
Qed.

(** A row found by a name other than the empty one has that name. *)
Lemma first_by_name_name nameJP db found :
  first_by_name nameJP db = Some found ->
  found ∈ cinemas db /\ (nameJP <> "" -> Cinema.NameJP found = nameJP).
Proof.
  unfold first_by_name, Store.first_cinema. case_bool_decide as E.
  - intros H. split; [|done]. destruct (cinemas db); [done|].
    injection H as <-. left.
  - intros H. apply find_some in H as [Hin H]. split.
    + by apply list_elem_of_In.
    + intros _. by apply bool_decide_eq_true in H.
Qed.

Lemma cinema_upsert_spec cinema db :
  NoDup (cinema_keys db).*1 ->
  let db' := first_or_create cinema db in
  movies db' = movies db /\ schedules db' = schedules db
  /\ NoDup (cinema_keys db').*1
  /\ name_known (Cinema.NameJP cinema) db'
  /\ (name_known (Cinema.NameJP cinema) db -> cinema_keys db' = cinema_keys db)
  /\ cinema_keys db `prefix_of` cinema_keys db'
  /\ (NoDup (cinema_keys db).*2 -> NoDup (cinema_keys db').*2).
Proof.
  intros Hnd. unfold first_or_create.
  destruct (first_by_name (Cinema.NameJP cinema) db) as [found|] eqn:Hf.
  - assert (name_known (Cinema.NameJP cinema) db) as Hk.
    { apply first_by_name_known. by eexists. }
    destruct (first_by_name_name _ _ _ Hf) as [Hin Hname].
    destruct (Cinema.ID found =? 0) eqn:Hz; [done|]. cbv zeta. cbn [movies schedules].
    assert (cinema_keys
              (mkDB ((fun row => if Cinema.ID row =? Cinema.ID found
                                 then assign cinema row else row) <$> cinemas db)
                    (movies db) (schedules db)) = cinema_keys db) as Hkeys.
    { unfold cinema_keys. cbn [cinemas]. rewrite <- list_fmap_compose.
      apply list_fmap_ext. intros i row Hrow. simpl.
      destruct (Z.eqb_spec (Cinema.ID row) (Cinema.ID found)) as [E|E]; [|done].
      assert (row = found) as ->.
      { apply list_elem_of_lookup in Hin as [j Hj].
        assert (i = j) as ->; [|congruence].
        eapply NoDup_lookup; [exact Hnd| |];
          rewrite <- cinema_ids_keys, list_lookup_fmap.
        - by rewrite Hrow.
        - rewrite Hj. simpl. by rewrite E. }
      unfold assign. simpl. f_equal. case_bool_decide as En; [done|].
      symmetry. by apply Hname. }
    split_and!; try done.
    + by rewrite Hkeys.
    + unfold name_known in *. rewrite Hkeys.
      case_bool_decide; [|done]. cbn [cinemas].
      intros E. apply fmap_nil_inv in E. by rewrite E in Hk.
    + by rewrite Hkeys.
    + by rewrite Hkeys.
  - assert (~ name_known (Cinema.NameJP cinema) db) as Hk.
    { intros H. apply first_by_name_known in H as [? H]. congruence. }
    cbv zeta. cbn [movies schedules].
    set (id := Store.next_id (Cinema.ID <$> cinemas db)).
    assert (cinema_keys
              (mkDB (cinemas db ++ [Cinema.mk id (Cinema.NameJP cinema)
                       (Cinema.Address cinema) (Cinema.Latitude cinema)
                       (Cinema.Longitude cinema) (Cinema.BuildingPhoto cinema)
                       (Cinema.Website cinema)]) (movies db) (schedules db))
            = (cinema_keys db ++ [(id, Cinema.NameJP cinema)])%list) as Hkeys.
    { unfold cinema_keys. cbn [cinemas]. by rewrite fmap_app. }
    split_and!; try done.
    + rewrite Hkeys, fmap_app. apply NoDup_app. split_and!; [done| |].
      * intros x Hx [->|[]%elem_of_nil]%elem_of_cons.
        rewrite <- cinema_ids_keys in Hx.
        apply (next_id_above _ _) in Hx. unfold id in Hx. simpl in Hx. lia.
      * apply NoDup_singleton.
    + unfold name_known. rewrite Hkeys. case_bool_decide.
      * cbn [cinemas]. by destruct (cinemas db).
      * rewrite fmap_app, elem_of_app. right. simpl. left.
    + rewrite Hkeys. by apply prefix_app_r.
    + intros Hnames. rewrite Hkeys, fmap_app. apply NoDup_app. split_and!; [done| |].
      * intros x Hx [->|[]%elem_of_nil]%elem_of_cons.
        apply Hk. unfold name_known. case_bool_decide as En; [|done].
        intros E. rewrite <- cinema_names_keys, E in Hx. by apply elem_of_nil in Hx.
      * apply NoDup_singleton.
Qed.

Lemma name_known_extends nameJP db db' :
  cinema_keys db `prefix_of` cinema_keys db' ->
  name_known nameJP db -> name_known nameJP db'.
Proof.
  intros [k Hk]. unfold name_known. case_bool_decide.
  - intros Hne E. apply Hne.
    assert (cinema_keys db' = []) as E' by (unfold cinema_keys; by rewrite E).
    rewrite Hk in E'. apply app_nil in E' as [E' _].
    by apply fmap_nil_inv in E'.
  - rewrite Hk, fmap_app, elem_of_app. by left.
Qed.

Lemma process_page_spec w page db :
  NoDup (cinema_keys db).*1 ->
  let db' := fst (process_page w page db) in
  movies db' = movies db /\ schedules db' = schedules db
  /\ NoDup (cinema_keys db').*1
  /\ cinema_known page db'
  /\ (cinema_known page db -> cinema_keys db' = cinema_keys db)
  /\ cinema_keys db `prefix_of` cinema_keys db'
  /\ (NoDup (cinema_keys db).*2 -> NoDup (cinema_keys db').*2).
Proof.
  intros Hnd. unfold process_page, cinema_known.
  destruct (Scrape.nameJP (CinemaPage.page_title page)) as [nameJP|]; [|done].
  destruct (Geo.getCoordsFromOSMWithRetry w _ nameJP) as [[lat lng] ev].
  cbn [fst].
  apply (cinema_upsert_spec
           (Cinema.mk 0 nameJP (TrimSpace (CinemaPage.location page)) lat lng
              (realImg (CinemaPage.imgs page)) (website page)) db Hnd).
Qed.

Lemma process_pages_spec env pages : forall st,
  NoDup (cinema_keys (snd st)).*1 ->
  let st' :=
    fold_left
      (fun st page => (S (fst st), fst (process_page (env (fst st)) page (snd st))))
      pages st in
  movies (snd st') = movies (snd st) /\ schedules (snd st') = schedules (snd st)
  /\ NoDup (cinema_keys (snd st')).*1
  /\ Forall (fun page => cinema_known page (snd st')) pages
  /\ (Forall (fun page => cinema_known page (snd st)) pages ->
      cinema_keys (snd st') = cinema_keys (snd st))
  /\ cinema_keys (snd st) `prefix_of` cinema_keys (snd st')
  /\ (NoDup (cinema_keys (snd st)).*2 -> NoDup (cinema_keys (snd st')).*2).
Proof.
  induction pages as [|page pages IH]; intros st Hnd; [done|].
  cbn [fold_left].
  destruct (process_page_spec (env (fst st)) page (snd st) Hnd)
    as (Hm & Hs & Hnd1 & Hk1 & Hsame1 & Hpre1 & Hn1).
  set (st1 := (S (fst st), fst (process_page (env (fst st)) page (snd st)))) in *.
  destruct (IH st1 Hnd1) as (Hm' & Hs' & Hnd' & Hk' & Hsame' & Hpre' & Hn').
  cbv zeta. split_and!.
  - by rewrite Hm'.
  - by rewrite Hs'.
  - done.
  - constructor; [|done]. unfold cinema_known in *.
    destruct (Scrape.nameJP (CinemaPage.page_title page)); [|done].
    by eapply name_known_extends.
  - intros Hall. apply Forall_cons in Hall as [Hp Hall].
    specialize (Hsame1 Hp). rewrite Hsame'; [done|].
    eapply Forall_impl; [exact Hall|]. intros p Hkp. unfold cinema_known in *.
    destruct (Scrape.nameJP (CinemaPage.page_title p)); [|done].
    eapply name_known_extends; [|exact Hkp]. simpl. by rewrite Hsame1.
  - by etrans.
  - auto.
Qed.

(** The cinema crawl keeps what is stored.  It leaves movies and
    schedules alone, no cinema row loses its place, key or name, the
    keys stay distinct, and names that were distinct stay distinct. *)
Theorem cinema_crawl_keeps_rows env pages db :
  NoDup (Cinema.ID <$> cinemas db) ->
  let db' := syncCinemasBetter env pages db in
  movies db' = movies db
  /\ schedules db' = schedules db
  /\ cinema_keys db `prefix_of` cinema_keys db'
  /\ NoDup (Cinema.ID <$> cinemas db')
  /\ (NoDup (Cinema.NameJP <$> cinemas db) -> NoDup (Cinema.NameJP <$> cinemas db')).
Proof.
  intros Hnd. rewrite cinema_ids_keys in Hnd.
  destruct (process_pages_spec env pages (O, db) Hnd)
    as (Hm & Hs & Hnd' & _ & _ & Hpre & Hn).
  cbv zeta. unfold syncCinemasBetter. rewrite !cinema_ids_keys, !cinema_names_keys.
  done.
Qed.

(** After the cinema crawl the schedule crawl finds its cinemas, and
    a second crawl adds nothing.  Every crawled page whose name is not
    empty has a row that the lookup by name of the schedule crawl finds;
    crawling the same pages again, whatever the geocoder answers, leaves
    the table with the same rows under the same keys and names. *)
Theorem cinema_crawl_complete env1 env2 pages db :
  NoDup (Cinema.ID <$> cinemas db) ->
  let db1 := syncCinemasBetter env1 pages db in
  let db2 := syncCinemasBetter env2 pages db1 in
  (forall page nameJP,
      page ∈ pages ->
      Scrape.nameJP (CinemaPage.page_title page) = Some nameJP ->
      nameJP <> "" ->
      is_Some (Store.first_cinema nameJP db1))
  /\ cinema_keys db2 = cinema_keys db1
  /\ length (cinemas db2) = length (cinemas db1).
Proof.
  intros Hnd. rewrite cinema_ids_keys in Hnd.
  destruct (process_pages_spec env1 pages (O, db) Hnd)
    as (_ & _ & Hnd1 & Hk1 & _).
  destruct (process_pages_spec env2 pages
              (O, snd (fold_left
                         (fun st page =>
                            (S (fst st), fst (process_page (env1 (fst st)) page (snd st))))
                         pages (O, db))) Hnd1)
    as (_ & _ & _ & _ & Hsame & _).
  cbv zeta. unfold syncCinemasBetter.
  assert (forall a b, cinema_keys a = cinema_keys b ->
                      length (cinemas a) = length (cinemas b)) as Hlen.
  { intros a b E. apply (f_equal length) in E. unfold cinema_keys in E.
    by rewrite !length_fmap in E. }
  split_and!.
  - intros page nameJP Hin Hname Hne.
    rewrite Forall_forall in Hk1. specialize (Hk1 page Hin).
    unfold cinema_known in Hk1. rewrite Hname in Hk1.
    unfold name_known in Hk1. rewrite bool_decide_eq_false_2 in Hk1 by done.
    by apply first_cinema_known.
  - by apply Hsame.
  - by apply Hlen, Hsame.
Qed.



End CinemaFacts.

(** ** Douban ratings *)

Section DoubanFacts.
Import GoStrings GoTime Douban.
Variable ParseFloat : string -> float.

Lemma on_result_zero title year rating e :
  (rating =? 0)%float = true ->
  on_result ParseFloat title year rating e
  = if result_matches title year e then ParseFloat (rStr e) else rating.
Proof. intros H. unfold on_result. by rewrite H. Qed.

Lemma on_result_rated title year rating e :
  (rating =? 0)%float = false -> on_result ParseFloat title year rating e = rating.
Proof. intros H. unfold on_result. by rewrite H. Qed.

Lemma on_result_sticky title year results : forall rating,
  (rating =? 0)%float = false ->
  fold_left (on_result ParseFloat title year) results rating = rating.
Proof.
  induction results as [|e results IH]; intros rating H; [done|].
  cbn [fold_left]. rewrite on_result_rated by done. by apply IH.
Qed.

Lemma fold_from_zero title year results : forall rating,
  (rating =? 0)%float = true ->
  fold_left (on_result ParseFloat title year) results rating = rating
  \/ exists e, e ∈ results /\ result_matches title year e = true
               /\ fold_left (on_result ParseFloat title year) results rating
                  = ParseFloat (rStr e).
Proof.
  induction results as [|e results IH]; intros rating H; [by left|].
  cbn [fold_left]. rewrite on_result_zero by done.
  destruct (result_matches title year e) eqn:Em.
  - destruct (ParseFloat (rStr e) =? 0)%float eqn:Ez.
    + destruct (IH _ Ez) as [->|(e' & Hin & Hm & ->)].
      * right. exists e. split_and!; [left|done|done].
      * right. exists e'. split_and!; [by right|done|done].
    + rewrite on_result_sticky by done.
      right. exists e. split_and!; [left|done|done].
  - destruct (IH _ H) as [->|(e' & Hin & Hm & ->)]; [by left|].
    right. exists e'. split_and!; [by right|done|done].
Qed.

Lemma fold_skips title year before : forall rating rest,
  (rating =? 0)%float = true ->
  Forall (fun x => result_matches title year x = false
                   \/ (ParseFloat (rStr x) =? 0)%float = true) before ->
  exists rating',
    (rating' =? 0)%float = true
    /\ fold_left (on_result ParseFloat title year) (before ++ rest) rating
       = fold_left (on_result ParseFloat title year) rest rating'.
Proof.
  induction before as [|x before IH]; intros rating rest H Hall; [by exists rating|].
  apply Forall_cons in Hall as [Hx Hall]. cbn [app fold_left].
  apply IH; [|done]. rewrite on_result_zero by done.
  destruct (result_matches title year x); [|done]. by destruct Hx.
Qed.

(** Which rating the Douban search yields.  A failed request and a
    page without a matching result give 0.  Otherwise the rating is 0 or
    the parsed rating of a result that matches, and the first matching
    result whose rating is not zero decides: no result after it is
    looked at. *)
Theorem douban_first_rated_match_wins title year results :
  fetchDoubanRating ParseFloat None title year = 0%float
  /\ (Forall (fun e => result_matches title year e = false) results ->
      fetchDoubanRating ParseFloat (Some results) title year = 0%float)
  /\ (fetchDoubanRating ParseFloat (Some results) title year = 0%float
      \/ exists e, e ∈ results /\ result_matches title year e = true
                   /\ fetchDoubanRating ParseFloat (Some results) title year
                      = ParseFloat (rStr e))
  /\ (forall before e after,
        results = (before ++ e :: after)%list ->
        Forall (fun x => result_matches title year x = false
                         \/ (ParseFloat (rStr x) =? 0)%float = true) before ->
        result_matches title year e = true ->
        (ParseFloat (rStr e) =? 0)%float = false ->
        fetchDoubanRating ParseFloat (Some results) title year = ParseFloat (rStr e)).
Proof.
  unfold fetchDoubanRating. split_and!.
  - done.
  - intros Hall.
    destruct (fold_from_zero title year results 0%float eq_refl)
      as [H|(e & Hin & Hm & _)]; [done|].
    rewrite Forall_forall in Hall. rewrite (Hall e Hin) in Hm. done.
  - apply fold_from_zero. done.
  - intros before e after -> Hall Hm Hz.
    destruct (fold_skips title year before 0%float (e :: after) eq_refl Hall)
      as (r & Hr & ->).
    cbn [fold_left]. rewrite on_result_zero, Hm by done.
    by apply on_result_sticky.
Qed.

Lemma backfilled_ID m m' : backfilled m m' -> Movie.ID m' = Movie.ID m.
Proof. intros [->|(_ & score & _ & ->)]; [done|by destruct m]. Qed.

Lemma save_movie_frame m db :
  cinemas (snd (Store.save_movie m db)) = cinemas db
  /\ schedules (snd (Store.save_movie m db)) = schedules db.
Proof. unfold Store.save_movie, Store.create_movie. by repeat case_match. Qed.

(** The loop over the selected rows [ms], on rows that are backfilled
    versions of the rows of [db]. *)
Lemma backfill_loop search db ms : forall st,
  wf_store db ->
  Forall (fun m => m ∈ movies db /\ wanted m = true) ms ->
  cinemas (snd st) = cinemas db -> schedules (snd st) = schedules db ->
  Forall2 backfilled (movies db) (movies (snd st)) ->
  let st' :=
    fold_left
      (fun st m =>
         let score :=
           fetchDoubanRating ParseFloat (search (fst st) (Movie.TitleEN m))
             (Movie.TitleEN m) (Movie.Year m) in
         if (score <=? 0)%float then (S (fst st), snd st)
         else (S (fst st),
               snd (Store.save_movie (Movie.set_DoubanRating score m) (snd st))))
      ms st in
  cinemas (snd st') = cinemas db /\ schedules (snd st') = schedules db
  /\ Forall2 backfilled (movies db) (movies (snd st')).
Proof.
  induction ms as [|m ms IH]; intros st Hwf Hms Hc Hs Hrows; [done|].
  apply Forall_cons in Hms as [[Hin Hw] Hms]. cbn [fold_left].
  set (score := fetchDoubanRating _ _ _ _).
  apply IH; try done.
  - destruct (score <=? 0)%float; [done|].
    cbn [snd]. by rewrite (proj1 (save_movie_frame _ _)).
  - destruct (score <=? 0)%float; [done|].
    cbn [snd]. by rewrite (proj2 (save_movie_frame _ _)).
  -
    destruct (score <=? 0)%float eqn:Hle; [done|]. cbn [snd].
    destruct Hwf as [Hnd Hpos].
    assert (0 < Movie.ID m) as Hid.
    { rewrite Forall_forall in Hpos. by apply Hpos. }
    unfold Store.save_movie.
    assert (Movie.ID (Movie.set_DoubanRating score m) = Movie.ID m) as -> by by destruct m.
    rewrite (proj2 (Z.eqb_neq _ _)) by lia.
    assert (Movie.ID <$> movies (snd st) = Movie.ID <$> movies db) as Hids.
    { clear -Hrows. induction Hrows as [|a b l l' Hab _ IHl]; [done|].
      rewrite !fmap_cons, IHl. f_equal. by apply backfilled_ID. }
    assert (existsb (fun r => Movie.ID r =? Movie.ID m) (movies (snd st)) = true) as ->.
    { apply existsb_exists.
      assert (Movie.ID m ∈ Movie.ID <$> movies (snd st)) as Hm.
      { rewrite Hids. by apply list_elem_of_fmap_2. }
      apply list_elem_of_fmap in Hm as (r & Hr & Hrin).
      exists r. split; [by apply list_elem_of_In|]. apply Z.eqb_eq. done. }
    cbn [snd movies].
    apply Forall2_fmap_r.
    apply Forall2_same_length_lookup. split; [by eapply Forall2_length|].
    intros i m0 r Hm0 Hr.
    pose proof (Forall2_lookup_lr _ _ _ _ _ _ Hrows Hm0 Hr) as Hb.
    unfold compose.
    destruct (Z.eqb_spec (Movie.ID r) (Movie.ID m)) as [E|E]; [|done].
    assert (m0 = m) as ->.
    { apply (same_key_same_row (movies db)); try done.
      - by eapply list_elem_of_lookup_2.
      - rewrite <- E. symmetry. by apply backfilled_ID. }
    right. split; [done|]. by exists score.
Qed.

Lemma backfill_rows search db :
  wf_store db ->
  let db' := backfillDoubanRatings ParseFloat search db in
  cinemas db' = cinemas db
  /\ schedules db' = schedules db
  /\ Forall2 backfilled (movies db) (movies db').
Proof.
  intros Hwf. cbv zeta. unfold backfillDoubanRatings.
  assert (Forall2 backfilled (movies db) (movies db)) as Hrefl.
  { apply Forall2_same_length_lookup. split; [done|].
    intros i x y Hx Hy. left. congruence. }
  case_match; [done|].
  apply (backfill_loop search db (List.filter wanted (movies db)) (O, db)); try done.
  apply Forall_forall. intros m Hm.
  apply list_elem_of_In, filter_In in Hm as [Hm Hw].
  split; [by apply list_elem_of_In|done].
Qed.

Lemma backfilled_ids l l' :
  Forall2 backfilled l l' -> Movie.ID <$> l' = Movie.ID <$> l.
Proof.
  induction 1 as [|a b l l' Hab _ IH]; [done|].
  rewrite !fmap_cons, IH. f_equal. by apply backfilled_ID.
Qed.

(** The Douban backfill writes one field of the rows it selects.
    It leaves cinemas and schedules alone and keeps every movie row in
    its place under its key; a row is unchanged, or it had no Douban
    rating, has an English title and a year, and is the same row with a
    score that is not [<= 0] as its Douban rating. *)
Theorem backfill_writes_only_missing_ratings search db :
  wf_store db ->
  let db' := backfillDoubanRatings ParseFloat search db in
  cinemas db' = cinemas db
  /\ schedules db' = schedules db
  /\ Forall2 backfilled (movies db) (movies db')
  /\ Movie.ID <$> movies db' = Movie.ID <$> movies db
  /\ wf_store db'.
Proof.
  intros Hwf. destruct (backfill_rows search db Hwf) as (Hc & Hs & Hb).
  pose proof (backfilled_ids _ _ Hb) as Hids.
  cbv zeta. split_and!; try done.
  destruct Hwf as [Hnd Hpos]. split; [by rewrite Hids|].
  apply Forall_forall. intros m' Hm'.
  apply list_elem_of_lookup in Hm' as [i Hi].
  destruct (Forall2_lookup_r _ _ _ _ _ Hb Hi) as (m & Hm & Hmm').
  rewrite (backfilled_ID _ _ Hmm').
  rewrite Forall_forall in Hpos. apply Hpos. by eapply list_elem_of_lookup_2.
Qed.

End DoubanFacts.

(** ** Seed rows *)

Section SeedFacts.
Import GoStrings GoTime Seed.

Lemma seedInitialMovies_spec db :
  cinemas (seedInitialMovies db) = cinemas db
  /\ schedules (seedInitialMovies db) = schedules db
  /\ movies (seedInitialMovies db) <> []
  /\ (movies db <> [] -> seedInitialMovies db = db)
  /\ (movies db = [] -> Movie.ID <$> movies (seedInitialMovies db) = [1; 2]).
Proof.
  unfold seedInitialMovies. destruct db as [cs [|m ms] ss].
  - cbn. split_and!; done.
  - cbn [movies length]. rewrite (proj2 (Z.ltb_lt _ _)) by lia. split_and!; done.
Qed.

Lemma create_schedules_spec rows : forall db,
  cinemas (create_schedules rows db) = cinemas db
  /\ movies (create_schedules rows db) = movies db
  /\ exists new,
       schedules (create_schedules rows db) = (schedules db ++ new)%list
       /\ Forall2 (fun row s =>
                     Schedule.MovieID s = Schedule.MovieID row
                     /\ Schedule.CinemaID s = Schedule.CinemaID row
                     /\ Schedule.PlayDate s = Schedule.PlayDate row
                     /\ Schedule.StartTime s = Schedule.StartTime row) rows new.
Proof.
  induction rows as [|row rows IH]; intros db.
  - split_and!; try done. exists []. by rewrite app_nil_r.
  - cbn [create_schedules fold_left]. fold (create_schedules rows (create_schedule row db)).
    destruct (IH (create_schedule row db)) as (Hc & Hm & new & Hs & Hall).
    split_and!; try done. eexists (_ :: new). split.
    + rewrite Hs. cbn [create_schedule schedules]. by rewrite <- app_assoc.
    + by constructor.
Qed.

Lemma seedInitialSchedules_spec db :
  let db' := seedInitialSchedules db in
  cinemas db' = cinemas db
  /\ movies db' = movies db
  /\ (cinemas db = [] \/ movies db = [] \/ schedules db <> [] -> db' = db)
  /\ (cinemas db <> [] -> movies db <> [] -> schedules db' <> [])
  /\ exists new, schedules db' = (schedules db ++ new)%list
                 /\ Forall (fun s => refers db s /\ seeded_row s) new.
Proof.
  cbv zeta. unfold seedInitialSchedules.
  destruct db as [[|c0 cs] ms ss].
  { cbn. split_and!; try done. exists []. by rewrite app_nil_r. }
  destruct ms as [|m0 ms].
  { cbn. split_and!; try done. exists []. by rewrite app_nil_r. }
  destruct ss as [|s0 ss].
  2:{ cbn [cinemas movies schedules length].
      rewrite (proj2 (Z.eqb_neq _ _)), (proj2 (Z.eqb_neq _ _)), (proj2 (Z.ltb_lt _ _))
        by lia.
      cbn [orb]. split_and!; try done. exists []. by rewrite app_nil_r. }
  cbn [cinemas movies schedules length].
  rewrite (proj2 (Z.eqb_neq _ _)), (proj2 (Z.eqb_neq _ _)) by lia.
  cbn [orb]. change (0 <? Z.of_nat 0) with false. cbv iota.
  cbn [firstn].
  match goal with
  | |- context [create_schedules ?rows ?d] =>
      destruct (create_schedules_spec rows d) as (Hc & Hm & new & Hs & Hall)
  end.
  split_and!.
  - exact Hc.
  - exact Hm.
  - intros [?|[?|?]]; done.
  - intros _ _. rewrite Hs. cbn [schedules app].
    destruct ms as [|m1 ms], cs as [|c1 cs];
      apply Forall2_length in Hall; destruct new; done.
  - exists new. split; [exact Hs|].
    set (db := mkDB (c0 :: cs) (m0 :: ms) []).
    assert (forall rows : list Schedule.t,
              Forall (fun s => refers db s /\ seeded_row s) rows ->
              Forall2 (fun row s =>
                         Schedule.MovieID s = Schedule.MovieID row
                         /\ Schedule.CinemaID s = Schedule.CinemaID row
                         /\ Schedule.PlayDate s = Schedule.PlayDate row
                         /\ Schedule.StartTime s = Schedule.StartTime row) rows new ->
              Forall (fun s => refers db s /\ seeded_row s) new) as Hsame.
    { intros rows Hrows H2. clear -Hrows H2.
      induction H2 as [|row s rows new (Em & Ec & Ep & Et) _ IH]; [done|].
      apply Forall_cons in Hrows as [[[Hr1 Hr2] [Hp Ht]] Hrows].
      constructor; [|by apply IH]. unfold refers, seeded_row.
      by rewrite Em, Ec, Ep, Et. }
    eapply Hsame; [|exact Hall].
    assert (forall t, t ∈ ["10:40"; "15:40"; "18:20"; "14:00"; "19:00"] ->
              refers db (Schedule.mk 0 (Movie.ID m0) (Cinema.ID c0)
                           (parse_or_zero "2026-01-23") t)
              /\ seeded_row (Schedule.mk 0 (Movie.ID m0) (Cinema.ID c0)
                               (parse_or_zero "2026-01-23") t)) as H0.
    { intros t Ht. split; [split; cbn; left|by split]. }
    assert (forall m1 c1 t, m1 ∈ ms -> c1 ∈ cs ->
              t ∈ ["10:40"; "15:40"; "18:20"; "14:00"; "19:00"] ->
              refers db (Schedule.mk 0 (Movie.ID m1) (Cinema.ID c1)
                           (parse_or_zero "2026-01-23") t)
              /\ seeded_row (Schedule.mk 0 (Movie.ID m1) (Cinema.ID c1)
                               (parse_or_zero "2026-01-23") t)) as H1.
    { intros m1 c1 t Hm1 Hc1 Ht. split; [|by split].
      split; cbn; right; by apply list_elem_of_fmap_2. }
    assert (forall t, t ∈ ["10:40"; "15:40"; "18:20"; "14:00"; "19:00"]
                      <-> t = "10:40" \/ t = "15:40" \/ t = "18:20" \/ t = "14:00"
                          \/ t = "19:00") as Hin.
    { intros t. rewrite !elem_of_cons, elem_of_nil. tauto. }
    destruct ms as [|m1 ms], cs as [|c1 cs]; repeat constructor;
      first [apply H0 | apply H1; [left|left|]]; apply Hin; tauto.
Qed.

(** Seeding fills empty tables only, once.  Running the start-up
    seeding a second time changes nothing; it never touches the cinemas,
    and a movie table or a schedule table that has rows is left as it
    is. *)
Theorem seed_idempotent db :
  seed (seed db) = seed db
  /\ cinemas (seed db) = cinemas db
  /\ (movies db <> [] -> movies (seed db) = movies db)
  /\ (schedules db <> [] -> schedules (seed db) = schedules db)
  /\ movies (seed db) <> [].
Proof.
  unfold seed.
  destruct (seedInitialMovies_spec db) as (Hc1 & Hs1 & Hne1 & Hsame1 & _).
  set (db1 := seedInitialMovies db) in *.
  destruct (seedInitialSchedules_spec db1) as (Hc2 & Hm2 & Hsame2 & Hne2 & _).
  set (db2 := seedInitialSchedules db1) in *.
  assert (seedInitialMovies db2 = db2) as Hfix1.
  { apply seedInitialMovies_spec. by rewrite Hm2. }
  split_and!.
  - rewrite Hfix1.
    destruct (seedInitialSchedules_spec db2) as (_ & _ & Hsame3 & _).
    apply Hsame3.
    destruct (cinemas db1) as [|c cs] eqn:Ecs.
    + left. exact Hc2.
    + right. right. by apply Hne2.
  - by rewrite Hc2, Hc1.
  - intros Hm. rewrite Hm2. by rewrite (Hsame1 Hm).
  - intros Hs. rewrite Hsame2; [done|].
    right. right. by rewrite Hs1.
  - by rewrite Hm2.
Qed.

(** Seeding keeps the store consistent.  If the movie keys are
    distinct and positive and every schedule row points to a stored movie
    and a stored cinema, the same holds after the start-up seeding, for
    the seeded rows as well. *)
Theorem seed_keeps_store_consistent db :
  wf_store db ->
  Forall (refers db) (schedules db) ->
  wf_store (seed db) /\ Forall (refers (seed db)) (schedules (seed db)).
Proof.
  intros Hwf Hrefs. unfold seed.
  destruct (seedInitialMovies_spec db) as (Hc1 & Hs1 & Hne1 & Hsame1 & Hids1).
  remember (seedInitialMovies db) as db1 eqn:E1.
  destruct (seedInitialSchedules_spec db1) as (Hc2 & Hm2 & _ & _ & new & Hs2 & Hnew).
  apply (Forall_impl _ (refers db1)) in Hnew; [|by intros s []].
  remember (seedInitialSchedules db1) as db2 eqn:E2.
  assert (wf_store db1 /\ Forall (refers db1) (schedules db1)) as [Hwf1 Hrefs1].
  { destruct (movies db) as [|m ms] eqn:Em.
    - split.
      + unfold wf_store. specialize (Hids1 eq_refl).
        assert (Forall (fun m => 0 < Movie.ID m) (movies db1)
                <-> Forall (fun i => 0 < i) (Movie.ID <$> movies db1)) as ->
          by by rewrite Forall_fmap.
        rewrite Hids1. split; [|repeat constructor; lia].
        apply NoDup_cons. split; [|apply NoDup_singleton].
        intros [=]%list_elem_of_singleton.
      + rewrite Hs1. eapply Forall_impl; [exact Hrefs|].
        intros s [H1 H2]. rewrite Em in H1. by apply elem_of_nil in H1.
    - assert (db1 = db) as Hdb by by apply Hsame1.
      by rewrite Hdb. }
  split.
  - destruct Hwf1 as [Hnd Hpos]. split; by rewrite Hm2.
  - assert (forall s, refers db1 s -> refers db2 s) as Hmono.
    { intros s [H1 H2]. split; [by rewrite Hm2|by rewrite Hc2]. }
    rewrite Hs2. apply Forall_app. split; eapply Forall_impl; eauto.
Qed.

End SeedFacts.

(** ** The views of the API *)

Section ApiFacts.
Import GoStrings GoTime Api.
Variable Format : Time -> string.
Variable sql_date : Time -> string.
Variable format_rating : float -> string.

(** The list item of a movie shows a title whenever the movie has
    one.  The main title is the Chinese one, else the English, else the
    Japanese; the second title is the English one, else the Japanese;
    each case is an equation below, and either title is empty only when
    all its sources are.  The release date is empty exactly for the zero
    time, and the formatted date otherwise. *)
Theorem mapMovieToItem_titles m :
  let item := mapMovieToItem Format m in
  (mi_TitleCN item = "" <->
     Movie.TitleCN m = "" /\ Movie.TitleEN m = "" /\ Movie.TitleJP m = "")
  /\ (mi_TitleEN item = "" <-> Movie.TitleEN m = "" /\ Movie.TitleJP m = "")
  /\ (Movie.TitleCN m <> "" -> mi_TitleCN item = Movie.TitleCN m)
  /\ (Movie.TitleCN m = "" -> Movie.TitleEN m <> "" -> mi_TitleCN item = Movie.TitleEN m)
  /\ (Movie.TitleCN m = "" -> Movie.TitleEN m = "" -> mi_TitleCN item = Movie.TitleJP m)
  /\ (Movie.TitleEN m <> "" -> mi_TitleEN item = Movie.TitleEN m)
  /\ (Movie.TitleEN m = "" -> mi_TitleEN item = Movie.TitleJP m)
  /\ (IsZero (Movie.ReleaseDate m) = true -> mi_ReleaseDate item = "")
  /\ (IsZero (Movie.ReleaseDate m) = false ->
      mi_ReleaseDate item = Format (Movie.ReleaseDate m))
  /\ mi_ID item = Movie.ID m /\ mi_Status item = Movie.Status m.
Proof.
  cbv zeta. unfold mapMovieToItem. cbn [mi_TitleCN mi_TitleEN mi_ReleaseDate mi_ID mi_Status].
  split_and!.
  - repeat case_bool_decide; cbn [negb]; split; try tauto; intros; try done.
    all: by repeat match goal with H : _ /\ _ |- _ => destruct H end.
  - repeat case_bool_decide; cbn [negb andb]; split; try tauto; intros; try done.
    all: by repeat match goal with H : _ /\ _ |- _ => destruct H end.
  - intros H. by rewrite bool_decide_eq_false_2.
  - intros H1 H2. rewrite bool_decide_eq_true_2 by done.
    by rewrite bool_decide_eq_false_2.
  - intros H1 H2. by rewrite !bool_decide_eq_true_2.
  - intros H. by rewrite bool_decide_eq_false_2.
  - intros H. rewrite (bool_decide_eq_true_2 _ H). cbn [andb].
    case_bool_decide as Hj; cbn [negb]; congruence.
  - by intros ->.
  - by intros ->.
  - done.
  - done.
Qed.

Lemma daily_title_nonempty mv : daily_title mv <> "".
Proof.
  unfold daily_title. repeat case_bool_decide; try done.
Qed.

(** *** Grouping the rows of a day *)

Lemma movieMap_spec (ms : list Movie.t) : forall (init : gmap Z Movie.t),
  let movieMap := fold_left (fun movieMap m => <[Movie.ID m := m]> movieMap) ms init in
  (forall k mv, movieMap !! k = Some mv ->
     (mv ∈ ms /\ Movie.ID mv = k) \/ init !! k = Some mv)
  /\ (forall m, m ∈ ms -> is_Some (movieMap !! Movie.ID m))
  /\ (forall k, is_Some (init !! k) -> is_Some (movieMap !! k)).
Proof.
  induction ms as [|m ms IH]; intros init; cbn [fold_left].
  - split_and!; [by right| |done]. by intros m []%elem_of_nil.
  - destruct (IH (<[Movie.ID m := m]> init)) as (H1 & H2 & H3). split_and!.
    + intros k mv Hk. destruct (H1 k mv Hk) as [[Hin Hid]|Hi].
      * left. split; [by right|done].
      * destruct (decide (Movie.ID m = k)) as [<-|Hne].
        -- rewrite lookup_insert_eq in Hi. injection Hi as <-. left. split; [left|done].
        -- rewrite lookup_insert_ne in Hi by done. by right.
    + intros m' [->|Hin]%elem_of_cons; [|by apply H2].
      apply H3. rewrite lookup_insert_eq. by eexists.
    + intros k Hk. apply H3.
      destruct (decide (Movie.ID m = k)) as [<-|Hne].
      * rewrite lookup_insert_eq. by eexists.
      * by rewrite lookup_insert_ne.
Qed.

Lemma times_of_snoc k done s :
  times_of k (done ++ [s])
  = (times_of k done ++ if Schedule.MovieID s =? k then [Schedule.StartTime s] else [])%list.
Proof.
  unfold times_of. rewrite List.filter_app, fmap_app. cbn [List.filter].
  by destruct (Schedule.MovieID s =? k).
Qed.

Lemma add_time_grouped movieMap done dailyMap s :
  (forall k mv, movieMap !! k = Some mv -> Movie.ID mv = k) ->
  grouped format_rating movieMap done dailyMap ->
  grouped format_rating movieMap (done ++ [s]) (add_time format_rating movieMap dailyMap s).
Proof.
  intros Hkeys Hg k. unfold add_time.
  destruct (movieMap !! Schedule.MovieID s) as [mv|] eqn:Hmv.
  - pose proof (Hkeys _ _ Hmv) as Hid. rewrite Hid.
    pose proof (Hg (Schedule.MovieID s)) as Hs. rewrite Hmv in Hs.
    set (dm1 := match dailyMap !! Schedule.MovieID s with
                | Some _ => dailyMap
                | None => <[Schedule.MovieID s :=
                              mkDailyMovie (Schedule.MovieID s) (daily_title mv) []
                                (format_rating (daily_rating mv))]> dailyMap
                end).
    assert (dm1 !! Schedule.MovieID s
            = Some (mkDailyMovie (Schedule.MovieID s) (daily_title mv)
                      (times_of (Schedule.MovieID s) done)
                      (format_rating (daily_rating mv)))
            /\ forall k', k' <> Schedule.MovieID s -> dm1 !! k' = dailyMap !! k')
      as [Hdm1 Hother].
    { unfold dm1. destruct (dailyMap !! Schedule.MovieID s) as [dm0|] eqn:Hd.
      - split; [|done]. rewrite Hd, Hs.
        destruct (times_of (Schedule.MovieID s) done) eqn:Et; [done|].
        injection Hs as ->. unfold daily_entry. by rewrite Hid, Et.
      - split.
        + rewrite lookup_insert_eq.
          destruct (times_of (Schedule.MovieID s) done) eqn:Et; [done|done].
        + intros k' Hk'. by rewrite lookup_insert_ne. }
    rewrite Hdm1. cbn [dm_ID dm_Title dm_Times dm_Rating].
    destruct (decide (k = Schedule.MovieID s)) as [->|Hne].
    + rewrite lookup_insert_eq, Hmv, times_of_snoc, Z.eqb_refl.
      unfold daily_entry. rewrite Hid, times_of_snoc, Z.eqb_refl.
      by destruct (times_of (Schedule.MovieID s) done).
    + rewrite lookup_insert_ne, Hother, Hg by done.
      destruct (movieMap !! k) as [mv'|] eqn:Hk; [|done].
      unfold daily_entry. rewrite (Hkeys _ _ Hk), !times_of_snoc.
      rewrite (proj2 (Z.eqb_neq _ _)) by done. by rewrite !app_nil_r.
  - rewrite Hg. destruct (movieMap !! k) as [mv'|] eqn:Hk; [|done].
    unfold daily_entry. rewrite (Hkeys _ _ Hk), !times_of_snoc.
    destruct (Z.eqb_spec (Schedule.MovieID s) k) as [E|E]; [congruence|].
    by rewrite !app_nil_r.
Qed.

Lemma add_times_grouped movieMap rest : forall done dailyMap,
  (forall k mv, movieMap !! k = Some mv -> Movie.ID mv = k) ->
  grouped format_rating movieMap done dailyMap ->
  grouped format_rating movieMap (done ++ rest)
    (fold_left (add_time format_rating movieMap) rest dailyMap).
Proof.
  induction rest as [|s rest IH]; intros done dailyMap Hkeys Hg.
  - by rewrite app_nil_r.
  - cbn [fold_left]. rewrite (cons_middle s done rest), app_assoc.
    apply IH; [done|]. by apply add_time_grouped.
Qed.

(** The daily programme of a cinema groups the rows of the day by
    movie.  The entries have distinct keys; each one belongs to a stored
    movie, carries its title and rating and exactly the start times of
    its rows of that cinema and date, in row order, at least one; and
    every row of the day whose movie is stored is in an entry. *)
Theorem daily_movies_group_rows cinemaID dateStr db :
  let result := buildDailyMoviesForCinema sql_date format_rating cinemaID dateStr db in
  let rows := rows_on sql_date cinemaID dateStr db in
  NoDup (dm_ID <$> result)
  /\ (forall dm, dm ∈ result ->
        exists mv, mv ∈ movies db
                   /\ dm = daily_entry format_rating mv rows
                   /\ dm_Times dm <> [] /\ dm_Title dm <> "")
  /\ (forall s, s ∈ rows ->
        Schedule.MovieID s ∈ Movie.ID <$> movies db ->
        exists dm, dm ∈ result /\ dm_ID dm = Schedule.MovieID s
                   /\ Schedule.StartTime s ∈ dm_Times dm).
Proof.
  cbv zeta. unfold buildDailyMoviesForCinema.
  fold (rows_on sql_date cinemaID dateStr db).
  set (rows := rows_on sql_date cinemaID dateStr db).
  destruct (decide (rows = [])) as [Hnil|Hrows].
  { rewrite Hnil. cbn. split_and!; [constructor| |]; by intros ? []%elem_of_nil. }
  assert ((Z.of_nat (length rows) =? 0) = false) as ->.
  { apply Z.eqb_neq. destruct rows; [done|]. simpl. lia. }
  set (movieIDs := list_to_set (Schedule.MovieID <$> rows) : gset Z).
  assert ((Z.of_nat (size movieIDs) =? 0) = false) as ->.
  { apply Z.eqb_neq. intros Hsz.
    assert (size movieIDs = 0%nat) as Hz by lia.
    apply size_empty_inv in Hz. destruct rows as [|s rows']; [done|].
    assert (Schedule.MovieID s ∈ movieIDs) as Hin.
    { unfold movieIDs. rewrite elem_of_list_to_set, fmap_cons. left. }
    rewrite (Hz (Schedule.MovieID s)) in Hin. by apply elem_of_empty in Hin. }
  set (ms := List.filter (fun m => bool_decide (Movie.ID m ∈ movieIDs)) (movies db)).
  set (movieMap := fold_left (fun movieMap m => <[Movie.ID m := m]> movieMap) ms ∅).
  destruct (movieMap_spec ms ∅) as (Hmm1 & Hmm2 & _). fold movieMap in Hmm1, Hmm2.
  assert (forall k mv, movieMap !! k = Some mv -> Movie.ID mv = k /\ mv ∈ movies db)
    as Hkeys.
  { intros k mv Hk. destruct (Hmm1 k mv Hk) as [[Hin Hid]|Hemp]; [|done].
    split; [done|]. unfold ms in Hin.
    apply list_elem_of_In, filter_In in Hin as [Hin _]. by apply list_elem_of_In. }
  set (dailyMap := fold_left (add_time format_rating movieMap) rows ∅).
  assert (grouped format_rating movieMap rows dailyMap) as Hg.
  { apply (add_times_grouped movieMap rows [] ∅).
    - intros k mv Hk. by apply Hkeys.
    - intros k. rewrite lookup_empty. by destruct (movieMap !! k). }
  assert (forall k dm, dailyMap !! k = Some dm ->
            exists mv, movieMap !! k = Some mv /\ dm = daily_entry format_rating mv rows
                       /\ times_of k rows <> []) as Hentry.
  { intros k dm Hk. rewrite Hg in Hk.
    destruct (movieMap !! k) as [mv|]; [|done].
    destruct (times_of k rows) eqn:Et; [done|].
    injection Hk as <-. by exists mv. }
  split_and!.
  - assert (dm_ID <$> (map_to_list dailyMap).*2 = (map_to_list dailyMap).*1) as ->.
    { rewrite <- list_fmap_compose. apply list_fmap_ext.
      intros i [k dm] Hi. simpl.
      apply list_elem_of_lookup_2, elem_of_map_to_list in Hi.
      destruct (Hentry k dm Hi) as (mv & Hmv & -> & _). simpl.
      by apply Hkeys. }
    apply NoDup_fst_map_to_list.
  - intros dm Hdm. apply list_elem_of_fmap in Hdm as ([k dm'] & -> & Hin).
    apply elem_of_map_to_list in Hin. simpl.
    destruct (Hentry k dm' Hin) as (mv & Hmv & -> & Ht).
    destruct (Hkeys k mv Hmv) as [Hid Hmvin].
    exists mv. split_and!; [done|done| |].
    + simpl. by rewrite Hid.
    + simpl. apply daily_title_nonempty.
  - intros s Hs Hstored.
    apply list_elem_of_fmap in Hstored as (m & Hid & Hm).
    assert (m ∈ ms) as Hms.
    { unfold ms. apply list_elem_of_In, filter_In. split; [by apply list_elem_of_In|].
      apply bool_decide_eq_true. unfold movieIDs.
      rewrite elem_of_list_to_set, <- Hid. by apply list_elem_of_fmap_2. }
    destruct (Hmm2 m Hms) as [mv Hmv]. rewrite <- Hid in Hmv.
    assert (Schedule.StartTime s ∈ times_of (Schedule.MovieID s) rows) as Htime.
    { unfold times_of. apply list_elem_of_fmap_2, list_elem_of_In, filter_In.
      split; [by apply list_elem_of_In|]. apply Z.eqb_refl. }
    pose proof (Hg (Schedule.MovieID s)) as Hlook. rewrite Hmv in Hlook.
    destruct (times_of (Schedule.MovieID s) rows) as [|t ts] eqn:Et.
    { by apply elem_of_nil in Htime. }
    exists (daily_entry format_rating mv rows). split_and!.
    + apply list_elem_of_fmap. exists (Schedule.MovieID s, daily_entry format_rating mv rows).
      split; [done|]. by apply elem_of_map_to_list.
    + simpl. by apply Hkeys.
    + simpl. rewrite (proj1 (Hkeys _ _ Hmv)), Et. done.
Qed.

End ApiFacts.

(** ** The commands *)

Section MainFacts.
Import GoStrings GoTime.

Lemma ingested_row_ids db db' s :
  Movie.ID <$> movies db' = Movie.ID <$> movies db ->
  Cinema.ID <$> cinemas db `prefix_of` Cinema.ID <$> cinemas db' ->
  ingested_row db s -> ingested_row db' s.
Proof.
  intros Hm [k Hk] (? & ? & ? & Hmi & Hci). split_and!; try done.
  - by rewrite Hm.
  - rewrite Hk, elem_of_app. by left.
Qed.

Lemma wf_store_ids db db' :
  Movie.ID <$> movies db' = Movie.ID <$> movies db -> wf_store db -> wf_store db'.
Proof.
  intros Hm [Hnd Hpos]. split; [by rewrite Hm|].
  assert (forall l : list Movie.t,
            Forall (fun m => 0 < Movie.ID m) l
            <-> Forall (fun i => 0 < i) (Movie.ID <$> l)) as E.
  { intros l. by rewrite Forall_fmap. }
  apply E. rewrite Hm. by apply E.
Qed.

Lemma store_ok_ids db db' :
  Movie.ID <$> movies db' = Movie.ID <$> movies db ->
  cinemas db' = cinemas db -> schedules db' = schedules db ->
  store_ok db -> store_ok db'.
Proof.
  intros Hm Hc Hs (Hwf & Hnd & Hrows). split_and!.
  - by eapply wf_store_ids.
  - by rewrite Hc.
  - rewrite Hs. eapply Forall_impl; [exact Hrows|].
    intros s. apply ingested_row_ids; [done|by rewrite Hc].
Qed.

Lemma seed_store_ok db : store_ok db -> store_ok (Seed.seed db).
Proof.
  intros (Hwf & Hnd & Hrows).
  assert (Forall (refers db) (schedules db)) as Hrefs.
  { eapply Forall_impl; [exact Hrows|]. by intros s (_ & _ & _ & ? & ?). }
  unfold Seed.seed.
  destruct (seedInitialMovies_spec db) as (Hc1 & Hs1 & _ & Hsame1 & Hids1).
  remember (Seed.seedInitialMovies db) as db1 eqn:E1.
  destruct (seedInitialSchedules_spec db1) as (Hc2 & Hm2 & _ & _ & new & Hs2 & Hnew).
  remember (Seed.seedInitialSchedules db1) as db2 eqn:E2.
  assert (wf_store db1 /\ Forall (ingested_row db1) (schedules db1)) as [Hwf1 Hrows1].
  { destruct (movies db) as [|m ms] eqn:Em.
    - split.
      + unfold wf_store. specialize (Hids1 eq_refl).
        assert (Forall (fun m => 0 < Movie.ID m) (movies db1)
                <-> Forall (fun i => 0 < i) (Movie.ID <$> movies db1)) as ->
          by by rewrite Forall_fmap.
        rewrite Hids1. split; [|repeat constructor; lia].
        apply NoDup_cons. split; [|apply NoDup_singleton].
        intros [=]%list_elem_of_singleton.
      + rewrite Hs1. eapply Forall_impl; [exact Hrows|].
        intros s (_ & _ & _ & H1 & _). rewrite Em in H1. by apply elem_of_nil in H1.
    - assert (db1 = db) as Hdb by by apply Hsame1.
      by rewrite Hdb. }
  split_and!.
  - destruct Hwf1 as [Hnd1 Hpos1]. split; by rewrite Hm2.
  - by rewrite Hc2, Hc1.
  - rewrite Hs2. apply Forall_app. split.
    + eapply Forall_impl; [exact Hrows1|]. intros s.
      apply ingested_row_ids; [by rewrite Hm2|by rewrite Hc2].
    + eapply Forall_impl; [exact Hnew|].
      intros s [[Hr1 Hr2] [Hp Ht]]. split_and!.
      * unfold parsed_row, play_day. rewrite Hp. reflexivity.
      * repeat (apply elem_of_cons in Ht as [->|Ht]; [by vm_compute|]).
        by apply elem_of_nil in Ht.
      * repeat (apply elem_of_cons in Ht as [->|Ht]; [by vm_compute|]).
        by apply elem_of_nil in Ht.
      * by rewrite Hm2.
      * by rewrite Hc2.
Qed.

(** Every command keeps the store consistent.  If the movie keys are
    distinct and positive, the cinema keys distinct and every schedule
    row holds midnight UTC of its day, a start time with a colon and the
    keys of a stored movie and a stored cinema, then the same holds after
    a run of the program with any arguments, whatever the site and the
    services answer. *)
Theorem main_keeps_store_consistent args o db :
  store_ok db -> store_ok (Main.main args o db).
Proof.
  intros Hok. apply seed_store_ok in Hok. unfold Main.main.
  set (db0 := Seed.seed db) in *. destruct Hok as (Hwf & Hnd & Hrows).
  destruct args as [|program [|command rest]]; [done|done|].
  case_bool_decide as E1.
  { pose proof Hnd as Hnd0. rewrite cinema_ids_keys in Hnd0.
    destruct (process_pages_spec (Main.geocoder o) (Main.cinema_pages o) (O, db0) Hnd0)
      as (Hm & Hs & Hnd' & _ & _ & Hpre & _).
    unfold CinemaSync.syncCinemasBetter. cbn [snd] in *. split_and!.
    - eapply wf_store_ids; [|exact Hwf]. by rewrite Hm.
    - by rewrite cinema_ids_keys.
    - rewrite Hs. eapply Forall_impl; [exact Hrows|]. intros s.
      apply ingested_row_ids; [by rewrite Hm|].
      rewrite !cinema_ids_keys. destruct Hpre as [k ->].
      rewrite fmap_app. by apply prefix_app_r. }
  case_bool_decide as E2.
  { destruct (process_pages_extends (Main.json_Marshal o) (Main.worlds o)
                (Main.schedule_pages o) (O, db0) Hwf) as (Hwf' & (Hc & _) & _).
    unfold syncSchedulesFromEiga. cbn [snd] in *. split_and!; [done|by rewrite Hc|].
    apply (process_pages_keeps (Main.json_Marshal o)
             (fun db => Forall (ingested_row db) (schedules db))); [|done|done].
    intros w cinema sec d. apply process_section_rows. }
  case_bool_decide as E3.
  { destruct (backfill_rows (Main.ParseFloat o)
                (Main.douban_search o) db0 Hwf) as (Hc & Hs & Hb).
    apply (store_ok_ids db0); [by apply backfilled_ids|done|done|done]. }
  case_bool_decide as E4; [|done].
  rewrite (batch_store _ _ Hwf).
  apply (store_ok_ids db0); [|done|done|done].
  cbn [movies]. rewrite <- list_fmap_compose. apply list_fmap_ext.
  intros i m _. by destruct m.
Qed.

End MainFacts.

(** ** More concrete runs *)

Section MoreRuns.
Import GoStrings GoTime.

Lemma listed_store_wf : wf_store listed_store.
Proof.
  split.
  - apply (bool_decide_unpack _). by vm_compute.
  - repeat constructor.
Qed.

Lemma batch_pass_sets_every_status_witness :
  wf_store listed_store
  /\ (let db' := Status.updateMovieStatusFromSchedules utc_morning listed_store in
      cinemas db' = cinemas listed_store
      /\ schedules db' = schedules listed_store
      /\ length (movies db') = length (movies listed_store)
      /\ forall i m, movies listed_store !! i = Some m ->
           movies db' !! i
           = Some (Movie.set_Status
                     (Status.batch_status utc_morning
                        (Store.schedules_of (Movie.ID m) listed_store)) m)).
Proof.
  split; [apply listed_store_wf|].
  apply (batch_pass_sets_every_status utc_morning listed_store). apply listed_store_wf.
Defined.

Lemma batch_pass_idempotent_witness :
  wf_store listed_store
  /\ Status.updateMovieStatusFromSchedules utc_morning
       (Status.updateMovieStatusFromSchedules utc_morning listed_store)
     = Status.updateMovieStatusFromSchedules utc_morning listed_store.
Proof.
  split; [apply listed_store_wf|].
  apply (batch_pass_idempotent utc_morning listed_store). apply listed_store_wf.
Defined.

Lemma ingestion_complete_witness :
  wf_store one_cinema_store
  /\ (let db1 := syncSchedulesFromEiga example_json (fun _ => example_world)
                   [example_page] one_cinema_store in
      Forall (fun page => page_covered page db1) [example_page]
      /\ cinemas db1 = cinemas one_cinema_store
      /\ title_keys one_cinema_store `prefix_of` title_keys db1
      /\ schedules one_cinema_store `prefix_of` schedules db1
      /\ wf_store db1).
Proof.
  split; [apply empty_movies_wf|].
  apply (ingestion_complete example_json). apply empty_movies_wf.
Defined.

Lemma ingestion_keeps_rows_clean_witness :
  wf_store one_cinema_store
  /\ Forall (ingested_row one_cinema_store) (schedules one_cinema_store)
  /\ (let db1 := syncSchedulesFromEiga example_json (fun _ => example_world)
                   [example_page] one_cinema_store in
      Forall (ingested_row db1) (schedules db1)).
Proof.
  split; [apply empty_movies_wf|]. split; [constructor|].
  apply (ingestion_keeps_rows_clean example_json).
  - apply empty_movies_wf.
  - constructor.
Defined.

Lemma synopsis_first_language_wins_witness :
  Movie.Synopsis
    (fst (fst (enrichMovieRatings example_json overview_world rated_movie empty_store)))
  = "あらすじ".
Proof.
  rewrite (synopsis_first_language_wins example_json overview_world rated_movie empty_store);
    [reflexivity|reflexivity|by vm_compute|by vm_compute|reflexivity].
Defined.

Lemma cinema_crawl_keeps_rows_witness :
  NoDup (Cinema.ID <$> cinemas one_cinema_store)
  /\ (let db' := CinemaSync.syncCinemasBetter lost_geocoder [cinema_page] one_cinema_store in
      movies db' = movies one_cinema_store
      /\ schedules db' = schedules one_cinema_store
      /\ cinema_keys one_cinema_store `prefix_of` cinema_keys db'
      /\ NoDup (Cinema.ID <$> cinemas db')
      /\ (NoDup (Cinema.NameJP <$> cinemas one_cinema_store) ->
          NoDup (Cinema.NameJP <$> cinemas db'))).
Proof.
  split; [apply NoDup_singleton|].
  apply (cinema_crawl_keeps_rows lost_geocoder [cinema_page] one_cinema_store).
  apply NoDup_singleton.
Defined.

Lemma cinema_crawl_complete_witness :
  NoDup (Cinema.ID <$> cinemas empty_store)
  /\ (let db1 := CinemaSync.syncCinemasBetter lost_geocoder [cinema_page] empty_store in
      let db2 := CinemaSync.syncCinemasBetter lost_geocoder [cinema_page] db1 in
      (forall page nameJP,
          page ∈ [cinema_page] ->
          Scrape.nameJP (CinemaPage.page_title page) = Some nameJP ->
          nameJP <> "" ->
          is_Some (Store.first_cinema nameJP db1))
      /\ cinema_keys db2 = cinema_keys db1
      /\ length (cinemas db2) = length (cinemas db1)).
Proof.
  split; [constructor|].
  apply (cinema_crawl_complete lost_geocoder lost_geocoder [cinema_page] empty_store).
  constructor.
Defined.

Lemma backfill_writes_only_missing_ratings_witness :
  wf_store listed_store
  /\ (let db' := Douban.backfillDoubanRatings example_ParseFloat hunt_results listed_store in
      cinemas db' = cinemas listed_store
      /\ schedules db' = schedules listed_store
      /\ Forall2 backfilled (movies listed_store) (movies db')
      /\ Movie.ID <$> movies db' = Movie.ID <$> movies listed_store
      /\ wf_store db').
Proof.
  split; [apply listed_store_wf|].
  apply (backfill_writes_only_missing_ratings example_ParseFloat hunt_results listed_store).
  apply listed_store_wf.
Defined.

Lemma seed_keeps_store_consistent_witness :
  wf_store one_cinema_store
  /\ Forall (refers one_cinema_store) (schedules one_cinema_store)
  /\ wf_store (Seed.seed one_cinema_store)
  /\ Forall (refers (Seed.seed one_cinema_store)) (schedules (Seed.seed one_cinema_store)).
Proof.
  split; [apply empty_movies_wf|]. split; [constructor|].
  apply (seed_keeps_store_consistent one_cinema_store).
  - apply empty_movies_wf.
  - constructor.
Defined.

Lemma seeded_store_wf : wf_store seeded_store.
Proof.
  split.
  - apply (bool_decide_unpack _). by vm_compute.
  - repeat constructor.
Qed.

Lemma ingestion_keeps_titles_unique_witness :
  wf_store seeded_store
  /\ Movie.TitleJP <$> movies seeded_store = [""; ""]
  /\ NoDup (native_titles seeded_store)
  /\ (let db1 := syncSchedulesFromEiga example_json (fun _ => example_world)
                   [example_page; example_page] seeded_store in
      Movie.TitleJP <$> movies db1 = [""; ""; "偽りなき者"]
      /\ NoDup (native_titles db1)).
Proof.
  split; [apply seeded_store_wf|]. split; [reflexivity|]. split; [constructor|].
  split; [by vm_compute|].
  apply (ingestion_keeps_titles_unique example_json).
  - apply seeded_store_wf.
  - constructor.
Defined.

Lemma one_cinema_store_ok : store_ok one_cinema_store.
Proof.
  split_and!; [apply empty_movies_wf|apply NoDup_singleton|constructor].
Qed.

Lemma main_keeps_store_consistent_witness :
  store_ok one_cinema_store
  /\ store_ok (Main.main ["cinepath"; "crawl-schedules"] example_outside one_cinema_store).
Proof.
  split; [apply one_cinema_store_ok|].
  apply (main_keeps_store_consistent _ example_outside one_cinema_store).
  apply one_cinema_store_ok.
Defined.

(** The runs above, evaluated. *)
Example more_runs :
  Movie.Status <$> movies (Status.updateMovieStatusFromSchedules utc_morning listed_store)
  = ["incoming"; "showing"]
  /\ cinema_keys (CinemaSync.syncCinemasBetter lost_geocoder [cinema_page] empty_store)
     = [(1, "新宿ピカデリー")]
  /\ Cinema.BuildingPhoto
       <$> cinemas (CinemaSync.syncCinemasBetter lost_geocoder [cinema_page] empty_store)
     = ["/images/theater/3018/photo.jpg"]
  /\ Movie.DoubanRating
       <$> movies (Douban.backfillDoubanRatings example_ParseFloat hunt_results listed_store)
     = [9%float; 9%float]
  /\ Schedule.StartTime <$> schedules (Seed.seed one_cinema_store)
     = ["10:40"; "15:40"; "18:20"]
  /\ Movie.ID <$> movies (Seed.seed one_cinema_store) = [1; 2]
  /\ (fun s => (Schedule.MovieID s, Schedule.StartTime s))
       <$> schedules (Main.main ["cinepath"; "crawl-schedules"] example_outside
                        one_cinema_store)
     = [(1, "10:40"); (1, "15:40"); (1, "18:20"); (3, "18:05"); (3, "11:00"); (3, "11:00")].
Proof. vm_compute. done. Qed.


End MoreRuns.
